(** * Parallel depth-first search engine (gecode/search/parallel/dfs.cpp)

    A shallow embedding of [DfsEngine] and [DfsWorker]: the bodies of the
    engine and worker methods are pure functions on records, and the
    threads (the caller of the engine and the N workers) are interleaved
    by a step function over program counters.  Every critical section
    guarded by [m_search], [_m_terminate] or a worker's [m] contains no
    blocking operation, so each is one atomic step; [_m_wait] is held by
    the engine across calls and is therefore part of the state.  Each
    step records the synchronisation operations it performs in a trace.
    A failing [assert] ends the run; built with NDEBUG, [busy()] would
    go on and increment [n_busy] from 0.

    Not modelled: the output to [std::cout] and [number()], which serves
    it; the time stamp taken by [start()]; the propagation counters that
    [status] adds to the statistics; the release of memory; what a
    worker does after [_e_terminate.signal()] (the release of
    [_m_terminate] and the return from [run()] belong to the step that
    calls [terminated()], so a worker that has left [run()] in the model
    may in the program still be on its way out when the destructor
    goes on). *)

From Stdlib Require Import ZArith List Bool Lia.
From stdpp Require Import base list.
Import ListNotations.
Local Open Scope Z_scope.

(** ** Machine integers *)

(** [unsigned int] arithmetic wraps around at 2^32. *)
Definition UINT_RANGE : Z := 2 ^ 32.
Definition u32 (z : Z) : Z := z mod UINT_RANGE.

(** The null pointer constant: an integer constant of value zero. *)
Definition NULL : Z := 0.

(** ** Collaborators declared outside dfs.cpp *)

Inductive SpaceStatus := SS_FAILED | SS_SOLVED | SS_BRANCH.

(** Modelled from the spec: the [Statistics] type (gecode/search.hh) with
    the counters the specification names. *)
Record Statistics := { node : Z; fail : Z; memory : Z }.

Definition incr_node (s : Statistics) : Statistics :=
  {| node := node s + 1; fail := fail s; memory := memory s |}.
Definition incr_fail (s : Statistics) : Statistics :=
  {| node := node s; fail := fail s + 1; memory := memory s |}.
Definition add_memory (k : Z) (s : Statistics) : Statistics :=
  {| node := node s; fail := fail s; memory := memory s + k |}.

(** Modelled from the spec: a default-constructed [Statistics] has all
    counters at zero. *)
Definition Statistics_init : Statistics := {| node := 0; fail := 0; memory := 0 |}.

(** Modelled from the spec: search options; [stop] is the stop predicate
    over (statistics, path size), absent when the pointer is null. *)
Record Options := {
  threads : Z;
  c_d : Z;
  a_d : Z;
  stop : option (Statistics -> Z -> bool)
}.

(** Modelled from the spec: [Worker::stop(Stop*, size_t)] consults the stop
    predicate on the worker's statistics and the path size. *)
Definition Worker_stop (w : Statistics) (st : option (Statistics -> Z -> bool)) (sz : Z) : bool :=
  match st with
  | Some p => p w sz
  | None => false
  end.

(** The space contract consumed by the engine.  The C++ methods update the
    space in place; here each returns the updated space. *)
Class SpaceContract := {
  Space : Type;
  BranchingDesc : Type;
  status : Space -> SpaceStatus * Space;
  description : Space -> BranchingDesc * Space;
  clone : bool -> Space -> Space;
  commit : Space -> BranchingDesc -> Z -> Space
}.

(** The path (gecode/search/parallel/path.hh) and the [Worker] base class
    (gecode/search/worker.hh) are taken as parameters; the operations that
    receive the worker ([*this]) may update its statistics. *)
Class SearchSupport `{SpaceContract} := {
  Path : Type;
  path_new : Path;
  path_push : Statistics -> Path -> Space -> option Space ->
              BranchingDesc * Space * Path * Statistics;
  path_next : Statistics -> Path -> bool * Path * Statistics;
  path_recompute : Path -> Z -> Z -> Statistics -> Space * Z * Path * Statistics;
  path_steal : Path -> option Space * Path;
  path_size : Path -> Z;
  Worker_new : Z -> Statistics;
  Worker_current : option Space -> Statistics -> Statistics;
  Worker_push : option Space -> BranchingDesc -> Statistics -> Statistics;
  snapshot : Space -> Options -> Space
}.

(** ** Threads, synchronisation objects and observable actions *)

Inductive Tid := Caller | Wk (i : nat).

Inductive Mutex := M_wait | M_terminate | M_search | M_worker (i : nat).
Inductive Event := E_search | E_terminate.
Inductive EngineFn := F_solution | F_idle | F_busy | F_stop | F_terminated.

(** Commands from engine to workers ([DfsEngine::Cmd]). *)
Inductive Cmd :=
| C_WORK      (* perform work *)
| C_WAIT      (* run into wait lock *)
| C_TERMINATE (* terminate *).

Section actions.
Context `{SpaceContract}.

(** What a step of a thread does, in program order. *)
Inductive Action :=
| A_acquire (m : Mutex)
| A_release (m : Mutex)
| A_signal (e : Event)
| A_wait (e : Event)
| A_sleep (ms : Z)
| A_cmd (c : Cmd)
| A_new_worker (i : nat) (with_root : bool)
| A_thread (i : nat)
| A_init_n_not_terminated (v : Z)
| A_init_n_busy (v : Z)
| A_init_has_stopped (b : bool)
| A_call (f : EngineFn)
| A_return (r : option Space).
End actions.

(** ** The engine *)

Module DfsEngine.
Section engine.
Context `{SearchSupport}.

(** The fields of [DfsEngine].  [_m_wait] records its holder; an event
    is a flag set by [signal] and consumed by [wait].
    Modelled from the spec: [Support::Mutex], [Support::Event] and the
    FIFO [Support::DynamicQueue]. *)
Record t := {
  _opt : Options;
  _cmd : Cmd;
  _m_wait : option Tid;
  _n_not_terminated : Z;
  _e_terminate : bool;
  e_search : bool;
  solutions : list Space;
  n_busy : Z;
  has_stopped : bool
}.

Definition set_cmd (c : Cmd) (e : t) : t :=
  {| _opt := _opt e; _cmd := c; _m_wait := _m_wait e;
     _n_not_terminated := _n_not_terminated e; _e_terminate := _e_terminate e;
     e_search := e_search e; solutions := solutions e; n_busy := n_busy e;
     has_stopped := has_stopped e |}.
Definition set_m_wait (h : option Tid) (e : t) : t :=
  {| _opt := _opt e; _cmd := _cmd e; _m_wait := h;
     _n_not_terminated := _n_not_terminated e; _e_terminate := _e_terminate e;
     e_search := e_search e; solutions := solutions e; n_busy := n_busy e;
     has_stopped := has_stopped e |}.
Definition set_n_not_terminated (v : Z) (e : t) : t :=
  {| _opt := _opt e; _cmd := _cmd e; _m_wait := _m_wait e;
     _n_not_terminated := v; _e_terminate := _e_terminate e;
     e_search := e_search e; solutions := solutions e; n_busy := n_busy e;
     has_stopped := has_stopped e |}.
Definition set_e_terminate (b : bool) (e : t) : t :=
  {| _opt := _opt e; _cmd := _cmd e; _m_wait := _m_wait e;
     _n_not_terminated := _n_not_terminated e; _e_terminate := b;
     e_search := e_search e; solutions := solutions e; n_busy := n_busy e;
     has_stopped := has_stopped e |}.
Definition set_e_search (b : bool) (e : t) : t :=
  {| _opt := _opt e; _cmd := _cmd e; _m_wait := _m_wait e;
     _n_not_terminated := _n_not_terminated e; _e_terminate := _e_terminate e;
     e_search := b; solutions := solutions e; n_busy := n_busy e;
     has_stopped := has_stopped e |}.
Definition set_solutions (q : list Space) (e : t) : t :=
  {| _opt := _opt e; _cmd := _cmd e; _m_wait := _m_wait e;
     _n_not_terminated := _n_not_terminated e; _e_terminate := _e_terminate e;
     e_search := e_search e; solutions := q; n_busy := n_busy e;
     has_stopped := has_stopped e |}.
Definition set_n_busy (v : Z) (e : t) : t :=
  {| _opt := _opt e; _cmd := _cmd e; _m_wait := _m_wait e;
     _n_not_terminated := _n_not_terminated e; _e_terminate := _e_terminate e;
     e_search := e_search e; solutions := solutions e; n_busy := v;
     has_stopped := has_stopped e |}.
Definition set_has_stopped (b : bool) (e : t) : t :=
  {| _opt := _opt e; _cmd := _cmd e; _m_wait := _m_wait e;
     _n_not_terminated := _n_not_terminated e; _e_terminate := _e_terminate e;
     e_search := e_search e; solutions := solutions e; n_busy := n_busy e;
     has_stopped := b |}.

(** [opt()] and [workers()]. *)
Definition opt (e : t) : Options := _opt e.
Definition workers (e : t) : nat := Z.to_nat (threads (opt e)).

(** [cmd()]. *)
Definition cmd (e : t) : Cmd := _cmd e.

(** [e.signal()] on an event: raise the flag. *)
Definition raise (ev : Event) (e : t) : t :=
  match ev with
  | E_search => set_e_search true e
  | E_terminate => set_e_terminate true e
  end.

(** [terminated()]: under [_m_terminate]. *)
Definition terminated (e : t) : list Action * t :=
  let n := u32 (_n_not_terminated e - 1) in
  let e1 := set_n_not_terminated n e in
  if n =? 0
  then ([A_call F_terminated; A_acquire M_terminate; A_signal E_terminate;
         A_release M_terminate], raise E_terminate e1)
  else ([A_call F_terminated; A_acquire M_terminate; A_release M_terminate], e1).

(** [signal()]: whether search state changed such that signal is needed. *)
Definition signal (e : t) : bool :=
  match solutions e with [] => true | _ :: _ => false end
  && (0 <? n_busy e) && negb (has_stopped e).

(** [solution(s)]: under [m_search]. *)
Definition solution (s : Space) (e : t) : list Action * t :=
  let bs := signal e in
  let e1 := set_solutions (solutions e ++ [s]) e in
  if bs
  then ([A_call F_solution; A_acquire M_search; A_signal E_search;
         A_release M_search], raise E_search e1)
  else ([A_call F_solution; A_acquire M_search; A_release M_search], e1).

(** [idle()]: under [m_search]. *)
Definition idle (e : t) : list Action * t :=
  let bs := signal e in
  let e1 := set_n_busy (u32 (n_busy e - 1)) e in
  if bs && (n_busy e1 =? 0)
  then ([A_call F_idle; A_acquire M_search; A_signal E_search;
         A_release M_search], raise E_search e1)
  else ([A_call F_idle; A_acquire M_search; A_release M_search], e1).

(** [busy()]: under [m_search]; [None] when [assert(n_busy > 0)] fails. *)
Definition busy (e : t) : option (list Action * t) :=
  if 0 <? n_busy e
  then Some ([A_call F_busy; A_acquire M_search; A_release M_search],
             set_n_busy (u32 (n_busy e + 1)) e)
  else None.

(** [stop()]: under [m_search]. *)
Definition stop (e : t) : list Action * t :=
  let bs := signal e in
  let e1 := set_has_stopped true e in
  if bs
  then ([A_call F_stop; A_acquire M_search; A_signal E_search;
         A_release M_search], raise E_search e1)
  else ([A_call F_stop; A_acquire M_search; A_release M_search], e1).

(** What a critical section of [next()] decides. *)
Inductive Decision :=
| D_return (r : option Space)   (* leave with this result *)
| D_search.                     (* (keep) waiting for workers *)

(** [next()], lines 269-281: the test on entry. *)
Definition next_entry (e : t) : Decision * t :=
  match solutions e with
  | s :: q => (D_return (Some s), set_solutions q e)
  | [] =>
      if (n_busy e =? 0) || has_stopped e
      then (D_return None, e)
      else (D_search, e)
  end.

(** [next()], lines 295-313: the test after [e_search.wait()]. *)
Definition next_check (e : t) : Decision * t :=
  match solutions e with
  | s :: q => (D_return (Some s), set_solutions q e)
  | [] =>
      if (n_busy e =? NULL) || has_stopped e
      then (D_return None, e)
      else (D_search, e)
  end.

(** [statistics()]. *)
Definition statistics (e : t) : Statistics :=
  let s := Statistics_init in
  s.

(** [stopped()]. *)
Definition stopped (e : t) : bool := has_stopped e.

(** The engine object when the constructor body is entered: [_opt] and
    the member objects are constructed, the scalar fields hold whatever
    the memory held. *)
Definition raw (o : Options) (g_cmd : Cmd) (g_not_terminated g_busy : Z)
    (g_stopped : bool) : t :=
  {| _opt := o; _cmd := g_cmd; _m_wait := None;
     _n_not_terminated := g_not_terminated; _e_terminate := false;
     e_search := false; solutions := []; n_busy := g_busy;
     has_stopped := g_stopped |}.

(** The worker-side reports that may wake the engine's thread. *)
Inductive Report :=
| R_solution (s : Space)
| R_stop
| R_idle.

Definition report (r : Report) (e : t) : list Action * t :=
  match r with
  | R_solution s => solution s e
  | R_stop => stop e
  | R_idle => idle e
  end.
End engine.
End DfsEngine.

(** ** The worker *)

Module DfsWorker.
Section worker.
Context `{SearchSupport}.

(** The fields of [DfsWorker]; [base] is the [Worker] base object.  The
    mutex [m] guards all of them: each section it protects is one step. *)
Record t := {
  base : Statistics;
  path : Path;
  cur : option Space;
  d : Z;
  idle : bool
}.

(** [DfsWorker(s, sz, e)]; [s = None] is the null pointer. *)
Definition new (s : option Space) (sz : Z) (o : Options) : t :=
  let b0 := Worker_new sz in
  match s with
  | Some s0 =>
      let '(ss, s1) := status s0 in
      let c := match ss with
               | SS_FAILED => None
               | _ => Some (snapshot s1 o)
               end in
      let b1 := match c with None => incr_fail b0 | Some _ => b0 end in
      {| base := Worker_current c
                   (Worker_current None (Worker_current (Some s1) b1));
         path := path_new; cur := c; d := 0; idle := false |}
  | None =>
      {| base := Worker_current None
                   (Worker_current None (Worker_current None b0));
         path := path_new; cur := None; d := 0; idle := false |}
  end.

(** How one pass through [case DfsEngine::C_WORK] of [run()] leaves the
    section guarded by [m]. *)
Inductive Outcome :=
| O_loop                  (* back to the head of the loop *)
| O_find                  (* [find()] *)
| O_stop                  (* [engine.stop()] *)
| O_solution (s : Space)  (* [engine.solution(s)] *)
| O_idle.                 (* [engine.idle()], then reacquire [m] *)

(** [run()], lines 445-512, from [m.acquire()] to the first
    [m.release()].  [start()] only records a time stamp. *)
Definition work (o : Options) (w : t) : t * Outcome :=
  if idle w then (w, O_find)
  else
    match cur w with
    | Some c =>
        if Worker_stop (base w) (stop o) (path_size (path w))
        then (w, O_stop)
        else
          let b1 := incr_node (base w) in
          let '(ss, c1) := status c in
          match ss with
          | SS_FAILED =>
              ({| base := Worker_current None (incr_fail b1); path := path w;
                  cur := None; d := d w; idle := idle w |}, O_loop)
          | SS_SOLVED =>
              let '(_, c2) := description c1 in
              let s := clone false c2 in
              ({| base := Worker_current None b1; path := path w;
                  cur := None; d := d w; idle := idle w |}, O_solution s)
          | SS_BRANCH =>
              let '(c', d') :=
                if (d w =? 0) || (c_d o <=? d w)
                then (Some (clone true c1), 1)
                else (None, u32 (d w + 1)) in
              let '(desc, c2, p', b2) := path_push b1 (path w) c1 c' in
              ({| base := Worker_push c' desc b2; path := p';
                  cur := Some (commit c2 desc 0); d := d'; idle := idle w |},
               O_loop)
          end
    | None =>
        let '(more, p', b1) := path_next (base w) (path w) in
        if more
        then
          let '(c, d', p'', b2) := path_recompute p' (d w) (a_d o) b1 in
          ({| base := Worker_current (Some c) b2; path := p'';
              cur := Some c; d := d'; idle := idle w |}, O_loop)
        else
          ({| base := b1; path := p'; cur := cur w; d := d w; idle := true |},
           O_idle)
    end.

(** [run()], lines 506-511: after [engine.idle()]. *)
Definition reacquire (w : t) : t :=
  {| base := Worker_current (cur w) (base w); path := path w; cur := cur w;
     d := d w; idle := idle w |}.

(** [steal()], lines 396-398, on the victim [v]: the section under the
    victim's [m]. *)
Definition steal (v : t) : option Space * t :=
  let '(s, p') := path_steal (path v) in
  (s, {| base := base v; path := p'; cur := cur v; d := d v; idle := idle v |}).

(** [find()], lines 414-417: adopt the stolen space. *)
Definition take (s : Space) (w : t) : t :=
  {| base := base w; path := path w; cur := Some s; d := d w; idle := false |}.

(** [statistics()]. *)
Definition statistics (w : t) : Statistics :=
  let s := base w in
  add_memory (path_size (path w)) s.
End worker.
End DfsWorker.

(** ** The threads and their interleaving *)

Section system.
Context `{SearchSupport}.

(** Where [block()] returns to. *)
Inductive AfterBlock :=
| B_ctor                         (* the constructor, line 253 *)
| B_return (r : option Space).   (* [next()], lines 302 and 310 *)

(** Where [release(c)] returns to. *)
Inductive AfterRelease :=
| R_next    (* [next()], line 283 *)
| R_dtor.   (* the destructor, line 337 *)

(** Program counter of the thread that owns the engine. *)
Inductive CPc :=
| C_new (s : Space) (sz : Z)     (* constructor, lines 245-251 *)
| C_block_cmd (k : AfterBlock)   (* [block()], line 84 *)
| C_block_acquire (k : AfterBlock)            (* [block()], line 85 *)
| C_threads (i : nat)            (* constructor, lines 257-258 *)
| C_init                         (* constructor, lines 260-263 *)
| C_ready                        (* between two calls *)
| C_release_cmd (c : Cmd) (k : AfterRelease)  (* [release(c)], line 89 *)
| C_release_unlock (k : AfterRelease)         (* [release(c)], line 90 *)
| C_wait                         (* [next()], line 293 *)
| C_check                        (* [next()], lines 295-313 *)
| C_join                         (* destructor, line 339 *)
| C_dead.                        (* destructor, lines 341-342 done *)

(** Program counter of a worker thread. *)
Inductive WPc :=
| W_unstarted                    (* thread not yet created *)
| W_head                         (* [run()], line 430 *)
| W_wait_acquire                 (* [engine.wait()], first half of line 94 *)
| W_wait_release                 (* [engine.wait()], second half of line 94 *)
| W_terminate                    (* [run()], line 440 *)
| W_exit                         (* [run()] has returned *)
| W_work                         (* [run()], line 445 *)
| W_stop                         (* [run()], line 455 *)
| W_solution (s : Space)         (* [run()], line 476 *)
| W_idle                         (* [run()], line 505 *)
| W_reacquire                    (* [run()], lines 506-511 *)
| W_find (i : nat)               (* [find()], lines 407-408, and line 394 *)
| W_steal (i : nat)              (* [steal()] on worker i, lines 396-398 *)
| W_busy (s : Space)             (* [steal()], line 401 *)
| W_take (s : Space)             (* [find()], lines 414-418 *)
| W_sleep.                       (* [find()], line 422 *)

Record State := {
  engine : DfsEngine.t;
  worker : list (WPc * DfsWorker.t);
  cpc : CPc;
  trace : list (Tid * Action)
}.

(** A scheduling choice: let the engine's thread continue, let it call
    [next()] or the destructor when it is between calls, or let worker
    [i] take a step. *)
Inductive Label := L_caller | L_next | L_delete | L_worker (i : nat).

Inductive Result :=
| Disabled          (* the thread cannot take this step now *)
| Abort             (* an assertion failed or an array was overrun *)
| Ok (st : State).

Definition tagged (t : Tid) (acts : list Action) : list (Tid * Action) :=
  map (pair t) acts.

Definition caller_goto (pc : CPc) (e : DfsEngine.t) (acts : list Action)
    (st : State) : Result :=
  Ok {| engine := e; worker := worker st; cpc := pc;
        trace := trace st ++ tagged Caller acts |}.

Definition after_block (k : AfterBlock) : CPc * list Action :=
  match k with
  | B_ctor => (C_threads 0, [])
  | B_return r => (C_ready, [A_return r])
  end.

Definition after_release (k : AfterRelease) : CPc :=
  match k with
  | R_next => C_wait
  | R_dtor => C_join
  end.

Definition start_thread (pw : WPc * DfsWorker.t) : WPc * DfsWorker.t :=
  (W_head, snd pw).

Definition caller_step (l : Label) (st : State) : Result :=
  let e := engine st in
  match cpc st, l with
  | C_new s sz, L_caller =>
      (* lines 245-251; with no worker, [_worker[0]] is outside the array *)
      if 1 <=? threads (DfsEngine.opt e)
      then
        let n := DfsEngine.workers e in
        Ok {| engine := e;
              worker :=
                (W_unstarted, DfsWorker.new (Some s) sz (DfsEngine.opt e))
                :: replicate (n - 1)
                     (W_unstarted, DfsWorker.new None sz (DfsEngine.opt e));
              cpc := C_block_cmd B_ctor;
              trace := trace st ++
                tagged Caller (A_new_worker 0 true
                   :: map (fun i => A_new_worker i false) (seq 1 (n - 1))) |}
      else Abort
  | C_block_cmd k, L_caller =>
      (* [_cmd = C_WAIT] *)
      caller_goto (C_block_acquire k) (DfsEngine.set_cmd C_WAIT e)
        [A_cmd C_WAIT] st
  | C_block_acquire k, L_caller =>
      (* [_m_wait.acquire()], then back to the caller of [block()] *)
      match DfsEngine._m_wait e with
      | None =>
          caller_goto (fst (after_block k))
            (DfsEngine.set_m_wait (Some Caller) e)
            (A_acquire M_wait :: snd (after_block k)) st
      | Some _ => Disabled
      end
  | C_threads i, L_caller =>
      (* [new (&_thread[i]) Support::Thread(_worker[i])] *)
      match worker st !! i with
      | Some pw =>
          Ok {| engine := e;
                worker := <[i := start_thread pw]> (worker st);
                cpc := if (S i <? DfsEngine.workers e)%nat
                       then C_threads (S i) else C_init;
                trace := trace st ++ tagged Caller [A_thread i] |}
      | None => Abort
      end
  | C_init, L_caller =>
      (* lines 260-263 *)
      let n := Z.of_nat (DfsEngine.workers e) in
      caller_goto C_ready
        (DfsEngine.set_has_stopped false
           (DfsEngine.set_n_busy n (DfsEngine.set_n_not_terminated n e)))
        [A_init_n_not_terminated n; A_init_n_busy n; A_init_has_stopped false]
        st
  | C_ready, L_next =>
      (* [next()], lines 269-281, then [release(C_WORK)] *)
      match DfsEngine.next_entry e with
      | (DfsEngine.D_return r, e') =>
          caller_goto C_ready e'
            [A_acquire M_search; A_release M_search; A_return r] st
      | (DfsEngine.D_search, e') =>
          caller_goto (C_release_cmd C_WORK R_next) e'
            [A_acquire M_search; A_release M_search] st
      end
  | C_ready, L_delete =>
      (* the destructor: [release(C_TERMINATE)], its first statement *)
      caller_goto (C_release_unlock R_dtor) (DfsEngine.set_cmd C_TERMINATE e)
        [A_cmd C_TERMINATE] st
  | C_release_cmd c k, L_caller =>
      (* [_cmd = c] *)
      caller_goto (C_release_unlock k) (DfsEngine.set_cmd c e) [A_cmd c] st
  | C_release_unlock k, L_caller =>
      (* [_m_wait.release()], then back to the caller of [release()] *)
      caller_goto (after_release k) (DfsEngine.set_m_wait None e)
        [A_release M_wait] st
  | C_wait, L_caller =>
      (* [e_search.wait()] *)
      if DfsEngine.e_search e
      then caller_goto C_check (DfsEngine.set_e_search false e)
             [A_wait E_search] st
      else Disabled
  | C_check, L_caller =>
      (* [next()], lines 295-313, then [block()] or once more around *)
      match DfsEngine.next_check e with
      | (DfsEngine.D_return r, e') =>
          caller_goto (C_block_cmd (B_return r)) e'
            [A_acquire M_search; A_release M_search] st
      | (DfsEngine.D_search, e') =>
          caller_goto C_wait e' [A_acquire M_search; A_release M_search] st
      end
  | C_join, L_caller =>
      (* [_e_terminate.wait()] *)
      if DfsEngine._e_terminate e
      then caller_goto C_dead (DfsEngine.set_e_terminate false e)
             [A_wait E_terminate] st
      else Disabled
  | _, _ => Disabled
  end.

Definition worker_goto (i : nat) (pc : WPc) (w : DfsWorker.t)
    (e : DfsEngine.t) (acts : list Action) (st : State) : Result :=
  Ok {| engine := e; worker := <[i := (pc, w)]> (worker st); cpc := cpc st;
        trace := trace st ++ tagged (Wk i) acts |}.

Definition after_work (o : DfsWorker.Outcome) : WPc :=
  match o with
  | DfsWorker.O_loop => W_head
  | DfsWorker.O_find => W_find 0
  | DfsWorker.O_stop => W_stop
  | DfsWorker.O_solution s => W_solution s
  | DfsWorker.O_idle => W_idle
  end.

Definition worker_step (i : nat) (st : State) : Result :=
  let e := engine st in
  match worker st !! i with
  | None => Disabled
  | Some (pc, w) =>
      match pc with
      | W_unstarted | W_exit => Disabled
      | W_head =>
          (* [switch (engine.cmd())] *)
          match DfsEngine.cmd e with
          | C_WAIT => worker_goto i W_wait_acquire w e [] st
          | C_TERMINATE => worker_goto i W_terminate w e [] st
          | C_WORK => worker_goto i W_work w e [] st
          end
      | W_wait_acquire =>
          match DfsEngine._m_wait e with
          | None =>
              worker_goto i W_wait_release w
                (DfsEngine.set_m_wait (Some (Wk i)) e) [A_acquire M_wait] st
          | Some _ => Disabled
          end
      | W_wait_release =>
          worker_goto i W_head w (DfsEngine.set_m_wait None e)
            [A_release M_wait] st
      | W_terminate =>
          let '(acts, e') := DfsEngine.terminated e in
          worker_goto i W_exit w e' acts st
      | W_work =>
          let '(w', o) := DfsWorker.work (DfsEngine.opt e) w in
          worker_goto i (after_work o) w' e
            [A_acquire (M_worker i); A_release (M_worker i)] st
      | W_stop =>
          let '(acts, e') := DfsEngine.stop e in
          worker_goto i W_head w e' acts st
      | W_solution s =>
          let '(acts, e') := DfsEngine.solution s e in
          worker_goto i W_head w e' acts st
      | W_idle =>
          let '(acts, e') := DfsEngine.idle e in
          worker_goto i W_reacquire w e' acts st
      | W_reacquire =>
          worker_goto i W_head (DfsWorker.reacquire w) e
            [A_acquire (M_worker i); A_release (M_worker i)] st
      | W_find j =>
          (* the loop test, [engine.worker(j) != this], and the unlocked
             test of [idle] that opens [steal()] on worker [j] *)
          if (j <? DfsEngine.workers e)%nat
          then
            if (j =? i)%nat then worker_goto i (W_find (S j)) w e [] st
            else
              match worker st !! j with
              | Some (_, v) =>
                  if DfsWorker.idle v
                  then worker_goto i (W_find (S j)) w e [] st
                  else worker_goto i (W_steal j) w e [] st
              | None => Abort
              end
          else worker_goto i W_sleep w e [] st
      | W_steal j =>
          (* [steal()] on worker [j], under its [m]; never called on
             the worker itself *)
          if (j =? i)%nat then Disabled
          else
            match worker st !! j with
            | Some (pcj, v) =>
                let '(r, v') := DfsWorker.steal v in
                Ok {| engine := e;
                      worker :=
                        <[i := (match r with
                                | Some s => W_busy s
                                | None => W_find (S j)
                                end, w)]> (<[j := (pcj, v')]> (worker st));
                      cpc := cpc st;
                      trace := trace st ++
                        tagged (Wk i)
                          [A_acquire (M_worker j); A_release (M_worker j)] |}
            | None => Abort
            end
      | W_busy s =>
          (* [engine.busy()], still inside [steal()] *)
          match DfsEngine.busy e with
          | Some (acts, e') => worker_goto i (W_take s) w e' acts st
          | None => Abort
          end
      | W_take s =>
          worker_goto i W_sleep (DfsWorker.take s w) e
            [A_acquire (M_worker i); A_release (M_worker i)] st
      | W_sleep => worker_goto i W_head w e [A_sleep 10] st
      end
  end.

Definition step (l : Label) (st : State) : Result :=
  match l with
  | L_worker i => worker_step i st
  | _ => caller_step l st
  end.

(** Run a schedule; [None] when a chosen step is disabled or aborts. *)
Fixpoint run (ls : list Label) (st : State) : option State :=
  match ls with
  | [] => Some st
  | l :: ls' =>
      match step l st with
      | Ok st' => run ls' st'
      | _ => None
      end
  end.

(** The state in which the constructor [DfsEngine(s, sz, o)] starts. *)
Definition init (s : Space) (sz : Z) (o : Options) (g_cmd : Cmd)
    (g_not_terminated g_busy : Z) (g_stopped : bool) : State :=
  {| engine := DfsEngine.raw o g_cmd g_not_terminated g_busy g_stopped;
     worker := []; cpc := C_new s sz; trace := [] |}.

Definition initial (st : State) : Prop :=
  exists s sz o g_cmd g_nt g_busy g_stopped,
    0 <= threads o < UINT_RANGE /\
    st = init s sz o g_cmd g_nt g_busy g_stopped.

Inductive reachable : State -> Prop :=
| reachable_init st : initial st -> reachable st
| reachable_step l st st' :
    reachable st -> step l st = Ok st' -> reachable st'.

(** ** Observations on a state *)

Definition wpc (st : State) (i : nat) : option WPc := fst <$> worker st !! i.
Definition wobj (st : State) (i : nat) : option DfsWorker.t :=
  snd <$> worker st !! i.

(** The actions of one thread, in order. *)
Definition actions_of (t : Tid) (tr : list (Tid * Action)) : list Action :=
  omap (fun x => match fst x, t with
                 | Caller, Caller => Some (snd x)
                 | Wk i, Wk j => if (i =? j)%nat then Some (snd x) else None
                 | _, _ => None
                 end) tr.

(** The results of the calls to [next()] that have returned, in order. *)
Definition returns (tr : list (Tid * Action)) : list (option Space) :=
  omap (fun x => match snd x with A_return r => Some r | _ => None end) tr.

(** How often an engine function has been called. *)
Definition is_call (f : EngineFn) (x : Tid * Action) : bool :=
  match snd x, f with
  | A_call F_solution, F_solution | A_call F_idle, F_idle
  | A_call F_busy, F_busy | A_call F_stop, F_stop
  | A_call F_terminated, F_terminated => true
  | _, _ => false
  end.
Definition calls (f : EngineFn) (tr : list (Tid * Action)) : nat :=
  length (List.filter (is_call f) tr).

(** The sum of the workers' [statistics()]. *)
Definition add_statistics (a b : Statistics) : Statistics :=
  {| node := node a + node b; fail := fail a + fail b;
     memory := memory a + memory b |}.
Definition sum_statistics (st : State) : Statistics :=
  foldr (fun x acc => add_statistics (DfsWorker.statistics (snd x)) acc)
        Statistics_init (worker st).

(** What the constructor does, in order, for [n] workers. *)
Definition constructor_actions (n : nat) : list Action :=
  (A_new_worker 0 true :: map (fun i => A_new_worker i false) (seq 1 (n - 1))) ++
  [A_cmd C_WAIT; A_acquire M_wait] ++
  map A_thread (seq 0 n) ++
  [A_init_n_not_terminated (Z.of_nat n); A_init_n_busy (Z.of_nat n);
   A_init_has_stopped false].

(** The state the constructor leaves when no worker has run yet. *)
Definition constructed (s : Space) (sz : Z) (o : Options) : State :=
  let n := Z.to_nat (threads o) in
  {| engine :=
       {| DfsEngine._opt := o; DfsEngine._cmd := C_WAIT;
          DfsEngine._m_wait := Some Caller;
          DfsEngine._n_not_terminated := Z.of_nat n;
          DfsEngine._e_terminate := false; DfsEngine.e_search := false;
          DfsEngine.solutions := []; DfsEngine.n_busy := Z.of_nat n;
          DfsEngine.has_stopped := false |};
     worker := (W_head, DfsWorker.new (Some s) sz o)
               :: replicate (n - 1) (W_head, DfsWorker.new None sz o);
     cpc := C_ready;
     trace := tagged Caller (constructor_actions n) |}.
End system.

(** ** A concrete space and path

    A toy space that is a node of an explicit search tree, and the path of
    section 4.1 of the specification over it. *)

Module Toy.

#[warnings="-register-all"]
Inductive Tree := Failed | Solved | Branch (kids : list Tree).

Definition tree_status (s : Tree) : SpaceStatus :=
  match s with
  | Failed => SS_FAILED
  | Solved => SS_SOLVED
  | Branch _ => SS_BRANCH
  end.

Definition tree_description (s : Tree) : list Tree :=
  match s with
  | Branch ks => ks
  | _ => []
  end.

#[export] Instance space : SpaceContract := {|
  Space := Tree;
  BranchingDesc := list Tree;
  status s := (tree_status s, s);
  description s := (tree_description s, s);
  clone _ s := s;
  commit _ desc a := nth (Z.to_nat a) desc Failed
|}.

(** Modelled from the spec: a path frame. *)
Record Frame := {
  desc : list Tree;
  snap : option Tree;
  next_alt : Z;
  steal_alt : Z
}.

Definition alternatives (f : Frame) : Z := Z.of_nat (length (desc f)).

(** Modelled from the spec: [push] appends the frame
    [{desc, snapshot, next_alt = 1, steal_alt = 1}]; the top of the path is
    the head of the list. *)
Definition push (b : Statistics) (p : list Frame) (c : Tree) (s : option Tree)
    : list Tree * Tree * list Frame * Statistics :=
  let '(k, c') := description c in
  (k, c', {| desc := k; snap := s; next_alt := 1; steal_alt := 1 |} :: p, b).

(** Modelled from the spec: [next] pops frames until one with
    [next_alt < alternatives] is found. *)
Fixpoint next (b : Statistics) (p : list Frame) : bool * list Frame * Statistics :=
  match p with
  | [] => (false, [], b)
  | f :: below =>
      if next_alt f <? alternatives f then (true, p, b) else next b below
  end.

(** Modelled from the spec: the space at the top frame of [p], from the
    nearest snapshot and the committed alternatives ([next_alt - 1]) of the
    frames between. *)
Fixpoint rebuild (p : list Frame) : option Tree :=
  match p with
  | [] => None
  | f :: below =>
      match snap f with
      | Some s => Some (clone true s)
      | None =>
          match below with
          | [] => None
          | g :: _ =>
              (fun s => commit s (desc g) (next_alt g - 1)) <$> rebuild below
          end
      end
  end.

(** Distance from the top of [p] to the nearest snapshot. *)
Fixpoint span (p : list Frame) : nat :=
  match p with
  | [] => 0
  | f :: below => match snap f with Some _ => 0 | None => S (span below) end
  end.

(** Modelled from the spec: [recompute]; past the distance [a_d] the
    intermediate space is stored as a snapshot on its frame. *)
Definition recompute (p : list Frame) (d a_d : Z) (b : Statistics)
    : Tree * Z * list Frame * Statistics :=
  let n := span p in
  let k := (n - Z.to_nat a_d)%nat in
  let p' :=
    if (a_d <? Z.of_nat n)
    then match p !! k with
         | Some f =>
             <[k := {| desc := desc f; snap := rebuild (drop k p);
                       next_alt := next_alt f; steal_alt := steal_alt f |}]> p
         | None => p
         end
    else p in
  (default Failed (rebuild p), 0, p', b).

(** Modelled from the spec: [steal] serves the bottom frame with
    [steal_alt < alternatives], commits alternative [steal_alt] on the
    space rebuilt at that frame and advances [steal_alt]. *)
Fixpoint steal (p : list Frame) : option Tree * list Frame :=
  match p with
  | [] => (None, [])
  | f :: below =>
      match steal below with
      | (Some s, below') => (Some s, f :: below')
      | (None, _) =>
          if steal_alt f <? alternatives f
          then match rebuild p with
               | Some s =>
                   (Some (commit s (desc f) (steal_alt f)),
                    {| desc := desc f; snap := snap f; next_alt := next_alt f;
                       steal_alt := steal_alt f + 1 |} :: below)
               | None => (None, p)
               end
          else (None, p)
      end
  end.

#[export] Instance support : SearchSupport := {|
  Path := list Frame;
  path_new := [];
  path_push := push;
  path_next := next;
  path_recompute := recompute;
  path_steal := steal;
  path_size p := Z.of_nat (length p);
  Worker_new _ := Statistics_init;
  Worker_current _ b := b;
  Worker_push _ _ b := b;
  snapshot s _ := clone true s
|}.

End Toy.

(** ** Invariants of the reachable states *)

Section invariants.
Context `{SearchSupport}.

(** The engine's thread holds [_m_wait]. *)
Definition holds_wait_lock (st : State) : Prop :=
  DfsEngine._m_wait (engine st) = Some Caller.

(** The engine's thread is inside the constructor. *)
Definition in_ctor (pc : CPc) : Prop :=
  match pc with
  | C_new _ _ | C_block_cmd B_ctor | C_block_acquire B_ctor
  | C_threads _ | C_init => True
  | _ => False
  end.

(** The engine's thread is between the two statements of [block()] or of
    [release()], or has not yet reached the constructor's [block()]. *)
Definition inside_block_release (pc : CPc) : Prop :=
  match pc with
  | C_new _ _ | C_block_cmd B_ctor | C_block_acquire _ | C_release_unlock _ => True
  | _ => False
  end.

(** [_cmd] and [_m_wait] at each point of the engine's thread. *)
Definition lock_ok (st : State) : Prop :=
  let e := engine st in
  match cpc st with
  | C_new _ _ | C_block_cmd B_ctor => DfsEngine._m_wait e = None
  | C_block_acquire _ =>
      DfsEngine._cmd e = C_WAIT /\ DfsEngine._m_wait e <> Some Caller
  | C_threads _ | C_init | C_ready =>
      DfsEngine._cmd e = C_WAIT /\ DfsEngine._m_wait e = Some Caller
  | C_release_cmd c k =>
      DfsEngine._cmd e = C_WAIT /\ DfsEngine._m_wait e = Some Caller /\
      c = C_WORK /\ k = R_next
  | C_release_unlock R_next =>
      DfsEngine._cmd e = C_WORK /\ DfsEngine._m_wait e = Some Caller
  | C_release_unlock R_dtor =>
      DfsEngine._cmd e = C_TERMINATE /\ DfsEngine._m_wait e = Some Caller
  | C_wait | C_check | C_block_cmd (B_return _) =>
      DfsEngine._cmd e = C_WORK /\ DfsEngine._m_wait e <> Some Caller
  | C_join | C_dead =>
      DfsEngine._cmd e = C_TERMINATE /\ DfsEngine._m_wait e <> Some Caller
  end.

(** What the invariants need of a worker: where its thread is and
    whether [idle] is set. *)
Definition view_of (x : WPc * DfsWorker.t) : WPc * bool :=
  (fst x, DfsWorker.idle (snd x)).
Definition view (st : State) : list (WPc * bool) := view_of <$> worker st.

(** A worker between the two halves of [engine.wait()] holds [_m_wait]. *)
Definition wait_holder_ok (st : State) : Prop :=
  forall i b, view st !! i = Some (W_wait_release, b) ->
    DfsEngine._m_wait (engine st) = Some (Wk i).

(** The workers while the constructor runs. *)
Definition fresh_worker (x : WPc * bool) : Prop :=
  x = (W_unstarted, false).
Definition parked_worker (x : WPc * bool) : Prop :=
  x = (W_unstarted, false) \/ x = (W_head, false) \/ x = (W_wait_acquire, false).
Definition ctor_workers_ok (st : State) : Prop :=
  match cpc st with
  | C_new _ _ => view st = []
  | C_block_cmd B_ctor | C_block_acquire B_ctor => Forall fresh_worker (view st)
  | C_threads _ | C_init => Forall parked_worker (view st)
  | _ => True
  end.

Definition size_ok (st : State) : Prop :=
  0 <= threads (DfsEngine._opt (engine st)) < UINT_RANGE /\
  (match cpc st with
   | C_new _ _ => True
   | _ => length (view st) = DfsEngine.workers (engine st) /\
          1 <= threads (DfsEngine._opt (engine st))
   end).

(** Whether a worker is accounted for in [n_busy]: it is not idle, or it
    has set [idle] but not yet called [engine.idle()], or [engine.busy()]
    has been called for it but it has not yet cleared [idle]. *)
Definition counted (x : WPc * bool) : Z :=
  match fst x with
  | W_idle | W_take _ => 1
  | _ => if snd x then 0 else 1
  end.

Fixpoint busy_count (ws : list (WPc * bool)) : Z :=
  match ws with
  | [] => 0
  | x :: r => counted x + busy_count r
  end.

Definition count_ok (st : State) : Prop :=
  in_ctor (cpc st) \/ DfsEngine.n_busy (engine st) = busy_count (view st).

(** At these points of [run()] and [find()] the worker has [idle] set. *)
Definition idle_pc (pc : WPc) : Prop :=
  match pc with
  | W_idle | W_reacquire | W_find _ | W_steal _ | W_busy _ => True
  | _ => False
  end.
Definition idle_ok (st : State) : Prop :=
  Forall (fun x => idle_pc (fst x) -> snd x = true) (view st).

(** What one step of worker [i] does to its program counter, to its
    [idle] flag and to the engine. *)
Definition worker_effect (i : nat) (x x' : WPc * bool) (e e' : DfsEngine.t)
    : Prop :=
  match fst x with
  | W_unstarted | W_exit => False
  | W_head =>
      snd x' = snd x /\ e' = e /\
      ((DfsEngine._cmd e = C_WAIT /\ fst x' = W_wait_acquire) \/
       (DfsEngine._cmd e = C_TERMINATE /\ fst x' = W_terminate) \/
       (DfsEngine._cmd e = C_WORK /\ fst x' = W_work))
  | W_wait_acquire =>
      x' = (W_wait_release, snd x) /\ DfsEngine._m_wait e = None /\
      e' = DfsEngine.set_m_wait (Some (Wk i)) e
  | W_wait_release => x' = (W_head, snd x) /\ e' = DfsEngine.set_m_wait None e
  | W_terminate => x' = (W_exit, snd x) /\ e' = snd (DfsEngine.terminated e)
  | W_work =>
      e' = e /\
      ((snd x = true /\ x' = (W_find 0, true)) \/
       (snd x = false /\ snd x' = false /\
        (fst x' = W_head \/ fst x' = W_stop \/ exists s, fst x' = W_solution s)) \/
       (snd x = false /\ x' = (W_idle, true)))
  | W_stop => x' = (W_head, snd x) /\ e' = snd (DfsEngine.stop e)
  | W_solution s => x' = (W_head, snd x) /\ e' = snd (DfsEngine.solution s e)
  | W_idle => x' = (W_reacquire, snd x) /\ e' = snd (DfsEngine.idle e)
  | W_reacquire => x' = (W_head, snd x) /\ e' = e
  | W_find j =>
      snd x' = snd x /\ e' = e /\
      (fst x' = W_find (S j) \/ fst x' = W_steal j \/ fst x' = W_sleep)
  | W_steal j =>
      snd x' = snd x /\ e' = e /\
      (fst x' = W_find (S j) \/ exists s, fst x' = W_busy s)
  | W_busy s =>
      x' = (W_take s, snd x) /\ 0 < DfsEngine.n_busy e /\
      e' = DfsEngine.set_n_busy (u32 (DfsEngine.n_busy e + 1)) e
  | W_take s => x' = (W_sleep, false) /\ e' = e
  | W_sleep => x' = (W_head, snd x) /\ e' = e
  end.

(** The condition under which [next()] answers NULL on an empty queue. *)
Definition exhausted (st : State) : Prop :=
  DfsEngine.n_busy (engine st) = 0 \/ DfsEngine.has_stopped (engine st) = true.

(** [next()] has returned NULL, or is about to. *)
Definition answered_none (st : State) : Prop :=
  In None (returns (trace st)) \/
  cpc st = C_block_cmd (B_return None) \/
  cpc st = C_block_acquire (B_return None).

Definition none_ok (st : State) : Prop :=
  (in_ctor (cpc st) -> returns (trace st) = []) /\
  (answered_none st -> exhausted st).

(** The writes to [_cmd] and the operations on [_m_wait] by the engine's
    thread, in order. *)
Definition lock_actions (tr : list (Tid * Action)) : list Action :=
  omap (fun x => match x with
                 | (Caller, A_cmd c) => Some (A_cmd c)
                 | (Caller, A_acquire M_wait) => Some (A_acquire M_wait)
                 | (Caller, A_release M_wait) => Some (A_release M_wait)
                 | _ => None
                 end) tr.

(** The values the engine's thread has written to [_cmd], in order. *)
Definition cmd_writes (tr : list (Tid * Action)) : list Cmd :=
  omap (fun a => match a with A_cmd c => Some c | _ => None end)
       (lock_actions tr).

(** One round of [next()] that had to search, seen from the constructor's
    or the previous round's [block()]; and the last round, closed by the
    destructor. *)
Definition round : list Action :=
  [A_cmd C_WAIT; A_acquire M_wait; A_cmd C_WORK; A_release M_wait].
Definition final_round : list Action :=
  [A_cmd C_WAIT; A_acquire M_wait; A_cmd C_TERMINATE; A_release M_wait].
Definition rounds (k : nat) : list Action := concat (replicate k round).

(** The part of the current round done at each point of the engine's thread. *)
Definition round_prefix (pc : CPc) : list Action :=
  match pc with
  | C_new _ _ | C_block_cmd _ | C_wait | C_check => []
  | C_block_acquire _ => take 1 round
  | C_threads _ | C_init | C_ready | C_release_cmd _ _ => take 2 round
  | C_release_unlock R_next => take 3 round
  | C_release_unlock R_dtor => take 3 final_round
  | C_join | C_dead => final_round
  end.

Definition lock_trace_ok (st : State) : Prop :=
  exists k, lock_actions (trace st) = rounds k ++ round_prefix (cpc st).

(** The part of the constructor done at each point of the engine's
    thread, for [n] workers. *)
Definition constructor_done (n : nat) (pc : CPc) : list Action :=
  let news :=
    A_new_worker 0 true :: map (fun i => A_new_worker i false) (seq 1 (n - 1)) in
  match pc with
  | C_new _ _ => []
  | C_block_cmd B_ctor => news
  | C_block_acquire B_ctor => news ++ [A_cmd C_WAIT]
  | C_threads i =>
      news ++ [A_cmd C_WAIT; A_acquire M_wait] ++ map A_thread (seq 0 i)
  | C_init =>
      news ++ [A_cmd C_WAIT; A_acquire M_wait] ++ map A_thread (seq 0 n)
  | _ => constructor_actions n
  end.

(** The engine's thread has done exactly that part while it is in the
    constructor, and all of it afterwards. *)
Definition ctor_trace_ok (st : State) : Prop :=
  let n := DfsEngine.workers (engine st) in
  exists rest,
    actions_of Caller (trace st) = constructor_done n (cpc st) ++ rest /\
    (in_ctor (cpc st) -> rest = []) /\
    (forall i, cpc st = C_threads i -> (i < n)%nat).

Record Inv (st : State) : Prop := {
  inv_lock : lock_ok st;
  inv_holder : wait_holder_ok st;
  inv_ctor : ctor_workers_ok st;
  inv_size : size_ok st;
  inv_count : count_ok st;
  inv_idle : idle_ok st;
  inv_none : none_ok st;
  inv_trace : lock_trace_ok st
}.

(** The writes to [_cmd] alternate WAIT, WORK, WAIT, WORK, ... and end
    with TERMINATE once the destructor has run. *)
Fixpoint alternation (k : nat) : list Cmd :=
  match k with
  | O => []
  | S k' => C_WAIT :: C_WORK :: alternation k'
  end.
Definition cmd_order (l : list Cmd) : Prop :=
  exists k tl, l = alternation k ++ tl /\
    (tl = [] \/ tl = [C_WAIT] \/ tl = [C_WAIT; C_TERMINATE]).

(** The points of [find()]. *)
Definition in_find (pc : WPc) : Prop :=
  match pc with
  | W_find _ | W_steal _ | W_busy _ | W_take _ | W_sleep => True
  | _ => False
  end.
End invariants.

(** ** Further observations and invariants *)

Section observations.
Context `{SearchSupport}.

(** The engine's thread is inside the destructor and has written
    TERMINATE to [_cmd]. *)
Definition in_dtor (pc : CPc) : Prop :=
  match pc with
  | C_release_unlock R_dtor | C_join | C_dead => True
  | _ => False
  end.

(** The solutions among the results of [next()]. *)
Definition somes (l : list (option Space)) : list Space := omap id l.

(** The solution that [next()] has popped and returns after [block()]. *)
Definition pending (pc : CPc) : list Space :=
  match pc with
  | C_block_cmd (B_return (Some s)) | C_block_acquire (B_return (Some s)) => [s]
  | _ => []
  end.

(** The space that a step hands to [engine.solution()]. *)
Definition reports (l : Label) (st : State) : list Space :=
  match l with
  | L_worker i =>
      match worker st !! i with
      | Some (W_solution s, _) => [s]
      | _ => []
      end
  | _ => []
  end.

(** The spaces handed to [engine.solution()] along a schedule, in order. *)
Fixpoint reported (ls : list Label) (st : State) : list Space :=
  match ls with
  | [] => []
  | l :: ls' =>
      match step l st with
      | Ok st' => reports l st ++ reported ls' st'
      | _ => []
      end
  end.

(** The solutions that have left the workers: returned by [next()],
    popped by it, or still in the queue. *)
Definition handed (st : State) : list Space :=
  somes (returns (trace st)) ++ pending (cpc st) ++
  DfsEngine.solutions (engine st).

(** What [run()], lines 467-476, hands to [engine.solution()]: a clone
    of a space whose [status] was SS_SOLVED. *)
Definition solved_clone (s : Space) : Prop :=
  exists c c1 c2 bd,
    status c = (SS_SOLVED, c1) /\ description c1 = (bd, c2) /\
    s = clone false c2.

(** What holds of each worker object at each point of its thread. *)
Definition worker_ok (st : State) : Prop :=
  forall i pc w, worker st !! i = Some (pc, w) ->
    (DfsWorker.idle w = true -> DfsWorker.cur w = None) /\
    match pc with
    | W_stop =>
        DfsWorker.idle w = false /\ stop (DfsEngine._opt (engine st)) <> None
    | W_solution s => DfsWorker.idle w = false /\ solved_clone s
    | W_steal j => (j < length (worker st))%nat /\ j <> i
    | _ => True
    end.

(** Whether a worker's thread is still inside [run()] (or yet to enter). *)
Definition live (x : WPc * bool) : Z :=
  match fst x with
  | W_exit => 0
  | _ => 1
  end.

Fixpoint live_count (ws : list (WPc * bool)) : Z :=
  match ws with
  | [] => 0
  | x :: r => live x + live_count r
  end.

(** Which threads have been started at each point of the constructor,
    and where the workers can be outside the destructor. *)
Definition phase_ok (st : State) : Prop :=
  forall i x, view st !! i = Some x ->
    match cpc st with
    | C_threads k => fst x = W_unstarted <-> (k <= i)%nat
    | C_new _ _ | C_block_cmd B_ctor | C_block_acquire B_ctor => True
    | _ => fst x <> W_unstarted
    end /\
    (fst x = W_terminate \/ fst x = W_exit -> in_dtor (cpc st)).

(** A worker that holds [_m_wait] is between the two halves of
    [engine.wait()]. *)
Definition holder_ok (st : State) : Prop :=
  forall i, DfsEngine._m_wait (engine st) = Some (Wk i) ->
    exists b, view st !! i = Some (W_wait_release, b).

(** [_n_not_terminated] and [_e_terminate] once the constructor is done. *)
Definition term_ok (st : State) : Prop :=
  let e := engine st in
  (in_ctor (cpc st) -> DfsEngine._e_terminate e = false) /\
  (~ in_ctor (cpc st) ->
   DfsEngine._n_not_terminated e = live_count (view st) /\
   match cpc st with
   | C_dead => live_count (view st) = 0
   | _ => DfsEngine._e_terminate e = true <-> live_count (view st) = 0
   end).

(** While [next()] waits, or is about to wait, for [e_search], the event
    is signalled unless the search is still going on. *)
Definition wake_ok (st : State) : Prop :=
  match cpc st with
  | C_release_cmd _ R_next | C_release_unlock R_next | C_wait =>
      DfsEngine.e_search (engine st) = true \/
      DfsEngine.signal (engine st) = true
  | _ => True
  end.

(** The engine function that a worker calls at a point of its thread. *)
Definition fires (pc : WPc) (f : EngineFn) : bool :=
  match pc, f with
  | W_solution _, F_solution | W_idle, F_idle | W_busy _, F_busy
  | W_stop, F_stop | W_terminate, F_terminated => true
  | _, _ => false
  end.

(** The calls of the engine's reporting functions, counted in the trace. *)
Definition calls_ok (st : State) : Prop :=
  let e := engine st in
  let n := Z.of_nat (DfsEngine.workers e) in
  (in_ctor (cpc st) -> forall f, calls f (trace st) = 0%nat) /\
  (~ in_ctor (cpc st) ->
   DfsEngine.n_busy e + Z.of_nat (calls F_idle (trace st)) =
     n + Z.of_nat (calls F_busy (trace st)) /\
   DfsEngine._n_not_terminated e + Z.of_nat (calls F_terminated (trace st)) = n /\
   (DfsEngine.has_stopped e = true <-> (0 < calls F_stop (trace st))%nat)).

(** Without a stop object no worker is stopped. *)
Definition unstopped_ok (st : State) : Prop :=
  stop (DfsEngine._opt (engine st)) = None -> ~ in_ctor (cpc st) ->
  DfsEngine.has_stopped (engine st) = false.

(** The thread that takes the step labelled [l]. *)
Definition thread_of (l : Label) : Tid :=
  match l with
  | L_worker i => Wk i
  | _ => Caller
  end.

(** The wait loop of [next()] has something to leave with: a solution is
    queued, or no worker is busy, or a stop has been reported. *)
Definition settled (st : State) : Prop :=
  DfsEngine.solutions (engine st) <> [] \/ exhausted st.





(** All threads are done: the destructor has returned and every worker
    has left [run()]. *)
Definition finished (st : State) : Prop :=
  cpc st = C_dead /\ Forall (fun pw => fst pw = W_exit) (worker st).
End observations.

(** ** Concrete runs on the toy space *)

Module Scenario.
Import Toy.

(** Memory contents found by the constructor in the runs below. *)
Definition start (root : Tree) (o : Options) : State :=
  init root 0 o C_WORK 7 7 true.

(** The constructor with [n] workers, and a first [next()] that releases
    the workers and waits. *)
Definition construct (n : nat) : list Label := replicate (n + 4) L_caller.
Definition search : list Label := [L_next; L_caller; L_caller].

(** One worker, an unsatisfiable root. *)
Definition one_worker : Options :=
  {| threads := 1; c_d := 8; a_d := 2; stop := None |}.
Definition failed_root : list Label :=
  construct 1 ++ search ++
  [L_worker 0; L_worker 0; L_worker 0] ++
  [L_caller; L_caller; L_caller; L_caller].

(** The same run, stopped while the engine's thread is inside the last
    [block()] and worker 0 has gone through [engine.wait()]'s acquire. *)
Definition passing_wait : list Label :=
  construct 1 ++ search ++
  [L_worker 0; L_worker 0; L_worker 0] ++
  [L_caller; L_caller; L_caller] ++
  [L_worker 0; L_worker 0; L_worker 0].

(** The constructor up to the creation of the threads, then a step of
    worker 0. *)
Definition threads_before_init : list Label :=
  replicate 4 L_caller ++ [L_worker 0].

(** Two workers, a root with two solved leaves, a stop after one node. *)
Definition two_leaves : Tree := Branch [Solved; Solved].
Definition two_workers : Options :=
  {| threads := 2; c_d := 8; a_d := 2;
     stop := Some (fun s _ => 1 <=? node s) |}.

(** Worker 0 explores the root; worker 1 reports idle, steals the second
    leaf from worker 0 in [find()] and adopts it. *)
Definition stolen : list Label :=
  construct 2 ++ search ++
  [L_worker 0; L_worker 0] ++
  replicate 10 (L_worker 1).

(** Then worker 1 leaves [find()]. *)
Definition stealing : list Label := stolen ++ [L_worker 1].

(** The state in which worker 1 is about to leave [find()]. *)
Definition before_sleep : State :=
  Eval vm_compute in
    default (start two_leaves two_workers)
            (run stolen (start two_leaves two_workers)).

(** The state in which worker 1 has left [find()]. *)
Definition after_sleep : State :=
  Eval vm_compute in
    default (start two_leaves two_workers)
            (run stealing (start two_leaves two_workers)).

(** Then worker 1 reads WORK; worker 0 is stopped; [next()] returns NULL;
    worker 1 reports its leaf; [next()] is called again. *)
Definition solution_after_none : list Label :=
  stealing ++ [L_worker 1] ++
  [L_worker 0; L_worker 0; L_worker 0] ++
  [L_caller; L_caller; L_caller; L_caller] ++
  [L_worker 1; L_worker 1] ++ [L_next].

(** An engine between two calls with an empty queue, [n] busy workers
    and the given stop flag; and the same inside the wait loop of
    [next()]. *)
Definition between_calls (n : Z) (stopped : bool) : State :=
  {| engine :=
       {| DfsEngine._opt := one_worker; DfsEngine._cmd := C_WAIT;
          DfsEngine._m_wait := Some Caller; DfsEngine._n_not_terminated := 1;
          DfsEngine._e_terminate := false; DfsEngine.e_search := false;
          DfsEngine.solutions := []; DfsEngine.n_busy := n;
          DfsEngine.has_stopped := stopped |};
     worker := [(W_wait_acquire, DfsWorker.new None 0 one_worker)];
     cpc := C_ready; trace := [] |}.

(** One worker, a stop predicate that always fires. *)
Definition always_stop : Options :=
  {| threads := 1; c_d := 8; a_d := 2; stop := Some (fun _ _ => true) |}.
Definition stopping_twice : list Label :=
  construct 1 ++ search ++ replicate 6 (L_worker 0).

(** The state after the run with the unsatisfiable root. *)
Definition after_failed_root : State :=
  Eval vm_compute in
    default (start Failed one_worker) (run failed_root (start Failed one_worker)).

(** A worker about to explore the root [two_leaves]. *)
Definition at_branch : DfsWorker.t :=
  {| DfsWorker.base := Statistics_init; DfsWorker.path := [];
     DfsWorker.cur := Some two_leaves; DfsWorker.d := 0;
     DfsWorker.idle := false |}.

End Scenario.

(** ** Further runs on the toy space *)

Module Runs.
Import Toy Scenario.

(** Two workers and two solved leaves: the state after the run
    [solution_after_none]. *)
Definition after_solution : State :=
  Eval vm_compute in
    default (start two_leaves two_workers)
            (run solution_after_none (start two_leaves two_workers)).

(** One worker and a solved root: [next()] has released the worker and
    waits for the search. *)
Definition waiting : State :=
  Eval vm_compute in
    default (start Solved one_worker)
            (run (construct 1 ++ search) (start Solved one_worker)).

(** The engine is constructed and the destructor is called at once; then
    the destructor releases the worker, which terminates, and returns. *)
Definition deleting : list Label := construct 1 ++ [L_delete].
Definition leaving : list Label := [L_caller; L_worker 0; L_worker 0; L_caller].

Definition in_destructor : State :=
  Eval vm_compute in
    default (start Failed one_worker) (run deleting (start Failed one_worker)).
Definition destroyed : State :=
  Eval vm_compute in
    default (start Failed one_worker)
            (run (deleting ++ leaving) (start Failed one_worker)).

(** The state after the run [stopping_twice]. *)
Definition stopped_twice : State :=
  Eval vm_compute in
    default (start Solved always_stop)
            (run stopping_twice (start Solved always_stop)).

(** No worker at all. *)
Definition no_threads : Options :=
  {| threads := 0; c_d := 8; a_d := 2; stop := None |}.


(** The constructor with one worker, stopped before it initialises the
    search state, after the worker has taken a step. *)
Definition in_constructor : State :=
  Eval vm_compute in
    default (start Failed one_worker)
            (run threads_before_init (start Failed one_worker)).
End Runs.

(** ** A path that hands out every alternative once

    On the path of [Toy] an alternative that a thief has taken is left to
    the owner of the path as well, and the owner never runs out of work.
    The path below gives every alternative of a frame to one worker
    only. *)

Module Once.

(** Modelled from the spec: a path frame; [next_alt] is the lowest
    alternative of [desc] that neither the owner of the path nor a thief
    has taken. *)
Record Frame := {
  desc : list Toy.Tree;
  next_alt : Z
}.

Definition alternatives (f : Frame) : Z := Z.of_nat (length (desc f)).

(** The space of the lowest alternative not yet taken, and the frame
    once it is taken. *)
Definition alternative (f : Frame) : Toy.Tree :=
  nth (Z.to_nat (next_alt f)) (desc f) Toy.Failed.
Definition taken (f : Frame) : Frame :=
  {| desc := desc f; next_alt := next_alt f + 1 |}.

(** Modelled from the spec: [push] appends a frame with [next_alt = 1];
    the top of the path is the head of the list. *)
Definition push (b : Statistics) (p : list Frame) (c : Toy.Tree)
    (s : option Toy.Tree) : list Toy.Tree * Toy.Tree * list Frame * Statistics :=
  (Toy.tree_description c, c,
   {| desc := Toy.tree_description c; next_alt := 1 |} :: p, b).

(** Modelled from the spec: [next] pops frames until one with
    [next_alt < alternatives] is found. *)
Fixpoint next (b : Statistics) (p : list Frame) : bool * list Frame * Statistics :=
  match p with
  | [] => (false, [], b)
  | f :: below =>
      if next_alt f <? alternatives f then (true, p, b) else next b below
  end.

(** Modelled from the spec: [recompute] returns the space of the top
    frame's next alternative, which the owner takes. *)
Definition recompute (p : list Frame) (d a_d : Z) (b : Statistics)
    : Toy.Tree * Z * list Frame * Statistics :=
  match p with
  | [] => (Toy.Failed, 0, [], b)
  | f :: below => (alternative f, 0, taken f :: below, b)
  end.

(** Modelled from the spec: [steal] serves the bottom frame that has an
    alternative left, and the thief takes the lowest one. *)
Fixpoint steal (p : list Frame) : option Toy.Tree * list Frame :=
  match p with
  | [] => (None, [])
  | f :: below =>
      match steal below with
      | (Some s, below') => (Some s, f :: below')
      | (None, _) =>
          if next_alt f <? alternatives f
          then (Some (alternative f), taken f :: below)
          else (None, p)
      end
  end.

Definition support : @SearchSupport Toy.space :=
  @Build_SearchSupport Toy.space (list Frame) [] push next recompute steal
    (fun p => Z.of_nat (length p)) (fun _ => Statistics_init)
    (fun _ b => b) (fun _ _ b => b) (fun s _ => s).

(** Two workers, no stop object, a root with a failed and a solved
    leaf. *)
Definition two_workers : Options :=
  {| threads := 2; c_d := 8; a_d := 2; stop := None |}.
Definition one_solution : Toy.Tree := Toy.Branch [Toy.Failed; Toy.Solved].
Definition start : @State Toy.space support :=
  @init Toy.space support one_solution 0 two_workers C_WORK 7 7 true.



End Once.

(** * Properties *)

Section engine_properties.
Context `{SearchSupport}.

Lemma u32_small z : 0 <= z < UINT_RANGE -> u32 z = z.
Proof. intros Hz. unfold u32. now apply Z.mod_small. Qed.

Lemma signal_spec (e : DfsEngine.t) :
  DfsEngine.signal e = true <->
  DfsEngine.solutions e = [] /\ 0 < DfsEngine.n_busy e /\
  DfsEngine.has_stopped e = false.
Proof.
  unfold DfsEngine.signal.
  destruct (DfsEngine.solutions e), (DfsEngine.has_stopped e); simpl;
    rewrite ?andb_true_r, ?andb_false_r, ?Z.ltb_lt; intuition congruence.
Qed.

(** C3: a worker's report (a solution, a stop, going idle) calls
    [e_search.signal()] only if the predicate [signal()] held on the state
    before the update, and a report of idleness only if, in addition, it
    brings [n_busy] to exactly 0. *)
Theorem signal_only_when_needed (r : DfsEngine.Report) (e : DfsEngine.t) :
  In (A_signal E_search) (fst (DfsEngine.report r e)) ->
  DfsEngine.signal e = true /\
  (r = DfsEngine.R_idle -> DfsEngine.n_busy (snd (DfsEngine.report r e)) = 0).
Proof.
  destruct r as [s | |]; simpl.
  - unfold DfsEngine.solution.
    destruct (DfsEngine.signal e); simpl; [intros _ | intros Hin].
    + split; [reflexivity | discriminate].
    + destruct Hin as [? | [? | [? | []]]]; discriminate.
  - unfold DfsEngine.stop.
    destruct (DfsEngine.signal e); simpl; [intros _ | intros Hin].
    + split; [reflexivity | discriminate].
    + destruct Hin as [? | [? | [? | []]]]; discriminate.
  - unfold DfsEngine.idle.
    destruct (DfsEngine.signal e); simpl.
    + destruct (u32 (DfsEngine.n_busy e - 1) =? 0) eqn:Hz; simpl.
      * intros _. split; [reflexivity | intros _]. now apply Z.eqb_eq.
      * intros Hin. destruct Hin as [? | [? | [? | []]]]; discriminate.
    + intros Hin. destruct Hin as [? | [? | [? | []]]]; discriminate.
Qed.

(** The test on entry of [next()] and the test in its wait loop agree:
    comparing [n_busy] with the null pointer constant compares it with 0. *)
Lemma next_check_entry (e : DfsEngine.t) :
  DfsEngine.next_check e = DfsEngine.next_entry e.
Proof. reflexivity. Qed.

Lemma next_entry_none (e : DfsEngine.t) :
  DfsEngine.solutions e = [] ->
  DfsEngine.n_busy e = 0 \/ DfsEngine.has_stopped e = true ->
  DfsEngine.next_entry e = (DfsEngine.D_return None, e).
Proof.
  intros Hq Hex. unfold DfsEngine.next_entry. rewrite Hq.
  destruct Hex as [-> | ->]; [reflexivity | now rewrite orb_true_r].
Qed.

Lemma next_entry_decides (e e' : DfsEngine.t) (dec : DfsEngine.Decision) :
  DfsEngine.next_entry e = (dec, e') ->
  match dec with
  | DfsEngine.D_return (Some s) =>
      exists q, DfsEngine.solutions e = s :: q /\
                e' = DfsEngine.set_solutions q e
  | DfsEngine.D_return None =>
      e' = e /\ DfsEngine.solutions e = [] /\
      (DfsEngine.n_busy e = 0 \/ DfsEngine.has_stopped e = true)
  | DfsEngine.D_search =>
      e' = e /\ DfsEngine.solutions e = [] /\
      DfsEngine.n_busy e <> 0 /\ DfsEngine.has_stopped e = false
  end.
Proof.
  unfold DfsEngine.next_entry.
  destruct (DfsEngine.solutions e) as [| s q] eqn:Hq.
  - destruct (DfsEngine.n_busy e =? 0) eqn:Hn; simpl.
    + intros [= <- <-]. apply Z.eqb_eq in Hn. auto.
    + destruct (DfsEngine.has_stopped e) eqn:Hs; intros [= <- <-].
      * auto.
      * apply Z.eqb_neq in Hn. auto.
  - intros [= <- <-]. exists q. auto.
Qed.
End engine_properties.

(** * The invariant holds in every reachable state *)

#[local] Arguments DfsWorker.new : simpl never.
#[local] Arguments DfsWorker.work : simpl never.
#[local] Arguments DfsWorker.steal : simpl never.
#[local] Arguments DfsWorker.reacquire : simpl never.
#[local] Arguments u32 : simpl never.
#[local] Arguments tagged : simpl never.
#[local] Arguments constructor_actions : simpl never.

(** Case analysis on a step that succeeded. *)
Ltac break_step Hs :=
  repeat match type of Hs with
         | context [match ?x with _ => _ end] =>
             destruct x eqn:?; try discriminate Hs
         end.

Ltac engine_eqs :=
  repeat match goal with
         | Heq : DfsEngine.next_entry _ = _ |- _ =>
             apply next_entry_decides in Heq
         | Heq : DfsEngine.next_check _ = _ |- _ =>
             rewrite next_check_entry in Heq
         end.

Ltac decomp :=
  repeat match goal with
         | Hx : _ /\ _ |- _ => destruct Hx
         | Hx : _ \/ _ |- _ => destruct Hx
         | Hx : exists _, _ |- _ => destruct Hx
         | Hx : False |- _ => destruct Hx
         end.

Ltac caller_cases Hs :=
  unfold caller_step, caller_goto in Hs; break_step Hs;
  injection Hs as <-; engine_eqs; simpl in *.

Ltac worker_cases Hs :=
  unfold worker_step, worker_goto in Hs; break_step Hs;
  injection Hs as <-; simpl in *.

Section invariant_proofs.
Context `{SearchSupport}.

Lemma work_view (o : Options) (w w' : DfsWorker.t) (out : DfsWorker.Outcome) :
  DfsWorker.work o w = (w', out) ->
  match out with
  | DfsWorker.O_find => DfsWorker.idle w = true /\ w' = w
  | DfsWorker.O_idle => DfsWorker.idle w = false /\ DfsWorker.idle w' = true
  | _ => DfsWorker.idle w = false /\ DfsWorker.idle w' = false
  end.
Proof.
  unfold DfsWorker.work. intros Hw.
  destruct (DfsWorker.idle w) eqn:Hi.
  - injection Hw as <- <-. auto.
  - break_step Hw; injection Hw as <- <-; simpl; auto.
Qed.

Lemma steal_view (v v' : DfsWorker.t) r :
  DfsWorker.steal v = (r, v') -> DfsWorker.idle v' = DfsWorker.idle v.
Proof.
  unfold DfsWorker.steal. destruct (path_steal _). intros [= <- <-]. reflexivity.
Qed.

Lemma worker_step_view i st st' :
  worker_step i st = Ok st' ->
  exists x x',
    view st !! i = Some x /\ view st' = <[i := x']> (view st) /\
    worker_effect i x x' (engine st) (engine st') /\ cpc st' = cpc st.
Proof.
  intros Hs. unfold view.
  worker_cases Hs; subst;
    try (eexists _, _; split; [rewrite list_lookup_fmap, Heqo; reflexivity |];
         split; [rewrite list_fmap_insert; reflexivity |];
         split; [| reflexivity]; unfold worker_effect, DfsEngine.cmd in *; simpl;
         repeat match goal with
                | Heq : _ = (_, ?e') |- context [?e'] => rewrite Heq
                end; simpl; auto 6; fail).
  - (* W_work *)
    apply work_view in Heqp1.
    eexists _, _; split; [rewrite list_lookup_fmap, Heqo; reflexivity |].
    split; [rewrite list_fmap_insert; reflexivity |].
    split; [| reflexivity]. unfold worker_effect; simpl. split; [reflexivity |].
    destruct o; simpl in *; destruct Heqp1 as [Hi Hw']; subst;
      unfold view_of; simpl; rewrite ?Hi, ?Hw'; eauto 8.
  - (* W_steal, success *)
    eexists _, _; split; [rewrite list_lookup_fmap, Heqo; reflexivity |].
    split.
    + rewrite !list_fmap_insert. f_equal. apply list_insert_id.
      rewrite list_lookup_fmap, Heqo0. simpl. unfold view_of; simpl.
      now rewrite (steal_view _ _ _ Heqp2).
    + split; [| reflexivity]. unfold worker_effect; simpl. eauto 6.
  - (* W_steal, nothing to steal *)
    eexists _, _; split; [rewrite list_lookup_fmap, Heqo; reflexivity |].
    split.
    + rewrite !list_fmap_insert. f_equal. apply list_insert_id.
      rewrite list_lookup_fmap, Heqo0. simpl. unfold view_of; simpl.
      now rewrite (steal_view _ _ _ Heqp2).
    + split; [| reflexivity]. unfold worker_effect; simpl. eauto 6.
  - (* W_busy *)
    unfold DfsEngine.busy in Heqo0.
    destruct (0 <? DfsEngine.n_busy (engine st)) eqn:Hb; [| discriminate].
    injection Heqo0 as <- <-.
    eexists _, _; split; [rewrite list_lookup_fmap, Heqo; reflexivity |].
    split; [rewrite list_fmap_insert; reflexivity |].
    split; [| reflexivity]. unfold worker_effect; simpl.
    apply Z.ltb_lt in Hb. auto.
Qed.

Lemma new_idle s sz o : DfsWorker.idle (DfsWorker.new s sz o) = false.
Proof.
  unfold DfsWorker.new. destruct s as [s |]; [| reflexivity].
  destruct (status s) as [ss s1]. reflexivity.
Qed.

Lemma view_new s s' sz o n :
  view_of (W_unstarted, DfsWorker.new s sz o)
    :: (view_of <$> replicate n (W_unstarted, DfsWorker.new s' sz o)) =
  replicate (S n) (W_unstarted, false).
Proof.
  rewrite fmap_replicate. unfold view_of; simpl.
  now rewrite !new_idle.
Qed.

(** What a step of the engine's thread does to the workers. *)
Lemma caller_step_view l st st' :
  caller_step l st = Ok st' ->
  (view st' = view st /\ forall s sz, cpc st <> C_new s sz) \/
  (exists s sz, cpc st = C_new s sz /\
     1 <= threads (DfsEngine._opt (engine st)) /\
     view st' = replicate (DfsEngine.workers (engine st)) (W_unstarted, false)) \/
  (exists i x, cpc st = C_threads i /\ view st !! i = Some x /\
     view st' = <[i := (W_head, snd x)]> (view st)).
Proof.
  intros Hs. unfold view. caller_cases Hs;
    try (left; split; [reflexivity | congruence]).
  - right; left. exists s, sz. split; [reflexivity |].
    apply Z.leb_le in Heqb. split; [exact Heqb |].
    rewrite view_new. f_equal. unfold DfsEngine.workers, DfsEngine.opt in *. lia.
  - right; right. exists i, (view_of p). split; [reflexivity |].
    rewrite list_lookup_fmap, Heqo. split; [reflexivity |].
    now rewrite list_fmap_insert.
  - right; right. exists i, (view_of p). split; [reflexivity |].
    rewrite list_lookup_fmap, Heqo. split; [reflexivity |].
    now rewrite list_fmap_insert.
Qed.

Lemma lock_actions_worker tr i acts :
  lock_actions (tr ++ tagged (Wk i) acts) = lock_actions tr.
Proof.
  unfold lock_actions. rewrite omap_app.
  induction acts as [| a acts IH]; simpl; [apply app_nil_r | exact IH].
Qed.

Lemma returns_app tr t acts :
  returns (tr ++ tagged t acts) = returns tr ++ returns (tagged t acts).
Proof. unfold returns. apply omap_app. Qed.

Lemma lock_actions_app tr acts :
  lock_actions (tr ++ tagged Caller acts) =
  lock_actions tr ++ lock_actions (tagged Caller acts).
Proof. unfold lock_actions. apply omap_app. Qed.

Ltac engine_acts :=
  repeat match goal with
         | Heq : DfsEngine.stop _ = _ |- _ =>
             unfold DfsEngine.stop in Heq; break_step Heq;
             injection Heq as <- <-
         | Heq : DfsEngine.solution _ _ = _ |- _ =>
             unfold DfsEngine.solution in Heq; break_step Heq;
             injection Heq as <- <-
         | Heq : DfsEngine.idle _ = _ |- _ =>
             unfold DfsEngine.idle in Heq; break_step Heq;
             injection Heq as <- <-
         | Heq : DfsEngine.busy _ = _ |- _ =>
             unfold DfsEngine.busy in Heq; break_step Heq;
             injection Heq as <- <-
         | Heq : DfsEngine.terminated _ = _ |- _ =>
             unfold DfsEngine.terminated in Heq; break_step Heq;
             injection Heq as <- <-
         end.

(** A worker's step adds only its own actions to the trace, none of them
    a return from [next()]. *)
Lemma worker_step_trace i st st' :
  worker_step i st = Ok st' ->
  lock_actions (trace st') = lock_actions (trace st) /\
  returns (trace st') = returns (trace st).
Proof.
  intros Hs. worker_cases Hs; engine_acts;
    rewrite lock_actions_worker, returns_app; unfold tagged; simpl;
    rewrite ?app_nil_r; auto.
Qed.

Lemma Inv_init st : initial st -> Inv st.
Proof.
  intros (s & sz & o & g1 & g2 & g3 & g4 & Ho & ->).
  split; unfold lock_ok, wait_holder_ok, ctor_workers_ok, size_ok, count_ok,
    idle_ok, none_ok, lock_trace_ok, answered_none; simpl; auto.
  - intros i b Hl. discriminate.
  - split; [reflexivity |]. intros [[] | [? | ?]]; discriminate.
  - exists 0%nat. reflexivity.
Qed.

Lemma lock_ok_caller l st st' :
  Inv st -> caller_step l st = Ok st' -> lock_ok st'.
Proof.
  intros [Hg Hh Hc Hz Hn Hi Ho Ht] Hs.
  unfold lock_ok in *.
  caller_cases Hs;
    repeat match goal with
           | k : AfterBlock |- _ => destruct k
           | k : AfterRelease |- _ => destruct k
           | r : option Space |- _ => destruct r
           end; simpl in *; decomp; subst; simpl; intuition congruence.
Qed.

(** ** Counting the busy workers *)

Lemma counted_range x : 0 <= counted x <= 1.
Proof. unfold counted. destruct (fst x), (snd x); lia. Qed.

Lemma busy_count_range ws : 0 <= busy_count ws <= Z.of_nat (length ws).
Proof.
  induction ws as [| x r IH]; simpl; [lia |].
  pose proof (counted_range x). lia.
Qed.

Lemma busy_count_insert ws i x y :
  ws !! i = Some x ->
  busy_count (<[i := y]> ws) = busy_count ws - counted x + counted y.
Proof.
  revert i. induction ws as [| z r IH]; intros [| i] Hl; simpl in *;
    try discriminate.
  - injection Hl as ->. lia.
  - rewrite (IH _ Hl). lia.
Qed.

Lemma busy_count_parked ws :
  Forall parked_worker ws -> busy_count ws = Z.of_nat (length ws).
Proof.
  induction 1 as [| x r Hx _ IH]; simpl; [reflexivity |].
  rewrite IH. destruct Hx as [-> | [-> | ->]]; unfold counted; simpl; lia.
Qed.

(** ** The engine functions field by field *)

Lemma stop_fields e :
  let e' := snd (DfsEngine.stop e) in
  DfsEngine._opt e' = DfsEngine._opt e /\ DfsEngine._cmd e' = DfsEngine._cmd e /\
  DfsEngine._m_wait e' = DfsEngine._m_wait e /\
  DfsEngine.n_busy e' = DfsEngine.n_busy e /\ DfsEngine.has_stopped e' = true.
Proof. unfold DfsEngine.stop. destruct (DfsEngine.signal e); simpl; auto. Qed.

Lemma solution_fields s e :
  let e' := snd (DfsEngine.solution s e) in
  DfsEngine._opt e' = DfsEngine._opt e /\ DfsEngine._cmd e' = DfsEngine._cmd e /\
  DfsEngine._m_wait e' = DfsEngine._m_wait e /\
  DfsEngine.n_busy e' = DfsEngine.n_busy e /\
  DfsEngine.has_stopped e' = DfsEngine.has_stopped e.
Proof. unfold DfsEngine.solution. destruct (DfsEngine.signal e); simpl; auto. Qed.

Lemma idle_fields e :
  let e' := snd (DfsEngine.idle e) in
  DfsEngine._opt e' = DfsEngine._opt e /\ DfsEngine._cmd e' = DfsEngine._cmd e /\
  DfsEngine._m_wait e' = DfsEngine._m_wait e /\
  DfsEngine.n_busy e' = u32 (DfsEngine.n_busy e - 1) /\
  DfsEngine.has_stopped e' = DfsEngine.has_stopped e.
Proof.
  unfold DfsEngine.idle.
  destruct (DfsEngine.signal e && _); simpl; auto.
Qed.

Lemma terminated_fields e :
  let e' := snd (DfsEngine.terminated e) in
  DfsEngine._opt e' = DfsEngine._opt e /\ DfsEngine._cmd e' = DfsEngine._cmd e /\
  DfsEngine._m_wait e' = DfsEngine._m_wait e /\
  DfsEngine.n_busy e' = DfsEngine.n_busy e /\
  DfsEngine.has_stopped e' = DfsEngine.has_stopped e.
Proof.
  unfold DfsEngine.terminated.
  destruct (u32 _ =? 0); simpl; auto.
Qed.

(** A worker never writes [_cmd] or the options, and touches [_m_wait]
    only in [engine.wait()]. *)
Lemma worker_effect_lock i x x' e e' :
  worker_effect i x x' e e' ->
  DfsEngine._opt e' = DfsEngine._opt e /\ DfsEngine._cmd e' = DfsEngine._cmd e /\
  (DfsEngine._m_wait e' = DfsEngine._m_wait e \/
   (fst x = W_wait_acquire /\ DfsEngine._m_wait e = None /\
    DfsEngine._m_wait e' = Some (Wk i) /\ x' = (W_wait_release, snd x)) \/
   (fst x = W_wait_release /\ DfsEngine._m_wait e' = None)).
Proof.
  unfold worker_effect. destruct x as [pc b]; simpl.
  pose proof (stop_fields e) as Hstop.
  pose proof (idle_fields e) as Hidle.
  pose proof (terminated_fields e) as Hterm.
  destruct pc; try pose proof (solution_fields s e) as Hsol; simpl in *;
    intros Heff; destruct_and?; subst; simpl; intuition.
Qed.

(** A worker changes [n_busy] and [has_stopped] only through
    [engine.idle()], [engine.busy()] and [engine.stop()]. *)
Lemma worker_effect_search i x x' e e' :
  worker_effect i x x' e e' ->
  match fst x with
  | W_idle =>
      DfsEngine.n_busy e' = u32 (DfsEngine.n_busy e - 1) /\
      DfsEngine.has_stopped e' = DfsEngine.has_stopped e
  | W_busy _ =>
      0 < DfsEngine.n_busy e /\
      DfsEngine.n_busy e' = u32 (DfsEngine.n_busy e + 1) /\
      DfsEngine.has_stopped e' = DfsEngine.has_stopped e
  | W_stop =>
      DfsEngine.n_busy e' = DfsEngine.n_busy e /\ DfsEngine.has_stopped e' = true
  | _ =>
      DfsEngine.n_busy e' = DfsEngine.n_busy e /\
      DfsEngine.has_stopped e' = DfsEngine.has_stopped e
  end.
Proof.
  unfold worker_effect. destruct x as [pc b]; simpl.
  pose proof (stop_fields e) as Hstop.
  pose proof (idle_fields e) as Hidle.
  pose proof (terminated_fields e) as Hterm.
  destruct pc; try pose proof (solution_fields s e) as Hsol; simpl in *;
    intros Heff; destruct_and?; subst; simpl; intuition.
Qed.

(** ** Steps of a worker preserve the invariant *)

Ltac lia_count Hsearch Heff Hix :=
  match type of Heff with
  | worker_effect _ ?x ?x' _ _ =>
      unfold worker_effect in Heff;
      destruct x as [pc b], x' as [pc' b']; destruct pc; simpl in *;
      decomp; simplify_eq; simpl in *;
      try (rewrite Hix in * by exact I);
      unfold counted in *; simpl in *;
      repeat match goal with
             | Hq : DfsEngine.n_busy _ = u32 _ |- _ =>
                 rewrite u32_small in Hq by lia
             end;
      try (rewrite (busy_count_insert _ _ _ _ ltac:(eassumption));
           unfold counted; simpl);
      try lia
  end.

Lemma no_worker_runs_early st i x x' e' :
  ctor_workers_ok st -> lock_ok st ->
  view st !! i = Some x -> worker_effect i x x' (engine st) e' ->
  match cpc st with
  | C_new _ _ | C_block_cmd B_ctor | C_block_acquire B_ctor => False
  | C_threads _ | C_init => x = (W_head, false) /\ x' = (W_wait_acquire, false)
  | _ => True
  end.
Proof.
  unfold ctor_workers_ok, lock_ok. intros Hc Hg Hl Heff.
  destruct (cpc st) as [| [|] | [|] | | | | | | | | |]; try exact I.
  - rewrite Hc in Hl. discriminate.
  - rewrite Forall_lookup in Hc. rewrite (Hc _ _ Hl) in Heff. exact Heff.
  - rewrite Forall_lookup in Hc. rewrite (Hc _ _ Hl) in Heff. exact Heff.
  - rewrite Forall_lookup in Hc. destruct Hg as [Hcmd Hm].
    destruct (Hc _ _ Hl) as [-> | [-> | ->]]; simpl in Heff.
    + destruct Heff.
    + destruct x' as [pc' b'].
      destruct Heff as (Hb & _ & [[_ Hx] | [[Hx _] | [Hx _]]]);
        simpl in *; [subst; auto | congruence | congruence].
    + destruct Heff as (_ & Hn & _). congruence.
  - rewrite Forall_lookup in Hc. destruct Hg as [Hcmd Hm].
    destruct (Hc _ _ Hl) as [-> | [-> | ->]]; simpl in Heff.
    + destruct Heff.
    + destruct x' as [pc' b'].
      destruct Heff as (Hb & _ & [[_ Hx] | [[Hx _] | [Hx _]]]);
        simpl in *; [subst; auto | congruence | congruence].
    + destruct Heff as (_ & Hn & _). congruence.
Qed.

Lemma Inv_worker_step i st st' :
  Inv st -> worker_step i st = Ok st' -> Inv st'.
Proof.
  intros [Hg Hh Hc Hz Hn Hi Ho Ht] Hs.
  destruct (worker_step_trace _ _ _ Hs) as [Htr Hret].
  destruct (worker_step_view _ _ _ Hs) as (x & x' & Hl & Hv & Heff & Hpc).
  pose proof (worker_effect_lock _ _ _ _ _ Heff) as (Hopt & Hcmd & Hm).
  pose proof (worker_effect_search _ _ _ _ _ Heff) as Hsearch.
  pose proof (no_worker_runs_early _ _ _ _ _ Hc Hg Hl Heff) as Hearly.
  assert (Hhx : fst x = W_wait_release ->
                DfsEngine._m_wait (engine st) = Some (Wk i)).
  { intros Hx. destruct x as [pc b]; simpl in Hx; subst pc. exact (Hh _ _ Hl). }
  assert (Hidle_x : forall j y, view st !! j = Some y ->
                    idle_pc (fst y) -> snd y = true).
  { intros j y Hy. unfold idle_ok in Hi. rewrite Forall_lookup in Hi.
    exact (Hi _ _ Hy). }
  assert (Hlen : Z.of_nat (length (view st)) < UINT_RANGE).
  { unfold size_ok, DfsEngine.workers, DfsEngine.opt in Hz.
    destruct Hz as [Hthreads Hz].
    destruct (cpc st); [contradiction | destruct Hz as [-> _]; lia ..]. }
  pose proof (busy_count_range (<[i := x']> (view st))) as Hrange'.
  rewrite length_insert, (busy_count_insert _ _ _ x' Hl) in Hrange'.
  pose proof (busy_count_range (view st)) as Hrange.
  split.
  - (* lock_ok *)
    unfold lock_ok in *. rewrite Hpc, Hcmd.
    destruct Hm as [-> | [(_ & Hnone & -> & _) | (Hx & ->)]]; [exact Hg | |].
    + destruct (cpc st) as [| [|] | [|] | | | | | [|] | | | |];
        try contradiction; rewrite ?Hnone in *; intuition congruence.
    + specialize (Hhx Hx).
      destruct (cpc st) as [| [|] | [|] | | | | | [|] | | | |];
        rewrite ?Hhx in *; intuition congruence.
  - (* wait_holder_ok *)
    intros j b Hj. rewrite Hv in Hj.
    apply list_lookup_insert_Some in Hj as [(<- & -> & _) | (Hne & Hj)].
    + clear - Heff. unfold worker_effect in Heff.
      destruct x as [[] b0]; simpl in Heff; decomp;
        simplify_eq; simpl in *; try congruence;
        match goal with Heq : engine _ = _ |- _ => rewrite Heq end;
        reflexivity.
    + specialize (Hh _ _ Hj).
      destruct Hm as [-> | [(_ & Hnone & _) | (Hx & _)]]; auto.
      * congruence.
      * specialize (Hhx Hx). congruence.
  - (* ctor_workers_ok *)
    unfold ctor_workers_ok in *. rewrite Hpc, Hv.
    destruct (cpc st) as [| [|] | [|] | | | | | | | | |];
      try contradiction; try exact I.
    + destruct Hearly as [_ ->]. apply Forall_insert; [exact Hc |].
      right; right; reflexivity.
    + destruct Hearly as [_ ->]. apply Forall_insert; [exact Hc |].
      right; right; reflexivity.
  - (* size_ok *)
    unfold size_ok, DfsEngine.workers, DfsEngine.opt in *.
    rewrite Hpc, Hv, Hopt, length_insert. exact Hz.
  - (* count_ok *)
    unfold count_ok in *. rewrite Hpc.
    destruct Hn as [Hn | Hn]; [left; exact Hn | right].
    rewrite Hv. clear Hearly Hm Hhx Hg Hh Hc Ho Ht.
    pose proof (Hidle_x _ _ Hl) as Hix. lia_count Hsearch Heff Hix.
  - (* idle_ok *)
    unfold idle_ok in *. rewrite Hv. apply Forall_insert; [exact Hi |].
    pose proof (Hidle_x _ _ Hl) as Hix. clear - Heff Hix.
    unfold worker_effect in Heff.
    destruct x as [pc b], x' as [pc' b']. destruct pc; simpl in *; decomp;
      simplify_eq; simpl in *; intros; auto; try contradiction.
  - (* none_ok *)
    destruct Ho as [Ho1 Ho2]. unfold none_ok. rewrite Hpc, Hret.
    split; [exact Ho1 |]. intros Hans.
    assert (Hans0 : answered_none st).
    { unfold answered_none in *. rewrite Hpc, Hret in Hans. exact Hans. }
    assert (Hcount : DfsEngine.n_busy (engine st) = busy_count (view st)).
    { destruct Hn as [Hn | Hn]; [| exact Hn]. exfalso.
      specialize (Ho1 Hn). unfold answered_none in Hans0. rewrite Ho1 in Hans0.
      destruct Hans0 as [[] | [Hb | Hb]]; rewrite Hb in Hn; exact Hn. }
    specialize (Ho2 Hans0). unfold exhausted in *.
    pose proof (Hidle_x _ _ Hl) as Hix.
    clear Hearly Hm Hhx Hg Hh Hc Ho1 Ht Hans Hans0 Hn.
    destruct Ho2 as [Hzero | Hstopped].
    + lia_count Hsearch Heff Hix.
    + right. clear - Hsearch Hstopped. destruct (fst x); intuition congruence.
  - (* lock_trace_ok *)
    unfold lock_trace_ok in *. rewrite Hpc, Htr. exact Ht.
Qed.

(** ** Steps of the engine's thread preserve the invariant *)

Lemma rounds_S k : rounds (S k) = rounds k ++ round.
Proof.
  change (rounds (S k)) with (round ++ rounds k).
  induction k as [| k IH]; [reflexivity |].
  change (rounds (S k)) with (round ++ rounds k).
  rewrite <- app_assoc. f_equal. exact IH.
Qed.

Lemma lock_actions_new_workers n m :
  lock_actions (tagged Caller (map (fun i => A_new_worker i false) (seq n m))) = [].
Proof. revert n. induction m as [| m IH]; intros n; [reflexivity | apply IH]. Qed.

Lemma returns_new_workers n m :
  returns (tagged Caller (map (fun i => A_new_worker i false) (seq n m))) = [].
Proof. revert n. induction m as [| m IH]; intros n; [reflexivity | apply IH]. Qed.

Lemma returns_new_workers' n m :
  returns (tagged Caller (A_new_worker 0 true
                          :: map (fun i => A_new_worker i false) (seq n m))) = [].
Proof. apply returns_new_workers. Qed.

Lemma lock_actions_new_workers' n m :
  lock_actions (tagged Caller (A_new_worker 0 true
                          :: map (fun i => A_new_worker i false) (seq n m))) = [].
Proof. apply lock_actions_new_workers. Qed.

Lemma caller_step_search l st st' :
  caller_step l st = Ok st' ->
  cpc st = C_init \/
  (DfsEngine.n_busy (engine st') = DfsEngine.n_busy (engine st) /\
   DfsEngine.has_stopped (engine st') = DfsEngine.has_stopped (engine st)).
Proof.
  intros Hs. caller_cases Hs; decomp; subst; auto;
    repeat match goal with r : option Space |- _ => destruct r end;
    decomp; subst; auto.
Qed.

Lemma caller_step_opt l st st' :
  caller_step l st = Ok st' ->
  DfsEngine._opt (engine st') = DfsEngine._opt (engine st).
Proof.
  intros Hs. caller_cases Hs; decomp; subst; auto;
    repeat match goal with r : option Space |- _ => destruct r end;
    decomp; subst; auto.
Qed.

Lemma caller_step_m_wait l st st' :
  caller_step l st = Ok st' -> lock_ok st ->
  DfsEngine._m_wait (engine st') = DfsEngine._m_wait (engine st) \/
  DfsEngine._m_wait (engine st) = None \/
  DfsEngine._m_wait (engine st) = Some Caller.
Proof.
  unfold lock_ok. intros Hs Hg.
  caller_cases Hs; decomp; subst; auto;
    repeat match goal with
           | r : option Space |- _ => destruct r
           | k : AfterRelease |- _ => destruct k
           end;
    decomp; subst; auto.
Qed.

Lemma Inv_caller_step l st st' :
  Inv st -> caller_step l st = Ok st' -> Inv st'.
Proof.
  intros HI Hs. pose proof HI as [Hg Hh Hc Hz Hn Hi Ho Ht].
  pose proof (caller_step_view _ _ _ Hs) as Hview.
  pose proof (caller_step_search _ _ _ Hs) as Hsearch.
  pose proof (caller_step_opt _ _ _ Hs) as Hopt.
  pose proof (caller_step_m_wait _ _ _ Hs Hg) as Hm.
  split.
  - exact (lock_ok_caller _ _ _ HI Hs).
  - (* wait_holder_ok *)
    intros j b Hj.
    assert (Hold : forall b0, view st !! j = Some (W_wait_release, b0) ->
                   DfsEngine._m_wait (engine st') = Some (Wk j)).
    { intros b0 Hj0. specialize (Hh _ _ Hj0).
      destruct Hm as [-> | [Hm | Hm]]; congruence. }
    destruct Hview as [[Hv Hnew] | [(s & sz & Hpc & _ & Hv) | (i & x & Hpc & Hx & Hv)]];
      rewrite Hv in Hj.
    + eauto.
    + apply lookup_replicate in Hj as [Hj _]. discriminate.
    + apply list_lookup_insert_Some in Hj as [(_ & Hj & _) | (_ & Hj)];
        [discriminate | eauto].
  - (* ctor_workers_ok *)
    unfold ctor_workers_ok in *.
    destruct Hview as [[Hv Hnew] | [(s & sz & Hpc & _ & Hv) | (i & x & Hpc & Hx & Hv)]];
      rewrite Hv; clear Hv.
    + caller_cases Hs; auto;
        repeat match goal with
               | k : AfterBlock |- _ => destruct k
               | k : AfterRelease |- _ => destruct k
               end;
        simpl; auto; try exact I; try (exfalso; eapply Hnew; reflexivity).
      eapply Forall_impl; [exact Hc |]. intros x ->. left; reflexivity.
    + caller_cases Hs; try discriminate.
      apply Forall_replicate. reflexivity.
    + rewrite Hpc in Hc. rewrite Forall_lookup in Hc.
      assert (Hp : parked_worker (W_head, snd x)).
      { destruct (Hc _ _ Hx) as [-> | [-> | ->]]; right; left; reflexivity. }
      caller_cases Hs; try discriminate;
        (apply Forall_insert; [apply Forall_lookup; exact Hc | exact Hp]).
  - (* size_ok *)
    unfold size_ok, DfsEngine.workers, DfsEngine.opt in *. rewrite Hopt.
    split; [apply Hz |].
    destruct Hview as [[Hv Hnew] | [(s & sz & Hpc & Hone & Hv) | (i & x & Hpc & Hx & Hv)]];
      rewrite Hv; clear Hv.
    + destruct Hz as [_ Hz].
      caller_cases Hs; auto; try (exfalso; eapply Hnew; reflexivity);
        repeat match goal with
               | k : AfterBlock |- _ => destruct k
               | k : AfterRelease |- _ => destruct k
               end; auto.
    + caller_cases Hs; try discriminate. now rewrite length_replicate.
    + rewrite length_insert. destruct Hz as [_ Hz]. rewrite Hpc in Hz.
      caller_cases Hs; try discriminate; auto.
  - (* count_ok *)
    unfold count_ok in *.
    destruct Hview as [[Hv Hnew] | [(s & sz & Hpc & _ & Hv) | (i & x & Hpc & Hx & Hv)]];
      rewrite Hv; clear Hv.
    + unfold ctor_workers_ok in Hc. destruct Hz as [_ Hz].
      caller_cases Hs;
        repeat match goal with
               | k : AfterBlock |- _ => destruct k
               | k : AfterRelease |- _ => destruct k
               | r : option Space |- _ => destruct r
               end; simpl in *; try (left; exact I);
        try (destruct Hn as [[] | Hn]; right; decomp; subst; exact Hn).
      right. rewrite (busy_count_parked _ Hc). destruct Hz as [-> _].
      reflexivity.
    + left. caller_cases Hs; try discriminate. exact I.
    + left. caller_cases Hs; try discriminate; exact I.
  - (* idle_ok *)
    unfold idle_ok in *.
    destruct Hview as [[Hv Hnew] | [(s & sz & Hpc & _ & Hv) | (i & x & Hpc & Hx & Hv)]];
      rewrite Hv; clear Hv.
    + exact Hi.
    + apply Forall_replicate. intros [].
    + apply Forall_insert; [exact Hi |]. intros [].
  - (* none_ok *)
    destruct Ho as [Ho1 Ho2]. unfold none_ok, answered_none, exhausted in *.
    clear Hview Hm Hopt Hg Hh Hc Hz Hn Hi Ht HI Hsearch.
    caller_cases Hs; rewrite returns_app;
      repeat match goal with
             | k : AfterBlock |- _ => destruct k
             | k : AfterRelease |- _ => destruct k
             | r : option Space |- _ => destruct r
             end;
      rewrite ?returns_new_workers'; unfold tagged; simpl in *;
      rewrite ?app_nil_r; decomp; subst; simpl in *.
    all: split; [intros Hin; first [contradiction | apply Ho1; exact I]
                | intros Hans].
    all: rewrite ?in_app_iff in Hans; simpl in Hans; decomp;
      try discriminate; simplify_eq; auto.
    all: try (rewrite Ho1 in * by exact I; contradiction).
  - (* lock_trace_ok *)
    unfold lock_trace_ok in *. destruct Ht as [k Hk]. unfold lock_ok in Hg.
    clear Hview Hm Hopt Hh Hc Hz Hn Hi Ho HI Hsearch.
    caller_cases Hs; rewrite lock_actions_app, Hk;
      repeat match goal with
             | k : AfterBlock |- _ => destruct k
             | k : AfterRelease |- _ => destruct k
             | r : option Space |- _ => destruct r
             end;
      rewrite ?lock_actions_new_workers'; decomp; subst; try discriminate;
      unfold tagged; simpl;
      first [ exists k; rewrite <- ?app_assoc; simpl; rewrite ?app_nil_r;
              reflexivity
            | exists (S k); rewrite rounds_S, <- ?app_assoc; simpl;
              reflexivity ].
Qed.

Lemma Inv_step l st st' : Inv st -> step l st = Ok st' -> Inv st'.
Proof.
  destruct l; simpl; eauto using Inv_caller_step, Inv_worker_step.
Qed.

Lemma Inv_reachable st : reachable st -> Inv st.
Proof.
  induction 1 as [st Hinit | l st st' _ IH Hs];
    eauto using Inv_init, Inv_step.
Qed.
(** ** The order of the constructor *)

Lemma actions_of_caller tr acts :
  actions_of Caller (tr ++ tagged Caller acts) = actions_of Caller tr ++ acts.
Proof.
  unfold actions_of. rewrite omap_app. f_equal. unfold tagged.
  induction acts as [| a acts IH]; [reflexivity |].
  change (a :: omap (fun x : Tid * Action =>
                       match fst x with
                       | Caller => Some (snd x)
                       | Wk _ => None
                       end) (map (pair Caller) acts) = a :: acts).
  f_equal. exact IH.
Qed.

Lemma actions_of_caller_worker tr i acts :
  actions_of Caller (tr ++ tagged (Wk i) acts) = actions_of Caller tr.
Proof.
  unfold actions_of. rewrite omap_app. unfold tagged.
  induction acts as [| a acts IH]; simpl; [apply app_nil_r | exact IH].
Qed.

Lemma ctor_trace_worker i st st' :
  ctor_trace_ok st -> worker_step i st = Ok st' -> ctor_trace_ok st'.
Proof.
  intros Hc Hs.
  destruct (worker_step_view _ _ _ Hs) as (x & x' & _ & _ & Heff & Hpc).
  destruct (worker_effect_lock _ _ _ _ _ Heff) as (Hopt & _).
  assert (Htr : actions_of Caller (trace st') = actions_of Caller (trace st)).
  { clear - Hs. worker_cases Hs; apply actions_of_caller_worker. }
  unfold ctor_trace_ok, DfsEngine.workers, DfsEngine.opt in *.
  rewrite Hpc, Hopt, Htr. exact Hc.
Qed.

Lemma constructor_done_after (n : nat) (pc : CPc) :
  ~ in_ctor pc -> constructor_done n pc = constructor_actions n.
Proof. destruct pc as [| [|] | [|] | | | | | | | | |]; simpl; tauto. Qed.

Lemma ctor_trace_caller l st st' :
  Inv st -> ctor_trace_ok st -> caller_step l st = Ok st' -> ctor_trace_ok st'.
Proof.
  intros HI (rest & Hact & Hrest & Hlt) Hs.
  pose proof (caller_step_opt _ _ _ Hs) as Hopt.
  destruct HI as [_ _ _ [_ Hz] _ _ _ _].
  unfold ctor_trace_ok, DfsEngine.workers, DfsEngine.opt in *.
  rewrite Hopt. clear Hopt.
  set (n := Z.to_nat (threads (DfsEngine._opt (engine st)))) in *.
  assert (Hafter : forall pc pc' acts,
            cpc st = pc -> ~ in_ctor pc -> ~ in_ctor pc' ->
            (forall i, pc' <> C_threads i) ->
            exists rest0,
              actions_of Caller (trace st) ++ acts =
                constructor_done n pc' ++ rest0 /\
              (in_ctor pc' -> rest0 = []) /\
              (forall i, pc' = C_threads i -> (i < n)%nat)).
  { intros pc pc' acts Hpc Hout Hout' Hno. rewrite Hpc in Hact.
    exists (rest ++ acts). rewrite Hact, !constructor_done_after by assumption.
    rewrite app_assoc. split; [reflexivity |].
    split; [tauto | intros i Hi; destruct (Hno _ Hi)]. }
  unfold caller_step, caller_goto in Hs.
  destruct (cpc st) as [s sz | [| r] | [| r] | i | | | c k | k | | | |] eqn:Hpc;
    destruct l; try discriminate; break_step Hs; injection Hs as <-;
    cbn [cpc trace engine]; rewrite actions_of_caller;
    try (eapply Hafter; [reflexivity | simpl; tauto .. | discriminate]);
    try (destruct k; eapply Hafter;
         [reflexivity | simpl; tauto .. | discriminate]).
  - (* C_new *)
    rewrite Hact, (Hrest I). exists []. rewrite !app_nil_r.
    split; [reflexivity | split; [reflexivity | discriminate]].
  - (* C_block_cmd B_ctor *)
    rewrite Hact, (Hrest I). exists []. rewrite !app_nil_r.
    split; [reflexivity | split; [reflexivity | discriminate]].
  - (* C_block_acquire B_ctor *)
    rewrite Hact, (Hrest I). exists []. rewrite !app_nil_r.
    split; [| split; [reflexivity |]].
    + simpl. rewrite <- app_assoc. reflexivity.
    + intros i0 [= <-]. fold n in Hz. lia.
  - (* C_threads, more to start *)
    rewrite Hact, (Hrest I). exists []. rewrite !app_nil_r.
    split; [| split; [reflexivity |]].
    + unfold constructor_done. rewrite seq_S, map_app.
      rewrite <- !app_assoc. reflexivity.
    + intros i0 [= <-]. apply Nat.ltb_lt in Heqb. exact Heqb.
  - (* C_threads, last one *)
    rewrite Hact, (Hrest I). exists []. rewrite !app_nil_r.
    split; [| split; [reflexivity | discriminate]].
    apply Nat.ltb_ge in Heqb. specialize (Hlt i eq_refl).
    unfold DfsEngine.workers, DfsEngine.opt in Heqb. fold n in Heqb.
    replace n with (S i) by lia.
    unfold constructor_done. rewrite seq_S, map_app.
    rewrite <- !app_assoc. reflexivity.
  - (* C_init *)
    rewrite Hact, (Hrest I). exists []. rewrite !app_nil_r.
    split; [| split; [intros [] | discriminate]].
    unfold constructor_done, constructor_actions. fold n.
    rewrite <- !app_assoc. reflexivity.
  - (* release *)
    destruct k;
      (eapply Hafter;
       [reflexivity | simpl; tauto .. | intros i; simpl; discriminate]).
Qed.

Lemma ctor_trace_reachable st : reachable st -> ctor_trace_ok st.
Proof.
  induction 1 as [st Hinit | l st st' Hr IH Hs].
  - destruct Hinit as (s & sz & o & g1 & g2 & g3 & g4 & _ & ->).
    exists []. split; [reflexivity |]. split; [reflexivity | discriminate].
  - destruct l; simpl in Hs;
      eauto using ctor_trace_caller, ctor_trace_worker, Inv_reachable.
Qed.
End invariant_proofs.

(** * Properties of the engine, the workers and their runs *)

Section properties.
Context `{SearchSupport}.

Lemma run_app ls1 ls2 st :
  run (ls1 ++ ls2) st = run ls1 st ≫= run ls2.
Proof.
  revert st. induction ls1 as [| l ls1 IH]; intros st; simpl; [reflexivity |].
  destruct (step l st); simpl; auto.
Qed.

Lemma run_reachable ls st st' :
  reachable st -> run ls st = Some st' -> reachable st'.
Proof.
  revert st. induction ls as [| l ls IH]; intros st Hr; simpl.
  - intros [= <-]. exact Hr.
  - destruct (step l st) as [| | st1] eqn:Hs; try discriminate.
    apply IH. eapply reachable_step; eauto.
Qed.

(** [next()] on an empty queue with [n_busy == 0] or [has_stopped] set:
    lines 269-280. *)
Lemma next_null_on_entry (st : State) :
  DfsEngine.solutions (engine st) = [] ->
  DfsEngine.n_busy (engine st) = 0 \/ DfsEngine.has_stopped (engine st) = true ->
  cpc st = C_ready ->
  step L_next st =
    Ok {| engine := engine st; worker := worker st; cpc := C_ready;
          trace := trace st ++
            tagged Caller [A_acquire M_search; A_release M_search;
                           A_return None] |}.
Proof.
  intros Hq Hex Hpc. simpl. unfold caller_step.
  rewrite Hpc, (next_entry_none _ Hq Hex). reflexivity.
Qed.

(** C1: when the solutions queue is empty and [n_busy] is 0 or
    [has_stopped] is set, [next()] returns NULL: at once when it is called,
    and, from the test in its wait loop, after [block()]; the test in the
    wait loop, written [n_busy == NULL], holds exactly when [n_busy] is 0. *)
Theorem next_returns_null_when_exhausted_or_stopped (st : State) :
  DfsEngine.solutions (engine st) = [] ->
  DfsEngine.n_busy (engine st) = 0 \/ DfsEngine.has_stopped (engine st) = true ->
  (cpc st = C_ready ->
   step L_next st =
     Ok {| engine := engine st; worker := worker st; cpc := C_ready;
           trace := trace st ++
             tagged Caller [A_acquire M_search; A_release M_search;
                            A_return None] |}) /\
  (cpc st = C_check ->
   step L_caller st =
     Ok {| engine := engine st; worker := worker st;
           cpc := C_block_cmd (B_return None);
           trace := trace st ++
             tagged Caller [A_acquire M_search; A_release M_search] |} /\
   (DfsEngine._m_wait (engine st) = None ->
    exists st',
      run [L_caller; L_caller; L_caller] st = Some st' /\
      cpc st' = C_ready /\
      returns (trace st') = returns (trace st) ++ [None])) /\
  ((DfsEngine.n_busy (engine st) =? NULL) = true <->
   DfsEngine.n_busy (engine st) = 0).
Proof.
  intros Hq Hex.
  pose proof (next_entry_none _ Hq Hex) as Hentry.
  split; [| split].
  - intros Hpc. exact (next_null_on_entry st Hq Hex Hpc).
  - intros Hpc.
    assert (Hstep : step L_caller st =
      Ok {| engine := engine st; worker := worker st;
            cpc := C_block_cmd (B_return None);
            trace := trace st ++
              tagged Caller [A_acquire M_search; A_release M_search] |}).
    { simpl. unfold caller_step. rewrite Hpc, next_check_entry, Hentry.
      reflexivity. }
    split; [exact Hstep |]. intros Hfree.
    eexists. split.
    + simpl run. simpl step in Hstep. rewrite Hstep.
      unfold caller_step at 2; simpl. unfold caller_step; simpl.
      rewrite Hfree. reflexivity.
    + split; [reflexivity |]. simpl.
      rewrite !returns_app. unfold tagged; simpl. now rewrite !app_nil_r.
  - unfold NULL. apply Z.eqb_eq.
Qed.

(** [statistics()] of the engine does not look at the workers. *)
Lemma engine_statistics_init (e : DfsEngine.t) :
  DfsEngine.statistics e = Statistics_init.
Proof. reflexivity. Qed.

(** C6: when [cur.status] yields a branch, a clone of [cur] is passed to
    [path.push] exactly when [d == 0] or [d >= c_d], and then [d] becomes 1;
    otherwise no clone is passed and [d] grows by 1; in both cases the
    frame is pushed and alternative 0 is committed on [cur]. *)
Theorem branch_pushes_and_commits (o : Options) (w : DfsWorker.t)
    (c c1 : Space) :
  DfsWorker.idle w = false ->
  DfsWorker.cur w = Some c ->
  Worker_stop (DfsWorker.base w) (stop o) (path_size (DfsWorker.path w)) = false ->
  status c = (SS_BRANCH, c1) ->
  0 <= DfsWorker.d w < UINT_RANGE ->
  c_d o < UINT_RANGE ->
  exists (c' : option Space) (d' : Z),
    ((DfsWorker.d w = 0 \/ c_d o <= DfsWorker.d w) /\
       c' = Some (clone true c1) /\ d' = 1
     \/
     ~ (DfsWorker.d w = 0 \/ c_d o <= DfsWorker.d w) /\
       c' = None /\ d' = DfsWorker.d w + 1) /\
    DfsWorker.work o w =
      (let '(desc, c2, p', b2) :=
         path_push (incr_node (DfsWorker.base w)) (DfsWorker.path w) c1 c' in
       ({| DfsWorker.base := Worker_push c' desc b2;
           DfsWorker.path := p';
           DfsWorker.cur := Some (commit c2 desc 0);
           DfsWorker.d := d';
           DfsWorker.idle := false |}, DfsWorker.O_loop)).
Proof.
  intros Hidle Hcur Hstop Hst Hd Hcd.
  unfold DfsWorker.work. rewrite Hidle, Hcur, Hstop, Hst.
  destruct ((DfsWorker.d w =? 0) || (c_d o <=? DfsWorker.d w)) eqn:Hsnap.
  - exists (Some (clone true c1)), 1. split; [| reflexivity].
    left. apply orb_true_iff in Hsnap. rewrite Z.eqb_eq, Z.leb_le in Hsnap. auto.
  - exists None, (DfsWorker.d w + 1). split.
    + right. apply orb_false_iff in Hsnap.
      rewrite Z.eqb_neq, Z.leb_gt in Hsnap. split; [lia | auto].
    + apply orb_false_iff in Hsnap. rewrite Z.eqb_neq, Z.leb_gt in Hsnap.
      rewrite u32_small by lia. reflexivity.
Qed.

Lemma view_lookup st i pc w :
  worker st !! i = Some (pc, w) -> view st !! i = Some (pc, DfsWorker.idle w).
Proof. intros Hw. unfold view. now rewrite list_lookup_fmap, Hw. Qed.



Lemma alternation_snoc k :
  alternation k ++ [C_WAIT; C_WORK] = alternation (S k).
Proof. induction k as [| k IH]; simpl; [reflexivity | now rewrite IH]. Qed.

Lemma cmd_writes_rounds k (l : list Action) :
  omap (fun a => match a with A_cmd c => Some c | _ => None end)
       (rounds k ++ l) =
  alternation k ++
  omap (fun a => match a with A_cmd c => Some c | _ => None end) l.
Proof.
  induction k as [| k IH]; [reflexivity |].
  change (rounds (S k)) with (round ++ rounds k).
  rewrite <- app_assoc, omap_app, IH. reflexivity.
Qed.

(** C4 (amended): in every reachable state in which the engine's thread is
    not between the two statements of [block()] or of [release()] (and
    has passed the constructor's [block()]), it holds [_m_wait] exactly
    when [_cmd] is WAIT; [block()] writes WAIT and then acquires,
    [release(c)] writes [c] and then releases, round after round; and the
    values written to [_cmd] are WAIT, WORK, WAIT, WORK, ..., closed by
    TERMINATE after a WAIT. *)
Theorem wait_lock_held_iff_waiting_outside_block_release (st : State) :
  reachable st ->
  (~ inside_block_release (cpc st) ->
   (holds_wait_lock st <-> DfsEngine._cmd (engine st) = C_WAIT)) /\
  (exists k, lock_actions (trace st) = rounds k ++ round_prefix (cpc st)) /\
  cmd_order (cmd_writes (trace st)).
Proof.
  intros Hr. destruct (Inv_reachable _ Hr) as [Hg _ _ _ _ _ _ Ht].
  split; [| split].
  - unfold lock_ok, inside_block_release, holds_wait_lock in *.
    destruct (cpc st) as [| [|] | [|] | | | | | [|] | | | |]; simpl;
      intros Hout; try (exfalso; apply Hout; exact I);
      intuition congruence.
  - exact Ht.
  - destruct Ht as [k Hk]. unfold cmd_order, cmd_writes.
    rewrite Hk, cmd_writes_rounds.
    destruct (cpc st) as [| [|] | [|] | | | | | [|] | | | |]; simpl;
      try (exists k, []; split; [reflexivity | auto]; fail);
      try (exists k, [C_WAIT]; split; [reflexivity | auto]; fail);
      try (exists k, [C_WAIT; C_TERMINATE]; split; [reflexivity | auto]; fail).
    exists (S k), []. rewrite app_nil_r. split; [apply alternation_snoc | auto].
Qed.

(** C8 (amended): every pass of a worker through [run()] under WORK on
    which the stop predicate fires leaves the worker as it is and calls
    [engine.stop()] (so a stop may be reported many times); [stop()] sets
    [has_stopped] and signals only if [signal()] held, hence not when the
    flag was already set; once the constructor has initialised it, no step
    clears [has_stopped]; [stopped()] returns the flag, and [next()]
    returns NULL when the flag is set and the solutions queue is empty. *)
Theorem stop_flag_is_sticky :
  (forall (o : Options) (w : DfsWorker.t) (c : Space),
     DfsWorker.idle w = false -> DfsWorker.cur w = Some c ->
     Worker_stop (DfsWorker.base w) (stop o) (path_size (DfsWorker.path w)) = true ->
     DfsWorker.work o w = (w, DfsWorker.O_stop)) /\
  (forall e : DfsEngine.t,
     DfsEngine.has_stopped (snd (DfsEngine.stop e)) = true /\
     (In (A_signal E_search) (fst (DfsEngine.stop e)) <->
      DfsEngine.signal e = true) /\
     (DfsEngine.has_stopped e = true ->
      DfsEngine.stop e =
        ([A_call F_stop; A_acquire M_search; A_release M_search], e))) /\
  (forall l st st',
     step l st = Ok st' -> cpc st <> C_init ->
     DfsEngine.has_stopped (engine st) = true ->
     DfsEngine.has_stopped (engine st') = true) /\
  (forall e : DfsEngine.t, DfsEngine.stopped e = DfsEngine.has_stopped e) /\
  (forall st,
     DfsEngine.has_stopped (engine st) = true ->
     DfsEngine.solutions (engine st) = [] -> cpc st = C_ready ->
     exists st', step L_next st = Ok st' /\ cpc st' = C_ready /\
                 returns (trace st') = returns (trace st) ++ [None]).
Proof.
  split; [| split; [| split; [| split]]].
  - intros o w c Hi Hc Hs. unfold DfsWorker.work. now rewrite Hi, Hc, Hs.
  - intros e. split; [apply stop_fields |]. split.
    + unfold DfsEngine.stop. destruct (DfsEngine.signal e); simpl;
        intuition discriminate.
    + intros Hs. unfold DfsEngine.stop, DfsEngine.signal. rewrite Hs.
      rewrite andb_false_r. destruct e; simpl in *. now subst.
  - intros l st st' Hs Hpc Hstopped. destruct l as [| | | i]; simpl in Hs.
    1-3: destruct (caller_step_search _ _ _ Hs) as [? | [_ ->]];
      [contradiction | exact Hstopped].
    destruct (worker_step_view _ _ _ Hs) as (x & x' & _ & _ & Heff & _).
    apply worker_effect_search in Heff.
    destruct (fst x); decomp; congruence.
  - reflexivity.
  - intros st Hs Hq Hpc.
    rewrite (next_null_on_entry st Hq (or_intror Hs) Hpc). eexists. split; [reflexivity |].
    split; [reflexivity |]. simpl. rewrite returns_app. reflexivity.
Qed.

(** C7 (amended): [find()] goes through the workers in index order,
    skipping itself and, without taking the lock, the workers that are
    idle, and calls [steal()] on each of the others until one hands over a
    space; after a successful steal it sets [idle = false] and
    [cur] to the stolen space under its own [m]; in every case, also after
    a successful steal, it sleeps 10 ms before it returns. *)
Theorem find_sleeps_before_returning (i : nat) (st st' : State)
    (pc pc' : WPc) (w w' : DfsWorker.t) :
  step (L_worker i) st = Ok st' ->
  worker st !! i = Some (pc, w) ->
  worker st' !! i = Some (pc', w') ->
  in_find pc ->
  (in_find pc' \/
   (pc = W_sleep /\ pc' = W_head /\ w' = w /\
    trace st' = trace st ++ [(Wk i, A_sleep 10)])) /\
  (forall j, pc = W_find j ->
     w' = w /\ trace st' = trace st /\
     ((pc' = W_sleep /\ (DfsEngine.workers (engine st) <= j)%nat) \/
      (pc' = W_find (S j) /\ (j < DfsEngine.workers (engine st))%nat /\
       (j = i \/ exists v, wobj st j = Some v /\ DfsWorker.idle v = true)) \/
      (pc' = W_steal j /\ (j < DfsEngine.workers (engine st))%nat /\ j <> i /\
       exists v, wobj st j = Some v /\ DfsWorker.idle v = false))) /\
  (forall j, pc = W_steal j ->
     exists v, wobj st j = Some v /\ j <> i /\
       wobj st' j = Some (snd (DfsWorker.steal v)) /\
       pc' = match fst (DfsWorker.steal v) with
             | Some s => W_busy s
             | None => W_find (S j)
             end) /\
  (forall s, pc = W_busy s -> pc' = W_take s /\ w' = w) /\
  (forall s, pc = W_take s ->
     pc' = W_sleep /\ w' = DfsWorker.take s w /\
     trace st' = trace st ++
       tagged (Wk i) [A_acquire (M_worker i); A_release (M_worker i)]).
Proof.
  intros Hs Hw Hw' Hin. simpl in Hs. unfold worker_step in Hs.
  rewrite Hw in Hs. pose proof (lookup_lt_Some _ _ _ Hw) as Hlt.
  destruct pc; try contradiction; clear Hin.
  - (* W_find *)
    rename i0 into j.
    split; [| split; [| split; [intros j0 [=] | split; intros s0 [=]]]].
    + destruct (j <? DfsEngine.workers (engine st))%nat;
        [destruct (j =? i)%nat;
         [| destruct (worker st !! j) as [[pcj v] |]; [| discriminate];
            destruct (DfsWorker.idle v)] |];
        unfold worker_goto in Hs; injection Hs as <-; simpl in Hw';
        rewrite list_lookup_insert_eq in Hw' by exact Hlt;
        injection Hw' as <- <-; left; exact I.
    + intros j0 [= <-].
      destruct (j <? DfsEngine.workers (engine st))%nat eqn:Hj.
      * apply Nat.ltb_lt in Hj. destruct (j =? i)%nat eqn:Hji.
        -- apply Nat.eqb_eq in Hji.
           unfold worker_goto in Hs; injection Hs as <-; simpl in Hw'.
           rewrite list_lookup_insert_eq in Hw' by exact Hlt.
           injection Hw' as <- <-. simpl. rewrite app_nil_r. auto 8.
        -- apply Nat.eqb_neq in Hji. unfold wobj.
           destruct (worker st !! j) as [[pcj v] |]; [| discriminate].
           destruct (DfsWorker.idle v) eqn:Hv;
             unfold worker_goto in Hs; injection Hs as <-; simpl in Hw';
             rewrite list_lookup_insert_eq in Hw' by exact Hlt;
             injection Hw' as <- <-; simpl; rewrite app_nil_r;
             (split; [reflexivity |]); (split; [reflexivity |]).
           ++ right; left. eauto 8.
           ++ right; right. eauto 8.
      * apply Nat.ltb_ge in Hj.
        unfold worker_goto in Hs; injection Hs as <-; simpl in Hw'.
        rewrite list_lookup_insert_eq in Hw' by exact Hlt.
        injection Hw' as <- <-. simpl. rewrite app_nil_r. auto 8.
  - (* W_steal *)
    rename i0 into j.
    destruct (j =? i)%nat eqn:Hji; [discriminate |]. apply Nat.eqb_neq in Hji.
    destruct (worker st !! j) as [[pcj v] |] eqn:Hv; [| discriminate].
    pose proof (lookup_lt_Some _ _ _ Hv) as Hltj.
    destruct (DfsWorker.steal v) as [r v'] eqn:Hsteal.
    injection Hs as <-. simpl in Hw'.
    rewrite list_lookup_insert_eq in Hw' by (now rewrite length_insert).
    injection Hw' as <- <-.
    split; [destruct r; left; exact I |].
    split; [intros j0 [=] |].
    split; [| split; intros s0 [=]].
    intros j0 [= <-]. exists v. unfold wobj. rewrite Hv.
    split; [reflexivity |]. split; [exact Hji |]. simpl.
    rewrite list_lookup_insert_ne by auto.
    rewrite list_lookup_insert_eq by exact Hltj. rewrite Hsteal. auto.
  - (* W_busy *)
    destruct (DfsEngine.busy (engine st)) as [[acts e'] |]; [| discriminate].
    unfold worker_goto in Hs. injection Hs as <-. simpl in Hw'.
    rewrite list_lookup_insert_eq in Hw' by exact Hlt. injection Hw' as <- <-.
    split; [left; exact I |].
    split; [intros j [=] |]. split; [intros j [=] |].
    split; [intros s0 [= <-]; auto | intros s0 [=]].
  - (* W_take *)
    unfold worker_goto in Hs. injection Hs as <-. simpl in Hw'.
    rewrite list_lookup_insert_eq in Hw' by exact Hlt. injection Hw' as <- <-.
    split; [left; exact I |].
    split; [intros j [=] |]. split; [intros j [=] |].
    split; [intros s0 [=] | intros s0 [= <-]; auto].
  - (* W_sleep *)
    unfold worker_goto in Hs. injection Hs as <-. simpl in Hw'.
    rewrite list_lookup_insert_eq in Hw' by exact Hlt. injection Hw' as <- <-.
    split; [right; auto |].
    split; [intros j [=] |]. split; [intros j [=] |].
    split; intros s0 [=].
Qed.

(** The loop that creates the threads, lines 257-258. *)
Lemma thread_step (e : DfsEngine.t) (pre suf : list (WPc * DfsWorker.t))
    (x : WPc * DfsWorker.t) (tr : list (Tid * Action)) :
  caller_step L_caller
    {| engine := e; worker := pre ++ x :: suf; cpc := C_threads (length pre);
       trace := tr |} =
  Ok {| engine := e; worker := pre ++ start_thread x :: suf;
        cpc := if (S (length pre) <? DfsEngine.workers e)%nat
               then C_threads (S (length pre)) else C_init;
        trace := tr ++ tagged Caller [A_thread (length pre)] |}.
Proof.
  unfold caller_step. simpl.
  rewrite list_lookup_middle by reflexivity.
  rewrite insert_app_r_alt, Nat.sub_diag by reflexivity. reflexivity.
Qed.

Lemma thread_loop (e : DfsEngine.t) (suf pre : list (WPc * DfsWorker.t))
    (tr : list (Tid * Action)) :
  suf <> [] ->
  DfsEngine.workers e = (length pre + length suf)%nat ->
  run (replicate (length suf) L_caller)
      {| engine := e; worker := pre ++ suf; cpc := C_threads (length pre);
         trace := tr |} =
  Some {| engine := e; worker := pre ++ (start_thread <$> suf); cpc := C_init;
          trace := tr ++ tagged Caller
                           (map A_thread (seq (length pre) (length suf))) |}.
Proof.
  revert pre tr. induction suf as [| x suf IH]; intros pre tr Hne Hn;
    [congruence |].
  cbn [length replicate run step]. rewrite thread_step.
  destruct suf as [| y suf].
  - replace (S (length pre) <? DfsEngine.workers e)%nat with false
      by (symmetry; apply Nat.ltb_ge; simpl in Hn; lia).
    reflexivity.
  - replace (S (length pre) <? DfsEngine.workers e)%nat with true
      by (symmetry; apply Nat.ltb_lt; simpl in Hn; lia).
    specialize (IH (pre ++ [start_thread x])
                   (tr ++ tagged Caller [A_thread (length pre)])).
    rewrite length_app in IH.
    change (length [start_thread x]) with 1%nat in IH.
    replace (length pre + 1)%nat with (S (length pre)) in IH by lia.
    rewrite <- !app_assoc in IH. cbn [app] in IH.
    rewrite IH; [reflexivity | discriminate | cbn [length] in *; lia].
Qed.

Lemma tagged_app t (l1 l2 : list Action) :
  tagged t (l1 ++ l2) = tagged t l1 ++ tagged t l2.
Proof. apply map_app. Qed.

Lemma constructor_blocks (s : Space) (sz : Z) (o : Options)
    (g_cmd : Cmd) (g_not_terminated g_busy : Z) (g_stopped : bool) :
  1 <= threads o ->
  run [L_caller; L_caller; L_caller]
      (init s sz o g_cmd g_not_terminated g_busy g_stopped) =
  Some {| engine :=
            {| DfsEngine._opt := o; DfsEngine._cmd := C_WAIT;
               DfsEngine._m_wait := Some Caller;
               DfsEngine._n_not_terminated := g_not_terminated;
               DfsEngine._e_terminate := false; DfsEngine.e_search := false;
               DfsEngine.solutions := []; DfsEngine.n_busy := g_busy;
               DfsEngine.has_stopped := g_stopped |};
          worker := (W_unstarted, DfsWorker.new (Some s) sz o)
                    :: replicate (Z.to_nat (threads o) - 1)
                         (W_unstarted, DfsWorker.new None sz o);
          cpc := C_threads 0;
          trace := tagged Caller
            ((A_new_worker 0 true
              :: map (fun i => A_new_worker i false)
                     (seq 1 (Z.to_nat (threads o) - 1))) ++
             [A_cmd C_WAIT; A_acquire M_wait]) |}.
Proof.
  intros Hn. unfold init. cbn [run step]. unfold caller_step at 1.
  cbn [cpc engine DfsEngine.raw DfsEngine.opt DfsEngine._opt].
  replace (1 <=? threads o) with true by (symmetry; now apply Z.leb_le).
  unfold caller_step at 1. cbn [cpc]. unfold caller_goto.
  unfold caller_step at 1. cbn [cpc engine worker trace].
  cbn [DfsEngine.set_cmd DfsEngine._m_wait]. unfold caller_goto.
  cbn [after_block fst snd engine worker trace DfsEngine.workers DfsEngine.opt
       DfsEngine._opt DfsEngine.set_cmd DfsEngine.set_m_wait DfsEngine._cmd
       DfsEngine._m_wait DfsEngine._n_not_terminated DfsEngine._e_terminate
       DfsEngine.e_search DfsEngine.solutions DfsEngine.n_busy
       DfsEngine.has_stopped].
  unfold tagged. simpl. rewrite ?map_app, <- ?app_assoc. reflexivity.
Qed.


(** C5 (amended): the constructor allocates the N workers, worker 0 from
    the root and the others without a space, then [block()] sets
    [_cmd = WAIT] and acquires [_m_wait], then the N threads are created
    and started, and only after that [_n_not_terminated = N],
    [n_busy = N] and [has_stopped = false] are set: this is the state and
    the trace the constructor leaves when run on its own, and in every
    reachable state the actions of the engine's thread begin with the
    part of that sequence done so far. *)
Theorem constructor_order (s : Space) (sz : Z) (o : Options)
    (g_cmd : Cmd) (g_not_terminated g_busy : Z) (g_stopped : bool) :
  1 <= threads o ->
  run (replicate (Z.to_nat (threads o) + 4) L_caller)
      (init s sz o g_cmd g_not_terminated g_busy g_stopped) =
  Some (constructed s sz o) /\
  (forall st,
     reachable st ->
     exists rest,
       actions_of Caller (trace st) =
         constructor_done (DfsEngine.workers (engine st)) (cpc st) ++ rest /\
       (in_ctor (cpc st) -> rest = [])).
Proof.
  intros Hn. split.
  2: { intros st Hr. destruct (ctor_trace_reachable st Hr) as (rest & ? & ? & _).
       exists rest. auto. }
  set (n := Z.to_nat (threads o)).
  assert (Hn1 : (1 <= n)%nat) by (unfold n; lia).
  replace (replicate (n + 4) L_caller)
    with ([L_caller; L_caller; L_caller] ++ replicate n L_caller ++ [L_caller]).
  2: { replace (n + 4)%nat with (3 + (n + 1))%nat by lia.
       rewrite (replicate_add 3), replicate_add. reflexivity. }
  rewrite run_app, (constructor_blocks _ _ _ _ _ _ _ Hn). fold n.
  cbn [mbind option_bind]. rewrite run_app.
  pose proof (thread_loop
    {| DfsEngine._opt := o; DfsEngine._cmd := C_WAIT;
       DfsEngine._m_wait := Some Caller;
       DfsEngine._n_not_terminated := g_not_terminated;
       DfsEngine._e_terminate := false; DfsEngine.e_search := false;
       DfsEngine.solutions := []; DfsEngine.n_busy := g_busy;
       DfsEngine.has_stopped := g_stopped |}
    ((W_unstarted, DfsWorker.new (Some s) sz o)
     :: replicate (n - 1) (W_unstarted, DfsWorker.new None sz o)) []
    (tagged Caller
       ((A_new_worker 0 true
         :: map (fun i => A_new_worker i false) (seq 1 (n - 1))) ++
        [A_cmd C_WAIT; A_acquire M_wait]))) as Hloop.
  cbn [length] in Hloop. rewrite length_replicate in Hloop.
  replace (S (n - 1)) with n in Hloop by lia.
  rewrite !app_nil_l in Hloop. fold n in Hloop |- *.
  rewrite Hloop; [| discriminate | reflexivity].
  cbn [mbind option_bind run step]. unfold caller_step. cbn [cpc].
  unfold caller_goto, constructed. fold n. cbn [engine worker trace].
  rewrite fmap_cons, fmap_replicate. unfold start_thread at 1 2. cbn [snd].
  unfold constructor_actions. rewrite !tagged_app, <- !app_assoc.
  reflexivity.
Qed.
End properties.

(** * The properties on concrete runs *)

Section concrete.
Import Toy Scenario.

Lemma start_reachable (root : Tree) (o : Options) :
  0 <= threads o < UINT_RANGE -> reachable (start root o).
Proof.
  intros Hn. apply reachable_init. unfold initial, start. eauto 10.
Qed.

(** An engine between two calls with an empty queue and no busy worker:
    [next()] returns NULL. *)
Lemma next_returns_null_witness :
  exists st',
    step L_next (between_calls 0 false) = Ok st' /\
    returns (trace st') = [None].
Proof.
  destruct (next_returns_null_when_exhausted_or_stopped
              (between_calls 0 false) eq_refl (or_introl eq_refl))
    as [Hnext _].
  rewrite (Hnext eq_refl). eexists. split; reflexivity.
Defined.

(** The last busy worker reports idle: [signal()] held and [n_busy]
    becomes 0. *)
Lemma signal_only_when_needed_witness :
  DfsEngine.signal (engine (between_calls 1 false)) = true /\
  DfsEngine.n_busy
    (snd (DfsEngine.report DfsEngine.R_idle (engine (between_calls 1 false)))) = 0.
Proof.
  destruct (signal_only_when_needed DfsEngine.R_idle
              (engine (between_calls 1 false))) as [Hs Hz].
  - vm_compute. auto.
  - split; [exact Hs | exact (Hz eq_refl)].
Defined.

(** C2: with one worker and a root that is failed, after the first
    [next()] has returned NULL the worker has counted one failure, but
    [statistics()] of the engine, which returns a fresh [Statistics]
    object whatever the workers did, reports none. *)
Theorem statistics_ignores_the_workers :
  run failed_root (start Failed one_worker) = Some after_failed_root /\
  returns (trace after_failed_root) = [None] /\
  DfsEngine.stopped (engine after_failed_root) = false /\
  fail (sum_statistics after_failed_root) = 1 /\
  fail (DfsEngine.statistics (engine after_failed_root)) = 0.
Proof. vm_compute. auto. Qed.

(** While the engine's thread is between the two statements of the last
    [block()], [_cmd] is WAIT and worker 0 holds [_m_wait]. *)
Lemma wait_lock_not_held_while_waiting :
  exists st,
    run passing_wait (start Failed one_worker) = Some st /\
    reachable st /\
    DfsEngine._cmd (engine st) = C_WAIT /\
    DfsEngine._m_wait (engine st) = Some (Wk 0) /\
    cpc st = C_block_acquire (B_return None) /\
    ~ (holds_wait_lock st <-> DfsEngine._cmd (engine st) = C_WAIT).
Proof.
  eexists. split; [vm_compute; reflexivity |].
  split.
  - apply (run_reachable passing_wait (start Failed one_worker)).
    + apply start_reachable. vm_compute. split; [discriminate | reflexivity].
    + vm_compute. reflexivity.
  - unfold holds_wait_lock. simpl.
    repeat split; auto. intros [_ Himp]. specialize (Himp eq_refl). discriminate.
Qed.

(** After the run with the unsatisfiable root the engine is between two
    calls, holds [_m_wait], and [_cmd] is WAIT. *)
Lemma wait_lock_witness :
  holds_wait_lock after_failed_root <->
  DfsEngine._cmd (engine after_failed_root) = C_WAIT.
Proof.
  apply (wait_lock_held_iff_waiting_outside_block_release after_failed_root).
  - apply (run_reachable failed_root (start Failed one_worker)).
    + apply start_reachable. vm_compute. split; [discriminate | reflexivity].
    + vm_compute. reflexivity.
  - intros [].
Defined.

(** The thread of worker 0 has been started and has taken a step, while
    [n_busy] and [has_stopped] still hold what the memory held. *)
Lemma threads_run_before_search_state_is_set :
  exists st,
    run threads_before_init (start Failed one_worker) = Some st /\
    wpc st 0 = Some W_wait_acquire /\
    actions_of Caller (trace st) =
      [A_new_worker 0 true; A_cmd C_WAIT; A_acquire M_wait; A_thread 0] /\
    cpc st = C_init /\
    DfsEngine.n_busy (engine st) = 7 /\
    DfsEngine.n_busy (engine st) <> Z.of_nat (DfsEngine.workers (engine st)) /\
    DfsEngine.has_stopped (engine st) = true.
Proof.
  eexists. split; [vm_compute; reflexivity |].
  vm_compute. repeat split; auto; discriminate.
Qed.

(** The constructor with one worker. *)
Lemma constructor_order_witness :
  run (construct 1) (start Failed one_worker) =
  Some (constructed Failed 0 one_worker).
Proof.
  destruct (@constructor_order space support Failed 0 one_worker C_WORK 7 7 true)
    as [Hrun _]; [simpl; lia | exact Hrun].
Defined.

(** The first pass of worker 0 over the root [two_leaves]: [d] is 0, so
    the root is cloned into the frame and [d] becomes 1. *)
Lemma branch_pushes_and_commits_witness :
  DfsWorker.work one_worker at_branch =
  ({| DfsWorker.base := incr_node Statistics_init;
      DfsWorker.path :=
        [{| desc := [Solved; Solved]; snap := Some two_leaves;
            next_alt := 1; steal_alt := 1 |}];
      DfsWorker.cur := Some Solved; DfsWorker.d := 1;
      DfsWorker.idle := false |}, DfsWorker.O_loop).
Proof.
  destruct (branch_pushes_and_commits one_worker at_branch two_leaves two_leaves)
    as (c' & d' & [(_ & -> & ->) | (Hno & _)] & Hwork).
  - reflexivity.
  - reflexivity.
  - reflexivity.
  - reflexivity.
  - simpl. unfold UINT_RANGE. lia.
  - simpl. unfold UINT_RANGE. lia.
  - exact Hwork.
  - exfalso. apply Hno. left. reflexivity.
Defined.

(** Worker 1 steals the second leaf from worker 0, adopts it, and then
    sleeps before it returns from [find()]. *)
Lemma find_sleeps_after_successful_steal :
  exists st pre,
    run stealing (start two_leaves two_workers) = Some st /\
    actions_of (Wk 1) (trace st) =
      pre ++ [A_acquire (M_worker 0); A_release (M_worker 0);
              A_call F_busy; A_acquire M_search; A_release M_search;
              A_acquire (M_worker 1); A_release (M_worker 1);
              A_sleep 10] /\
    wpc st 1 = Some W_head /\
    (DfsWorker.cur <$> wobj st 1) = Some (Some Solved) /\
    (DfsWorker.idle <$> wobj st 1) = Some false.
Proof.
  eexists.
  exists [A_acquire (M_worker 1); A_release (M_worker 1); A_call F_idle;
          A_acquire M_search; A_release M_search;
          A_acquire (M_worker 1); A_release (M_worker 1);
          A_acquire (M_worker 1); A_release (M_worker 1)].
  split; [vm_compute; reflexivity |]. vm_compute. auto.
Qed.

(** The last step of that [find()]. *)
Lemma find_sleeps_witness :
  step (L_worker 1) before_sleep = Ok after_sleep /\
  trace after_sleep = trace before_sleep ++ [(Wk 1, A_sleep 10)].
Proof.
  assert (Hs : step (L_worker 1) before_sleep = Ok after_sleep)
    by (vm_compute; reflexivity).
  split; [exact Hs |].
  edestruct (@find_sleeps_before_returning space support 1 before_sleep
               after_sleep W_sleep W_head)
    as [[Hin | (_ & _ & _ & Htr)] _];
    [ exact Hs | vm_compute; reflexivity | vm_compute; reflexivity | exact I
    | destruct Hin | exact Htr ].
Defined.

(** With a stop predicate that always fires, worker 0 calls
    [engine.stop()] twice before the engine's thread wakes up. *)
Lemma stop_reported_twice :
  exists st,
    run stopping_twice (start Solved always_stop) = Some st /\
    calls F_stop (trace st) = 2%nat /\
    cpc st = C_wait.
Proof. eexists. split; [vm_compute; reflexivity |]. vm_compute. auto. Qed.

(** A second [stop()] changes nothing and does not signal. *)
Lemma stop_flag_is_sticky_witness :
  DfsEngine.stop (DfsEngine.set_has_stopped true (engine (between_calls 1 false))) =
  ([A_call F_stop; A_acquire M_search; A_release M_search],
   DfsEngine.set_has_stopped true (engine (between_calls 1 false))).
Proof.
  destruct stop_flag_is_sticky as (_ & Hstop & _).
  destruct (Hstop (DfsEngine.set_has_stopped true (engine (between_calls 1 false))))
    as (_ & _ & Hdup).
  exact (Hdup eq_refl).
Defined.


End concrete.

(** * Further properties of the runs *)

(** Case analysis on what an engine function returned. *)
Ltac open_engine :=
  repeat match goal with
         | Heq : DfsEngine.stop _ = _ |- _ =>
             unfold DfsEngine.stop in Heq; break_step Heq;
             injection Heq as <- <-
         | Heq : DfsEngine.solution _ _ = _ |- _ =>
             unfold DfsEngine.solution in Heq; break_step Heq;
             injection Heq as <- <-
         | Heq : DfsEngine.idle _ = _ |- _ =>
             unfold DfsEngine.idle in Heq; break_step Heq;
             injection Heq as <- <-
         | Heq : DfsEngine.busy _ = _ |- _ =>
             unfold DfsEngine.busy in Heq; break_step Heq;
             injection Heq as <- <-
         | Heq : DfsEngine.terminated _ = _ |- _ =>
             unfold DfsEngine.terminated in Heq; break_step Heq;
             injection Heq as <- <-
         end.

Ltac split_kont :=
  repeat match goal with
         | k : AfterBlock |- _ => destruct k
         | k : AfterRelease |- _ => destruct k
         | r : option Space |- _ => destruct r
         end.

Section solutions.
Context `{SearchSupport}.

Lemma somes_app (l1 l2 : list (option Space)) :
  somes (l1 ++ l2) = somes l1 ++ somes l2.
Proof. apply omap_app. Qed.

(** One step adds to the solutions handed over exactly what it reports. *)
Lemma handed_step l st st' :
  step l st = Ok st' -> handed st' = handed st ++ reports l st.
Proof.
  unfold handed. intros Hs. destruct l as [| | | i]; simpl in Hs.
  1-3: caller_cases Hs; rewrite returns_app, somes_app; split_kont;
    rewrite ?returns_new_workers'; decomp; subst; unfold tagged; simpl;
    rewrite ?app_nil_r, <- ?app_assoc; try reflexivity;
    try match goal with Hq : DfsEngine.solutions _ = _ |- _ => rewrite Hq end;
    try reflexivity; try discriminate.
  unfold reports. worker_cases Hs; open_engine; rewrite returns_app;
    unfold tagged; simpl; rewrite ?app_nil_r, <- ?app_assoc; reflexivity.
Qed.

End solutions.

(** ** The workers' objects step by step *)

Section raw_steps.
Context `{SearchSupport}.

Lemma handed_run ls st st' :
  run ls st = Some st' -> handed st' = handed st ++ reported ls st.
Proof.
  revert st. induction ls as [| l ls IH]; intros st; simpl.
  - intros [= <-]. now rewrite app_nil_r.
  - destruct (step l st) as [| | st1] eqn:Hs; try discriminate.
    intros Hr. rewrite (IH _ Hr), (handed_step _ _ _ Hs).
    now rewrite app_assoc.
Qed.

(** What a step of worker [i] does to the worker objects. *)
Lemma worker_step_raw i st st' :
  worker_step i st = Ok st' ->
  exists pc w pc' w' ws,
    worker st !! i = Some (pc, w) /\
    worker st' = <[i := (pc', w')]> ws /\
    (ws = worker st \/
     exists j pcj v, pc = W_steal j /\ j <> i /\
       worker st !! j = Some (pcj, v) /\
       ws = <[j := (pcj, snd (DfsWorker.steal v))]> (worker st)) /\
    DfsEngine._opt (engine st') = DfsEngine._opt (engine st) /\
    cpc st' = cpc st /\
    match pc with
    | W_unstarted | W_exit => False
    | W_work =>
        exists out,
          DfsWorker.work (DfsEngine._opt (engine st)) w = (w', out) /\
          pc' = after_work out
    | W_reacquire => w' = DfsWorker.reacquire w /\ pc' = W_head
    | W_take s => w' = DfsWorker.take s w /\ pc' = W_sleep
    | W_find j =>
        w' = w /\
        (pc' = W_find (S j) \/ pc' = W_sleep \/
         (pc' = W_steal j /\ (j < length (worker st))%nat /\ j <> i))
    | W_steal j => w' = w /\ (pc' = W_find (S j) \/ exists s, pc' = W_busy s)
    | W_stop | W_solution _ | W_sleep | W_wait_release => w' = w /\ pc' = W_head
    | W_head =>
        w' = w /\ (pc' = W_wait_acquire \/ pc' = W_terminate \/ pc' = W_work)
    | W_wait_acquire => w' = w /\ pc' = W_wait_release
    | W_terminate => w' = w /\ pc' = W_exit
    | W_idle => w' = w /\ pc' = W_reacquire
    | W_busy s => w' = w /\ pc' = W_take s
    end.
Proof.
  intros Hs.
  worker_cases Hs; open_engine;
    try (eexists _, _, _, _, _; split; [reflexivity |];
         split; [reflexivity |]; split; [left; reflexivity |];
         split; [reflexivity |]; split; [reflexivity |]; simpl; eauto 6; fail).
  - (* W_find, moving on to [steal()] *)
    eexists _, _, _, _, _; split; [reflexivity |].
    split; [reflexivity |]. split; [left; reflexivity |].
    split; [reflexivity |]. split; [reflexivity |]. split; [reflexivity |].
    right; right. apply Nat.eqb_neq in Heqb0.
    split; [reflexivity |]. split; [| exact Heqb0].
    eapply lookup_lt_Some; eauto.
  - (* W_steal, success *)
    apply Nat.eqb_neq in Heqb.
    eexists _, _, _, _, _; split; [reflexivity |].
    split; [reflexivity |]. split.
    + right. eexists _, _, _. split; [reflexivity |]. split; [exact Heqb |].
      split; [exact Heqo0 |]. rewrite Heqp2. reflexivity.
    + split; [reflexivity |]. split; [reflexivity |]. eauto.
  - (* W_steal, nothing *)
    apply Nat.eqb_neq in Heqb.
    eexists _, _, _, _, _; split; [reflexivity |].
    split; [reflexivity |]. split.
    + right. eexists _, _, _. split; [reflexivity |]. split; [exact Heqb |].
      split; [exact Heqo0 |]. rewrite Heqp2. reflexivity.
    + split; [reflexivity |]. split; [reflexivity |]. eauto.
Qed.

(** What a step of the engine's thread does to the worker objects. *)
Lemma caller_step_raw l st st' :
  caller_step l st = Ok st' ->
  DfsEngine._opt (engine st') = DfsEngine._opt (engine st) /\
  (worker st' = worker st \/
   (exists s sz, cpc st = C_new s sz /\
      worker st' =
        (W_unstarted, DfsWorker.new (Some s) sz (DfsEngine._opt (engine st)))
        :: replicate (DfsEngine.workers (engine st) - 1)
             (W_unstarted, DfsWorker.new None sz (DfsEngine._opt (engine st)))) \/
   (exists i pc w, cpc st = C_threads i /\ worker st !! i = Some (pc, w) /\
      worker st' = <[i := (W_head, w)]> (worker st))).
Proof.
  intros Hs. split; [exact (caller_step_opt _ _ _ Hs) |].
  caller_cases Hs; auto.
  - right; left. eauto.
  - right; right. destruct p as [pc w]. eauto 6.
  - right; right. destruct p as [pc w]. eauto 6.
Qed.

Lemma work_ok (o : Options) (w w' : DfsWorker.t) (out : DfsWorker.Outcome) :
  DfsWorker.work o w = (w', out) ->
  (DfsWorker.idle w = true -> DfsWorker.cur w = None) ->
  (DfsWorker.idle w' = true -> DfsWorker.cur w' = None) /\
  match out with
  | DfsWorker.O_stop => DfsWorker.idle w' = false /\ stop o <> None
  | DfsWorker.O_solution s => DfsWorker.idle w' = false /\ solved_clone s
  | _ => True
  end.
Proof.
  unfold DfsWorker.work. intros Hw Hi.
  destruct (DfsWorker.idle w) eqn:Hidle.
  - injection Hw as <- <-. auto.
  - destruct (DfsWorker.cur w) as [c |] eqn:Hcur.
    + destruct (Worker_stop _ _ _) eqn:Hstop.
      * injection Hw as <- <-. split; [congruence |]. split; [auto |].
        unfold Worker_stop in Hstop. destruct (stop o); congruence.
      * destruct (status c) as [[] c1] eqn:Hst.
        -- injection Hw as <- <-. simpl. auto.
        -- destruct (description c1) as [bd c2] eqn:Hd.
           injection Hw as <- <-. simpl. split; [auto |].
           split; [auto |]. exists c, c1, c2, bd. auto.
        -- destruct (if _ : bool then _ else _) as [c' d'].
           destruct (path_push _ _ _ _) as [[[? ?] ?] ?].
           injection Hw as <- <-. simpl. split; [congruence | exact I].
    + destruct (path_next _ _) as [[more p'] b1]. destruct more.
      * destruct (path_recompute _ _ _ _) as [[[? ?] ?] ?].
        injection Hw as <- <-. simpl. split; [congruence | exact I].
      * injection Hw as <- <-. simpl. auto.
Qed.

Lemma steal_fields (v : DfsWorker.t) :
  DfsWorker.idle (snd (DfsWorker.steal v)) = DfsWorker.idle v /\
  DfsWorker.cur (snd (DfsWorker.steal v)) = DfsWorker.cur v.
Proof. unfold DfsWorker.steal. destruct (path_steal _). auto. Qed.

End raw_steps.

Section worker_objects.
Context `{SearchSupport}.

Lemma worker_ok_worker_step i st st' :
  worker_ok st -> worker_step i st = Ok st' -> worker_ok st'.
Proof.
  intros Hok Hs.
  destruct (worker_step_raw _ _ _ Hs)
    as (pc & w & pc' & w' & ws & Hi & Hw' & Hws & Hopt & _ & Hcase).
  assert (Hlen : length (worker st') = length (worker st)).
  { rewrite Hw', length_insert.
    destruct Hws as [-> | (j & pcj & v & _ & _ & _ & ->)];
      [reflexivity | apply length_insert]. }
  assert (Hothers : forall k pck wk, k <> i ->
            ws !! k = Some (pck, wk) ->
            exists wk0, worker st !! k = Some (pck, wk0) /\
              DfsWorker.idle wk = DfsWorker.idle wk0 /\
              DfsWorker.cur wk = DfsWorker.cur wk0).
  { intros k pck wk Hne Hk.
    destruct Hws as [-> | (j & pcj & v & _ & _ & Hj & ->)]; [eauto |].
    apply list_lookup_insert_Some in Hk as [(<- & [= <- <-] & _) | (_ & Hk)];
      [| eauto].
    exists v. split; [exact Hj |]. apply steal_fields. }
  intros k pck wk Hk. rewrite Hlen, Hopt. rewrite Hw' in Hk.
  apply list_lookup_insert_Some in Hk as [(<- & [= <- <-] & _) | (Hne & Hk)].
  - destruct (Hok _ _ _ Hi) as [Hidle Hat].
    clear Hws Hothers Hw'.
    destruct pc; simpl in Hcase; try contradiction;
      try (destruct Hcase as (out & Hwork & ->);
           destruct (work_ok _ _ _ _ Hwork Hidle) as [Hidle' Hout];
           split; [exact Hidle' |]; destruct out; simpl; auto; fail);
      decomp; subst; simpl;
      (split; [first [assumption | discriminate] | auto]).
  - destruct (Hothers _ _ _ (not_eq_sym Hne) Hk) as (wk0 & Hk0 & Hidle & Hcur).
    destruct (Hok _ _ _ Hk0) as [Hidle0 Hat]. rewrite Hidle, Hcur.
    split; [exact Hidle0 |]. destruct pck; auto.
Qed.

Lemma worker_ok_caller_step l st st' :
  worker_ok st -> caller_step l st = Ok st' -> worker_ok st'.
Proof.
  intros Hok Hs.
  destruct (caller_step_raw _ _ _ Hs)
    as [Hopt [Hw | [(s & sz & _ & Hw) | (i & pc & w & _ & Hi & Hw)]]];
    intros k pck wk Hk; rewrite Hopt; rewrite Hw in Hk; rewrite Hw.
  - exact (Hok _ _ _ Hk).
  - assert (Hnew : pck = W_unstarted /\ DfsWorker.idle wk = false).
    { destruct k as [| k]; simpl in Hk.
      - injection Hk as <- <-. split; [reflexivity | apply new_idle].
      - apply lookup_replicate in Hk as [[= -> ->] _].
        split; [reflexivity | apply new_idle]. }
    destruct Hnew as [-> Hidle]. split; [congruence | exact I].
  - rewrite length_insert.
    apply list_lookup_insert_Some in Hk as [(<- & [= <- <-] & _) | (_ & Hk)].
    + split; [apply (Hok _ _ _ Hi) | exact I].
    + exact (Hok _ _ _ Hk).
Qed.

Lemma worker_ok_reachable st : reachable st -> worker_ok st.
Proof.
  induction 1 as [st Hinit | l st st' _ IH Hs].
  - destruct Hinit as (s & sz & o & g1 & g2 & g3 & g4 & _ & ->).
    intros k pc w Hk. discriminate.
  - destruct l; simpl in Hs;
      eauto using worker_ok_caller_step, worker_ok_worker_step.
Qed.

Lemma handed_sound_reachable st :
  reachable st -> Forall solved_clone (handed st).
Proof.
  induction 1 as [st Hinit | l st st' Hr IH Hs].
  - destruct Hinit as (s & sz & o & g1 & g2 & g3 & g4 & _ & ->).
    apply Forall_nil_2.
  - rewrite (handed_step _ _ _ Hs). apply Forall_app. split; [exact IH |].
    destruct l as [| | | i]; simpl; try apply Forall_nil_2.
    destruct (worker st !! i) as [[pc w] |] eqn:Hi; [| apply Forall_nil_2].
    destruct pc; try apply Forall_nil_2.
    apply Forall_singleton. apply (worker_ok_reachable _ Hr _ _ _ Hi).
Qed.
End worker_objects.

(** ** The phases of the engine's thread and of the workers *)

Section phases.
Context `{SearchSupport}.

(** Where a step of a worker can lead its thread. *)
Lemma worker_effect_pc i x x' e e' :
  worker_effect i x x' e e' ->
  fst x <> W_unstarted /\ fst x <> W_exit /\ fst x' <> W_unstarted /\
  (fst x' = W_terminate -> fst x = W_head /\ DfsEngine._cmd e = C_TERMINATE) /\
  (fst x' = W_exit -> fst x = W_terminate) /\
  (fst x' = W_wait_release -> fst x = W_wait_acquire) /\
  (fst x = W_terminate -> fst x' = W_exit).
Proof.
  unfold worker_effect. destruct x as [pc b], x' as [pc' b'].
  destruct pc; simpl; intros Heff; decomp; simplify_eq; simpl in *; subst;
    repeat split; try congruence; try (intros; congruence).
Qed.

(** TERMINATE is in [_cmd] only while the destructor runs (or before the
    constructor has written [_cmd], when no thread exists). *)
Lemma terminate_in_dtor st :
  lock_ok st -> DfsEngine._cmd (engine st) = C_TERMINATE ->
  in_dtor (cpc st) \/
  (exists s sz, cpc st = C_new s sz) \/ cpc st = C_block_cmd B_ctor.
Proof.
  unfold lock_ok.
  destruct (cpc st) as [| [|] | [|] | | | | | [|] | | | |]; simpl;
    intros Hg Hc; decomp; try congruence; eauto.
Qed.

Lemma caller_step_dtor l st st' :
  caller_step l st = Ok st' -> in_dtor (cpc st) -> in_dtor (cpc st').
Proof.
  intros Hs. caller_cases Hs; split_kont; simpl; auto.
Qed.

(** What a step of the engine's thread does to the workers, by the
    point it is taken from. *)
Lemma caller_step_workers l st st' :
  caller_step l st = Ok st' ->
  (view st' = view st /\ (forall s sz, cpc st <> C_new s sz) /\
   (forall i, cpc st <> C_threads i)) \/
  (exists s sz, cpc st = C_new s sz /\ cpc st' = C_block_cmd B_ctor /\
     view st' = replicate (DfsEngine.workers (engine st)) (W_unstarted, false)) \/
  (exists i x, cpc st = C_threads i /\ view st !! i = Some x /\
     view st' = <[i := (W_head, snd x)]> (view st) /\
     cpc st' = if (S i <? DfsEngine.workers (engine st))%nat
               then C_threads (S i) else C_init).
Proof.
  intros Hs. unfold view. caller_cases Hs;
    try (left; split; [reflexivity | split; congruence]).
  - right; left. exists s, sz. split; [reflexivity |]. split; [reflexivity |].
    apply Z.leb_le in Heqb.
    rewrite view_new. f_equal. unfold DfsEngine.workers, DfsEngine.opt in *. lia.
  - right; right. exists i, (view_of p). split; [reflexivity |].
    rewrite list_lookup_fmap, Heqo. split; [reflexivity |].
    rewrite list_fmap_insert, Heqb. auto.
  - right; right. exists i, (view_of p). split; [reflexivity |].
    rewrite list_lookup_fmap, Heqo. split; [reflexivity |].
    rewrite list_fmap_insert, Heqb. auto.
Qed.

Lemma phase_ok_worker_step i st st' :
  Inv st -> phase_ok st -> worker_step i st = Ok st' -> phase_ok st'.
Proof.
  intros [Hg _ Hc _ _ _ _ _] Hp Hs.
  destruct (worker_step_view _ _ _ Hs) as (x & x' & Hl & Hv & Heff & Hpc).
  pose proof (no_worker_runs_early _ _ _ _ _ Hc Hg Hl Heff) as Hearly.
  pose proof (worker_effect_pc _ _ _ _ _ Heff)
    as (Hx1 & Hx2 & Hx3 & Hterm & Hexit & _).
  intros k y Hk. rewrite Hv in Hk. rewrite Hpc.
  apply list_lookup_insert_Some in Hk as [(<- & <- & _) | (_ & Hk)];
    [| exact (Hp _ _ Hk)].
  destruct (Hp _ _ Hl) as [Hp1 Hp2]. split.
  - destruct (cpc st) as [| [|] | [|] | | | | | | | | |]; try exact I;
      try exact Hx3.
    destruct Hearly as [-> ->]. simpl in *.
    split; [discriminate |]. intros Hle. apply Hp1 in Hle. discriminate.
  - intros [Ht | He].
    + destruct (Hterm Ht) as [_ Hcmd].
      destruct (terminate_in_dtor _ Hg Hcmd) as [Hd | [(s & sz & Hn) | Hn]];
        [exact Hd | |]; rewrite Hn in Hearly; destruct Hearly.
    + apply Hp2. left. exact (Hexit He).
Qed.

Lemma phase_ok_caller_step l st st' :
  Inv st -> phase_ok st -> caller_step l st = Ok st' -> phase_ok st'.
Proof.
  intros [Hg _ Hc [_ Hz] _ _ _ _] Hp Hs.
  pose proof (caller_step_dtor _ _ _ Hs) as Hdtor.
  intros k x Hk.
  destruct (caller_step_workers _ _ _ Hs)
    as [(Hv & Hnew & Hthr) | [(s & sz & Hpc & Hpc' & Hv)
                             | (i & y & Hpc & Hy & Hv & Hpc')]];
    rewrite Hv in Hk.
  - destruct (Hp _ _ Hk) as [Hp1 Hp2]. split; [| auto].
    unfold ctor_workers_ok in Hc.
    clear Hdtor Hp2 Hv Hg Hz.
    caller_cases Hs; split_kont; simpl in *; auto;
      try (exfalso; eapply Hnew; reflexivity);
      try (exfalso; eapply Hthr; reflexivity).
    rewrite Forall_lookup in Hc. rewrite (Hc _ _ Hk). simpl.
    split; [lia | reflexivity].
  - apply lookup_replicate in Hk as [-> _]. rewrite Hpc'. simpl.
    split; [exact I | intros [? | ?]; discriminate].
  - rewrite Hpc in Hz. destruct Hz as [Hlen _].
    pose proof (lookup_lt_Some _ _ _ Hy) as Hi. rewrite Hpc'.
    apply list_lookup_insert_Some in Hk as [(<- & <- & _) | (Hne & Hk)].
    + split; [| intros [? | ?]; discriminate].
      destruct (S i <? _)%nat; simpl; [| discriminate].
      split; [discriminate | lia].
    + destruct (Hp _ _ Hk) as [Hp1 Hp2]. rewrite Hpc in Hp1.
      pose proof (lookup_lt_Some _ _ _ Hk) as Hklt.
      split; [| intros Ht; specialize (Hp2 Ht); rewrite Hpc in Hp2;
                destruct Hp2].
      destruct (S i <? _)%nat eqn:Hb; simpl.
      * rewrite Hp1. lia.
      * apply Nat.ltb_ge in Hb. rewrite Hp1. lia.
Qed.

Lemma phase_ok_reachable st : reachable st -> phase_ok st.
Proof.
  induction 1 as [st Hinit | l st st' Hr IH Hs].
  - destruct Hinit as (s & sz & o & g1 & g2 & g3 & g4 & _ & ->).
    intros k x Hk. discriminate.
  - destruct l; simpl in Hs;
      eauto using phase_ok_caller_step, phase_ok_worker_step, Inv_reachable.
Qed.

Lemma holder_ok_worker_step i st st' :
  Inv st -> holder_ok st -> worker_step i st = Ok st' -> holder_ok st'.
Proof.
  intros [_ Hh _ _ _ _ _ _] Hc Hs.
  destruct (worker_step_view _ _ _ Hs) as (x & x' & Hl & Hv & Heff & Hpc).
  pose proof (worker_effect_lock _ _ _ _ _ Heff) as (_ & _ & Hm).
  pose proof (worker_effect_pc _ _ _ _ _ Heff) as (_ & _ & _ & _ & _ & Hrel & _).
  pose proof (lookup_lt_Some _ _ _ Hl) as Hlt.
  intros k Hk. rewrite Hv.
  destruct Hm as [Hsame | [(_ & _ & Hnew & ->) | (Hx & Hnone)]].
  - rewrite Hsame in Hk. destruct (Hc _ Hk) as [b Hb].
    destruct (decide (k = i)) as [-> | Hne].
    + rewrite Hl in Hb. injection Hb as ->.
      unfold worker_effect in Heff. simpl in Heff.
      destruct Heff as [_ He']. rewrite He' in Hsame. simpl in Hsame.
      congruence.
    + rewrite list_lookup_insert_ne by auto. eauto.
  - rewrite Hnew in Hk. injection Hk as <-.
    rewrite list_lookup_insert_eq by exact Hlt. eauto.
  - congruence.
Qed.

Lemma holder_ok_caller_step l st st' :
  Inv st -> holder_ok st -> caller_step l st = Ok st' -> holder_ok st'.
Proof.
  intros [Hg _ Hc _ _ _ _ _] Hh Hs. intros k Hk.
  assert (Hold : DfsEngine._m_wait (engine st) = Some (Wk k)).
  { pose proof (caller_step_m_wait _ _ _ Hs Hg) as Hm. clear Hh Hc.
    unfold lock_ok in Hg.
    caller_cases Hs; split_kont; simpl in *; decomp; subst; simpl in *;
      congruence. }
  destruct (Hh _ Hold) as [b Hb].
  destruct (caller_step_workers _ _ _ Hs)
    as [(Hv & _) | [(s & sz & Hpc & _ & Hv) | (i & y & Hpc & Hy & Hv & _)]];
    rewrite Hv.
  - eauto.
  - unfold lock_ok in Hg. rewrite Hpc in Hg. congruence.
  - unfold lock_ok in Hg. rewrite Hpc in Hg. destruct Hg. congruence.
Qed.

Lemma holder_ok_reachable st : reachable st -> holder_ok st.
Proof.
  induction 1 as [st Hinit | l st st' Hr IH Hs].
  - destruct Hinit as (s & sz & o & g1 & g2 & g3 & g4 & _ & ->).
    intros k Hk. discriminate.
  - destruct l; simpl in Hs;
      eauto using holder_ok_caller_step, holder_ok_worker_step, Inv_reachable.
Qed.
End phases.

(** ** Registering termination *)

Section termination.
Context `{SearchSupport}.

(** What a step of a worker does to the remaining fields of the engine. *)
Lemma worker_effect_rest i x x' e e' :
  worker_effect i x x' e e' ->
  match fst x with
  | W_terminate =>
      DfsEngine._n_not_terminated e' = u32 (DfsEngine._n_not_terminated e - 1) /\
      DfsEngine._e_terminate e' =
        (if u32 (DfsEngine._n_not_terminated e - 1) =? 0 then true
         else DfsEngine._e_terminate e) /\
      DfsEngine.e_search e' = DfsEngine.e_search e /\
      DfsEngine.solutions e' = DfsEngine.solutions e
  | W_stop =>
      DfsEngine._n_not_terminated e' = DfsEngine._n_not_terminated e /\
      DfsEngine._e_terminate e' = DfsEngine._e_terminate e /\
      DfsEngine.e_search e' =
        (if DfsEngine.signal e then true else DfsEngine.e_search e) /\
      DfsEngine.solutions e' = DfsEngine.solutions e
  | W_solution s =>
      DfsEngine._n_not_terminated e' = DfsEngine._n_not_terminated e /\
      DfsEngine._e_terminate e' = DfsEngine._e_terminate e /\
      DfsEngine.e_search e' =
        (if DfsEngine.signal e then true else DfsEngine.e_search e) /\
      DfsEngine.solutions e' = DfsEngine.solutions e ++ [s]
  | W_idle =>
      DfsEngine._n_not_terminated e' = DfsEngine._n_not_terminated e /\
      DfsEngine._e_terminate e' = DfsEngine._e_terminate e /\
      DfsEngine.e_search e' =
        (if DfsEngine.signal e && (u32 (DfsEngine.n_busy e - 1) =? 0)
         then true else DfsEngine.e_search e) /\
      DfsEngine.solutions e' = DfsEngine.solutions e
  | _ =>
      DfsEngine._n_not_terminated e' = DfsEngine._n_not_terminated e /\
      DfsEngine._e_terminate e' = DfsEngine._e_terminate e /\
      DfsEngine.e_search e' = DfsEngine.e_search e /\
      DfsEngine.solutions e' = DfsEngine.solutions e
  end.
Proof.
  unfold worker_effect. destruct x as [pc b]; simpl.
  destruct pc; simpl; intros Heff; decomp; subst; simpl; auto.
  - unfold DfsEngine.terminated. destruct (u32 _ =? 0); simpl; auto.
  - unfold DfsEngine.stop. destruct (DfsEngine.signal e); simpl; auto.
  - unfold DfsEngine.solution. destruct (DfsEngine.signal e); simpl; auto.
  - unfold DfsEngine.idle. simpl.
    destruct (DfsEngine.signal e && _); simpl; auto.
Qed.

Lemma live_range x : 0 <= live x <= 1.
Proof. unfold live. destruct (fst x); lia. Qed.

Lemma live_count_range ws : 0 <= live_count ws <= Z.of_nat (length ws).
Proof.
  induction ws as [| x r IH]; simpl; [lia |].
  pose proof (live_range x). lia.
Qed.

Lemma live_count_insert ws i x y :
  ws !! i = Some x ->
  live_count (<[i := y]> ws) = live_count ws - live x + live y.
Proof.
  revert i. induction ws as [| z r IH]; intros [| i] Hl; simpl in *;
    try discriminate.
  - injection Hl as ->. lia.
  - rewrite (IH _ Hl). lia.
Qed.

Lemma live_count_all ws :
  Forall (fun x => fst x <> W_exit) ws -> live_count ws = Z.of_nat (length ws).
Proof.
  induction 1 as [| x r Hx _ IH]; simpl; [reflexivity |].
  rewrite IH. unfold live. destruct (fst x); try lia. congruence.
Qed.

Lemma live_count_none ws :
  live_count ws = 0 -> Forall (fun x => fst x = W_exit) ws.
Proof.
  induction ws as [| x r IH]; simpl; intros Hz; [apply Forall_nil_2 |].
  pose proof (live_range x). pose proof (live_count_range r).
  apply Forall_cons_2; [| apply IH; lia].
  unfold live in *. destruct (fst x); try lia. reflexivity.
Qed.

Lemma in_ctor_not_dtor pc : in_ctor pc -> in_dtor pc -> False.
Proof. destruct pc as [| [|] | [|] | | | | | [|] | | | |]; simpl; tauto. Qed.

Lemma view_length_bound st :
  Inv st -> Z.of_nat (length (view st)) < UINT_RANGE.
Proof.
  intros [_ _ Hc Hz _ _ _ _].
  unfold size_ok, ctor_workers_ok, DfsEngine.workers, DfsEngine.opt in *.
  destruct Hz as [Hthreads Hz].
  destruct (cpc st); [rewrite Hc; simpl; unfold UINT_RANGE; lia
                     | destruct Hz as [-> _]; lia ..].
Qed.
Lemma term_ok_worker_step i st st' :
  Inv st -> phase_ok st -> term_ok st -> worker_step i st = Ok st' ->
  term_ok st'.
Proof.
  intros HI Hp [Hc Hn] Hs.
  destruct (worker_step_view _ _ _ Hs) as (x & x' & Hl & Hv & Heff & Hpc).
  pose proof (worker_effect_rest _ _ _ _ _ Heff) as Hrest.
  pose proof (worker_effect_pc _ _ _ _ _ Heff)
    as (Hx1 & Hx2 & Hx3 & _ & Hexit & _ & Hterm).
  pose proof (view_length_bound _ HI) as Hlen.
  pose proof (live_count_range (view st)) as Hrange.
  pose proof (live_count_range (<[i := x']> (view st))) as Hrange'.
  rewrite (live_count_insert _ _ _ x' Hl) in Hrange'.
  assert (Hx : live x = 1) by (unfold live; destruct (fst x); congruence).
  destruct (Hp _ _ Hl) as [_ Hd].
  unfold term_ok. rewrite Hpc, Hv, (live_count_insert _ _ _ x' Hl).
  assert (Hcase : fst x = W_terminate \/ fst x <> W_terminate)
    by (destruct (fst x); auto; right; discriminate).
  destruct Hcase as [Ht | Hnt].
  - (* the worker registers its termination *)
    rewrite Ht in Hrest. destruct Hrest as (Hn' & He' & _).
    assert (Hdtor : in_dtor (cpc st)) by auto.
    assert (Hx' : live x' = 0) by (unfold live; now rewrite (Hterm Ht)).
    split; [intros Hin; destruct (in_ctor_not_dtor _ Hin Hdtor) |].
    intros Hout. destruct (Hn Hout) as [Hcount Hev].
    rewrite Hn', He', Hcount, u32_small by lia. split; [lia |].
    destruct (cpc st); try contradiction; try lia;
      (destruct (live_count (view st) - 1 =? 0) eqn:Hz;
       [apply Z.eqb_eq in Hz | apply Z.eqb_neq in Hz];
       split; intros Hq; try reflexivity; try lia;
       apply Hev in Hq; lia).
  - (* it does not *)
    assert (Hx' : live x' = 1).
    { unfold live. destruct (fst x') eqn:Hpc'; try reflexivity.
      destruct (Hnt (Hexit eq_refl)). }
    assert (Hsame :
      DfsEngine._n_not_terminated (engine st') =
        DfsEngine._n_not_terminated (engine st) /\
      DfsEngine._e_terminate (engine st') = DfsEngine._e_terminate (engine st)).
    { destruct (fst x); try (destruct (Hnt eq_refl));
        destruct Hrest as (? & ? & _); auto. }
    destruct Hsame as [-> ->]. rewrite Hx, Hx'.
    replace (live_count (view st) - 1 + 1) with (live_count (view st)) by lia.
    split; assumption.
Qed.

Lemma caller_step_term l st st' :
  caller_step l st = Ok st' ->
  (cpc st = C_init /\ cpc st' = C_ready /\
   DfsEngine._n_not_terminated (engine st') =
     Z.of_nat (DfsEngine.workers (engine st)) /\
   DfsEngine._e_terminate (engine st') = DfsEngine._e_terminate (engine st)) \/
  (cpc st = C_join /\ cpc st' = C_dead /\
   DfsEngine._e_terminate (engine st) = true /\
   DfsEngine._n_not_terminated (engine st') =
     DfsEngine._n_not_terminated (engine st)) \/
  (cpc st <> C_init /\ cpc st' <> C_dead /\
   (in_ctor (cpc st') -> in_ctor (cpc st)) /\
   (in_ctor (cpc st) -> in_ctor (cpc st')) /\
   DfsEngine._n_not_terminated (engine st') =
     DfsEngine._n_not_terminated (engine st) /\
   DfsEngine._e_terminate (engine st') = DfsEngine._e_terminate (engine st)).
Proof.
  intros Hs.
  caller_cases Hs; split_kont; decomp; subst; simpl; auto 10;
    right; right; repeat split; auto; congruence.
Qed.

Lemma term_ok_caller_step l st st' :
  Inv st -> phase_ok st -> term_ok st -> caller_step l st = Ok st' ->
  term_ok st'.
Proof.
  intros [_ _ _ Hz _ _ _ _] Hp [Hc Hn] Hs. unfold term_ok, size_ok in *.
  destruct (caller_step_term _ _ _ Hs)
    as [(Hpc & Hpc' & Hn' & He') | [(Hpc & Hpc' & He & Hn')
       | (Hpc & Hpc' & Hin & Hin' & Hn' & He')]].
  - (* the constructor initialises the count *)
    destruct (caller_step_workers _ _ _ Hs)
      as [(Hv & _) | [(s & sz & Hq & _) | (i & y & Hq & _)]];
      [| congruence ..].
    rewrite Hpc', Hn', He', Hv. rewrite Hpc in Hc, Hz.
    destruct Hz as [_ [Hlen Hone]].
    assert (Hall : live_count (view st) = Z.of_nat (length (view st))).
    { apply live_count_all. apply Forall_lookup. intros k x Hk Hx.
      destruct (Hp _ _ Hk) as [_ Hd]. rewrite Hpc in Hd. apply Hd. auto. }
    split; [intros [] |]. intros _. rewrite Hall, Hlen. split; [reflexivity |].
    rewrite (Hc I). unfold DfsEngine.workers, DfsEngine.opt.
    split; [discriminate | lia].
  - (* the destructor has seen the event *)
    destruct (caller_step_workers _ _ _ Hs)
      as [(Hv & _) | [(s & sz & Hq & _) | (i & y & Hq & _)]];
      [| congruence ..].
    rewrite Hpc', Hn', Hv. rewrite Hpc in Hn.
    split; [intros [] |]. intros _.
    destruct (Hn (fun x => x)) as [Hcount Hev]. split; [exact Hcount |].
    apply Hev. exact He.
  - rewrite Hn', He'. split; [auto |]. intros Hout.
    assert (Hout0 : ~ in_ctor (cpc st)) by auto.
    destruct (caller_step_workers _ _ _ Hs)
      as [(Hv & _) | [(s & sz & Hq & _) | (i & y & Hq & _)]];
      [| rewrite Hq in Hout0; destruct (Hout0 I) ..].
    rewrite Hv. destruct (Hn Hout0) as [Hcount Hev].
    split; [exact Hcount |].
    assert (Hnd : cpc st <> C_dead).
    { intros Hd. unfold caller_step in Hs. rewrite Hd in Hs.
      destruct l; discriminate. }
    destruct (cpc st'); try congruence; destruct (cpc st); congruence.
Qed.

Lemma term_ok_reachable st : reachable st -> term_ok st.
Proof.
  induction 1 as [st Hinit | l st st' Hr IH Hs].
  - destruct Hinit as (s & sz & o & g1 & g2 & g3 & g4 & _ & ->).
    split; [reflexivity |]. simpl. tauto.
  - destruct l; simpl in Hs;
      eauto using term_ok_caller_step, term_ok_worker_step, Inv_reachable,
        phase_ok_reachable.
Qed.
End termination.

(** ** Waking the caller of [next()] *)

Section waking.
Context `{SearchSupport}.

Lemma counted_le ws i x : ws !! i = Some x -> counted x <= busy_count ws.
Proof.
  revert i. induction ws as [| z r IH]; intros [| i] Hl; simpl in *;
    try discriminate.
  - injection Hl as ->. pose proof (busy_count_range r). lia.
  - specialize (IH _ Hl). pose proof (counted_range z). lia.
Qed.

Lemma u32_nonneg z : 0 <= u32 z.
Proof. unfold u32, UINT_RANGE. apply Z.mod_pos_bound. lia. Qed.

Lemma wake_ok_worker_step i st st' :
  Inv st' -> wake_ok st -> worker_step i st = Ok st' -> wake_ok st'.
Proof.
  intros [_ _ _ _ Hn' _ _ _] Hw Hs.
  destruct (worker_step_view _ _ _ Hs) as (x & x' & Hl & Hv & Heff & Hpc).
  pose proof (worker_effect_rest _ _ _ _ _ Heff) as Hrest.
  pose proof (worker_effect_search _ _ _ _ _ Heff) as Hsearch.
  assert (Hbusy : forall s, fst x = W_busy s ->
            0 < DfsEngine.n_busy (engine st') \/ in_ctor (cpc st')).
  { intros s Hx. destruct Hn' as [Hin | ->]; [right; exact Hin | left].
    assert (Hx' : x' = (W_take s, snd x)).
    { unfold worker_effect in Heff. rewrite Hx in Heff. apply Heff. }
    assert (Hl' : view st' !! i = Some x').
    { rewrite Hv. apply list_lookup_insert_eq. eapply lookup_lt_Some; eauto. }
    apply counted_le in Hl'. rewrite Hx' in Hl'. unfold counted in Hl'.
    simpl in Hl'. lia. }
  assert (Hgoal :
    DfsEngine.e_search (engine st) = true \/
    DfsEngine.signal (engine st) = true ->
    ~ in_ctor (cpc st') ->
    DfsEngine.e_search (engine st') = true \/
    DfsEngine.signal (engine st') = true).
  { intros [Hset | Hsig] Hout.
    - left. destruct (fst x); destruct Hrest as (_ & _ & -> & _);
        rewrite ?Hset; try reflexivity;
        match goal with |- (if ?c then _ else _) = _ => destruct c end;
        reflexivity.
    - pose proof Hsig as Hsig'. rewrite signal_spec in Hsig'.
      destruct Hsig' as (Hq & Hb & Hst).
      destruct (fst x) eqn:Hx;
        destruct Hrest as (_ & _ & He' & Hq');
        try (right; apply signal_spec; decomp; intuition congruence).
      + left. rewrite He', Hsig. reflexivity.
      + left. rewrite He', Hsig. reflexivity.
      + rewrite He', Hsig. simpl.
        destruct (u32 (DfsEngine.n_busy (engine st) - 1) =? 0) eqn:Hz;
          [left; reflexivity | right].
        apply Z.eqb_neq in Hz. apply signal_spec.
        destruct Hsearch as [-> ->].
        pose proof (u32_nonneg (DfsEngine.n_busy (engine st) - 1)).
        split; [congruence |]. split; [lia | exact Hst].
      + right. apply signal_spec. destruct Hsearch as (_ & _ & Hst').
        destruct (Hbusy _ eq_refl) as [Hpos | Hin]; [| contradiction].
        split; [congruence |]. split; [exact Hpos | congruence]. }
  unfold wake_ok in *. rewrite Hpc in *.
  destruct (cpc st) as [| [|] | [|] | | | | c [|] | [|] | | | |];
    try exact I; apply Hgoal; simpl; auto.
Qed.

Lemma wake_ok_caller_step l st st' :
  Inv st -> wake_ok st -> caller_step l st = Ok st' -> wake_ok st'.
Proof.
  intros [Hg _ _ _ Hn _ _ _] Hw Hs.
  pose proof (busy_count_range (view st)) as Hrange.
  unfold wake_ok, count_ok, lock_ok in *.
  caller_cases Hs; split_kont; simpl in *; decomp; subst; try exact I;
    try contradiction; try discriminate; auto;
    right; apply signal_spec; repeat split; auto; lia.
Qed.

Lemma wake_ok_reachable st : reachable st -> wake_ok st.
Proof.
  induction 1 as [st Hinit | l st st' Hr IH Hs].
  - destruct Hinit as (s & sz & o & g1 & g2 & g3 & g4 & _ & ->). exact I.
  - assert (HI' : Inv st').
    { apply Inv_reachable. eapply reachable_step; eauto. }
    destruct l; simpl in Hs;
      eauto using wake_ok_caller_step, wake_ok_worker_step, Inv_reachable.
Qed.
End waking.

(** ** Counting the calls of the engine's functions *)

Section counting_calls.
Context `{SearchSupport}.

Lemma calls_app f (tr tr' : list (Tid * Action)) :
  calls f (tr ++ tr') = (calls f tr + calls f tr')%nat.
Proof. unfold calls. now rewrite List.filter_app, length_app. Qed.

Lemma calls_new_workers f n m :
  calls f (tagged Caller (map (fun i => A_new_worker i false) (seq n m))) = 0%nat.
Proof. revert n. induction m as [| m IH]; intros n; [reflexivity | apply IH]. Qed.

(** A step of a worker adds the call made at the point it is taken from. *)
Lemma worker_step_calls i st st' x f :
  worker_step i st = Ok st' -> view st !! i = Some x ->
  calls f (trace st') =
    (calls f (trace st) + if fires (fst x) f then 1 else 0)%nat.
Proof.
  intros Hs Hl. unfold view in Hl. rewrite list_lookup_fmap in Hl.
  worker_cases Hs; open_engine; rewrite calls_app;
    injection Hl as <-; simpl; destruct f; reflexivity.
Qed.

(** The engine's thread calls none of the reporting functions. *)
Lemma caller_step_calls l st st' f :
  caller_step l st = Ok st' -> calls f (trace st') = calls f (trace st).
Proof.
  intros Hs.
  caller_cases Hs; rewrite calls_app; split_kont;
    try (unfold tagged, calls; simpl; lia).
  change (calls f (trace st) + calls f (tagged Caller
            (map (fun i => A_new_worker i false)
                 (seq 1 (DfsEngine.workers (engine st) - 1)))) =
          calls f (trace st))%nat.
  rewrite calls_new_workers. lia.
Qed.

Lemma caller_step_init l st st' :
  cpc st = C_init -> caller_step l st = Ok st' ->
  cpc st' = C_ready /\
  DfsEngine.n_busy (engine st') = Z.of_nat (DfsEngine.workers (engine st)) /\
  DfsEngine._n_not_terminated (engine st') =
    Z.of_nat (DfsEngine.workers (engine st)) /\
  DfsEngine.has_stopped (engine st') = false.
Proof.
  intros Hpc Hs. unfold caller_step in Hs. rewrite Hpc in Hs.
  destruct l; try discriminate. injection Hs as <-. simpl. auto.
Qed.

Lemma calls_ok_worker_step i st st' :
  Inv st -> Inv st' -> term_ok st -> term_ok st' -> calls_ok st ->
  worker_step i st = Ok st' -> calls_ok st'.
Proof.
  intros [Hg _ Hc _ Hn Hi _ _] [_ _ _ _ Hn' _ _ _] [_ Ht] [_ Ht'] [Hk1 Hk2] Hs.
  destruct (worker_step_view _ _ _ Hs) as (x & x' & Hl & Hv & Heff & Hpc).
  pose proof (worker_effect_lock _ _ _ _ _ Heff) as (Hopt & _).
  pose proof (worker_effect_search _ _ _ _ _ Heff) as Hsearch.
  pose proof (no_worker_runs_early _ _ _ _ _ Hc Hg Hl Heff) as Hearly.
  pose proof (fun f => worker_step_calls _ _ _ _ f Hs Hl) as Hcalls.
  assert (Hix : idle_pc (fst x) -> snd x = true).
  { unfold idle_ok in Hi. rewrite Forall_lookup in Hi. exact (Hi _ _ Hl). }
  unfold calls_ok, DfsEngine.workers, DfsEngine.opt in *.
  rewrite Hpc, Hopt. split.
  - intros Hin f. rewrite Hcalls, (Hk1 Hin).
    destruct (cpc st) as [| [|] | [|] | | | | | | | | |]; try contradiction;
      destruct Hearly as [-> _]; destruct f; reflexivity.
  - intros Hout. specialize (Hk2 Hout). specialize (Ht Hout).
    rewrite <- Hpc in Hout. specialize (Ht' Hout).
    destruct Hn as [Hn | Hn]; [rewrite Hpc in Hout; contradiction |].
    destruct Hn' as [Hn' | Hn']; [contradiction |].
    destruct Ht as [Ht _], Ht' as [Ht' _].
    rewrite Hv in Hn', Ht'.
    rewrite (busy_count_insert _ _ _ x' Hl) in Hn'.
    rewrite (live_count_insert _ _ _ x' Hl) in Ht'.
    rewrite !Hcalls. destruct Hk2 as (Hb & Hnt & Hst).
    clear Hearly Hc Hg Hk1 Hcalls Hi Hout.
    unfold worker_effect in Heff.
    destruct x as [pc b], x' as [pc' b']; destruct pc; simpl in *;
      decomp; simplify_eq; simpl in *;
      try (rewrite Hix in * by exact I);
      unfold counted, live in *; simpl in *;
      (split; [lia | split; [lia |]]);
      rewrite ?Nat.add_0_r;
      first [ match goal with
              | Hq : DfsEngine.has_stopped (engine st') =
                     DfsEngine.has_stopped (engine st) |- _ =>
                  rewrite Hq; exact Hst
              end
            | split; intros; [lia | assumption] ].
Qed.

Lemma calls_ok_caller_step l st st' :
  calls_ok st -> caller_step l st = Ok st' -> calls_ok st'.
Proof.
  intros [Hk1 Hk2] Hs.
  pose proof (caller_step_opt _ _ _ Hs) as Hopt.
  pose proof (fun f => caller_step_calls _ _ _ f Hs) as Hcalls.
  unfold calls_ok, DfsEngine.workers, DfsEngine.opt in *. rewrite Hopt.
  destruct (caller_step_term _ _ _ Hs)
    as [(Hpc & _) | [(Hpc & Hpc' & _ & Hn')
       | (Hpc & _ & Hin & Hin' & Hn' & _)]].
  - destruct (caller_step_init _ _ _ Hpc Hs) as (-> & -> & -> & ->).
    unfold DfsEngine.workers, DfsEngine.opt.
    rewrite Hpc in Hk1. split; [intros [] |]. intros _.
    rewrite !Hcalls, !(Hk1 I). repeat split; try lia; try discriminate.
  - rewrite Hpc', Hn', !Hcalls. rewrite Hpc in Hk2.
    destruct (caller_step_search _ _ _ Hs) as [Hq | [-> ->]]; [congruence |].
    split; [intros [] | intros _; apply Hk2; auto].
  - split.
    + intros Hc f. rewrite Hcalls. apply Hk1. auto.
    + intros Hout. rewrite Hn', !Hcalls.
      destruct (caller_step_search _ _ _ Hs) as [Hq | [-> ->]]; [congruence |].
      apply Hk2. auto.
Qed.

Lemma calls_ok_reachable st : reachable st -> calls_ok st.
Proof.
  induction 1 as [st Hinit | l st st' Hr IH Hs].
  - destruct Hinit as (s & sz & o & g1 & g2 & g3 & g4 & _ & ->).
    split; [reflexivity |]. simpl. tauto.
  - assert (Hr' : reachable st') by (eapply reachable_step; eauto).
    destruct l as [| | | i]; simpl in Hs.
    1-3: eapply calls_ok_caller_step; eauto.
    apply (calls_ok_worker_step i st st'); auto using Inv_reachable,
      term_ok_reachable.
Qed.
End counting_calls.

(** ** Engines without a stop object *)

Section no_stop_object.
Context `{SearchSupport}.

Lemma view_lookup_inv st i x :
  view st !! i = Some x ->
  exists w, worker st !! i = Some (fst x, w) /\ DfsWorker.idle w = snd x.
Proof.
  unfold view. rewrite list_lookup_fmap.
  destruct (worker st !! i) as [[pc w] |]; [| discriminate].
  intros [= <-]. exists w. auto.
Qed.

Lemma unstopped_ok_worker_step i st st' :
  worker_ok st -> unstopped_ok st -> worker_step i st = Ok st' ->
  unstopped_ok st'.
Proof.
  intros Hw Hf Hs.
  destruct (worker_step_view _ _ _ Hs) as (x & x' & Hl & Hv & Heff & Hpc).
  pose proof (worker_effect_lock _ _ _ _ _ Heff) as (Hopt & _).
  pose proof (worker_effect_search _ _ _ _ _ Heff) as Hsearch.
  destruct (view_lookup_inv _ _ _ Hl) as (w & Hraw & _).
  destruct (Hw _ _ _ Hraw) as [_ Hat].
  unfold unstopped_ok in *. rewrite Hpc, Hopt.
  intros Hnone Hout. specialize (Hf Hnone Hout).
  destruct (fst x); try (destruct Hsearch as [_ ->]; exact Hf);
    try (destruct Hsearch as (_ & _ & ->); exact Hf).
  destruct Hat as [_ Hstop]. contradiction.
Qed.

Lemma unstopped_ok_caller_step l st st' :
  unstopped_ok st -> caller_step l st = Ok st' -> unstopped_ok st'.
Proof.
  intros Hf Hs. pose proof (caller_step_opt _ _ _ Hs) as Hopt.
  unfold unstopped_ok in *. rewrite Hopt. intros Hnone Hout.
  destruct (caller_step_term _ _ _ Hs)
    as [(Hpc & _) | [(Hpc & _) | (Hpc & _ & _ & Hin & _)]].
  - apply (caller_step_init _ _ _ Hpc Hs).
  - destruct (caller_step_search _ _ _ Hs) as [Hq | [_ ->]]; [congruence |].
    apply Hf; [exact Hnone |]. rewrite Hpc. auto.
  - destruct (caller_step_search _ _ _ Hs) as [Hq | [_ ->]]; [congruence |].
    apply Hf; auto.
Qed.

Lemma unstopped_ok_reachable st : reachable st -> unstopped_ok st.
Proof.
  induction 1 as [st Hinit | l st st' Hr IH Hs].
  - destruct Hinit as (s & sz & o & g1 & g2 & g3 & g4 & _ & ->).
    intros _ Hout. destruct (Hout I).
  - destruct l as [| | | i]; simpl in Hs.
    1-3: eapply unstopped_ok_caller_step; eauto.
    apply (unstopped_ok_worker_step i st st'); auto using worker_ok_reachable.
Qed.
End no_stop_object.

(** ** Properties of the reachable states *)

Section run_properties.
Context `{SearchSupport}.

Lemma workers_length st :
  Inv st -> (forall s sz, cpc st <> C_new s sz) ->
  length (worker st) = DfsEngine.workers (engine st) /\
  (1 <= length (worker st))%nat.
Proof.
  intros [_ _ _ [_ Hz] _ _ _ _] Hnew.
  assert (Hlen : length (view st) = length (worker st))
    by (unfold view; apply length_fmap).
  rewrite <- Hlen. unfold DfsEngine.workers, DfsEngine.opt in *.
  destruct (cpc st); [destruct (Hnew _ _ eq_refl) | destruct Hz as [-> ?]; split; [reflexivity | lia] ..].
Qed.

Lemma not_ctor_not_new pc : ~ in_ctor pc -> forall (s : Space) sz, pc <> C_new s sz.
Proof. intros Hout s sz ->. apply Hout. exact I. Qed.

(** X1: once the constructor has set it, [n_busy] is the number of
    workers minus the calls of [idle()] plus the calls of [busy()]; it
    stays between 0 and the number of workers, so the decrement in
    [idle()] and the increment in [busy()] never wrap around. *)
Theorem n_busy_counts_the_reports (st : State) :
  reachable st -> ~ in_ctor (cpc st) ->
  DfsEngine.n_busy (engine st) =
    Z.of_nat (DfsEngine.workers (engine st))
    - Z.of_nat (calls F_idle (trace st)) + Z.of_nat (calls F_busy (trace st)) /\
  0 <= DfsEngine.n_busy (engine st) <= Z.of_nat (DfsEngine.workers (engine st)).
Proof.
  intros Hr Hout. pose proof (Inv_reachable _ Hr) as HI.
  destruct (calls_ok_reachable _ Hr) as [_ Hk].
  destruct (Hk Hout) as (Hb & _). split; [lia |].
  destruct (workers_length _ HI (not_ctor_not_new _ Hout)) as [Hlen _].
  destruct HI as [_ _ _ _ [Hin | Hn] _ _ _]; [contradiction |].
  pose proof (busy_count_range (view st)) as Hrange.
  assert (Hview : length (view st) = length (worker st))
    by apply length_fmap.
  rewrite Hview, Hlen in Hrange. lia.
Qed.

Lemma busy_count_zero ws :
  busy_count ws = 0 <-> Forall (fun x => counted x = 0) ws.
Proof.
  induction ws as [| x r IH]; simpl.
  - split; [intros _; apply Forall_nil_2 | reflexivity].
  - pose proof (counted_range x). pose proof (busy_count_range r).
    rewrite Forall_cons. rewrite <- IH. lia.
Qed.

Lemma counted_zero (pw : WPc * DfsWorker.t) :
  counted (view_of pw) = 0 <->
  DfsWorker.idle (snd pw) = true /\ fst pw <> W_idle /\
  (forall s, fst pw <> W_take s).
Proof.
  destruct pw as [pc w]. unfold counted, view_of. simpl.
  destruct pc, (DfsWorker.idle w); simpl;
    intuition (try discriminate; try lia; try congruence).
Qed.

(** X2: once the constructor has set it, [n_busy] is 0 exactly when
    every worker has [idle] set and is neither about to report it nor
    about to adopt stolen work; and then no worker holds a space. *)
Theorem no_busy_worker_iff_all_idle (st : State) :
  reachable st -> ~ in_ctor (cpc st) ->
  (DfsEngine.n_busy (engine st) = 0 <->
   Forall (fun pw => DfsWorker.idle (snd pw) = true /\ fst pw <> W_idle /\
                     (forall s, fst pw <> W_take s)) (worker st)) /\
  (DfsEngine.n_busy (engine st) = 0 ->
   Forall (fun pw => DfsWorker.cur (snd pw) = None) (worker st)).
Proof.
  intros Hr Hout. pose proof (worker_ok_reachable _ Hr) as Hw.
  destruct (Inv_reachable _ Hr) as [_ _ _ _ [Hin | Hn] _ _ _]; [contradiction |].
  assert (Hiff : DfsEngine.n_busy (engine st) = 0 <->
    Forall (fun pw => DfsWorker.idle (snd pw) = true /\ fst pw <> W_idle /\
                      (forall s, fst pw <> W_take s)) (worker st)).
  { rewrite Hn, busy_count_zero. unfold view. rewrite Forall_fmap.
    apply Forall_iff. intros pw. apply counted_zero. }
  split; [exact Hiff |]. intros Hz. apply Hiff in Hz.
  rewrite Forall_lookup in Hz. apply Forall_lookup. intros i [pc w] Hi.
  destruct (Hz _ _ Hi) as [Hidle _]. apply (Hw _ _ _ Hi). exact Hidle.
Qed.

(** X3: the solutions come out in the order in which the workers handed
    them to [engine.solution()], none lost and none twice: along any run
    from the start of the constructor, the spaces reported are those
    returned by [next()] so far, followed by the one [next()] has popped
    and is about to return, followed by the queue. *)
Theorem solutions_are_returned_in_report_order (ls : list Label)
    (st0 st : State) :
  initial st0 -> run ls st0 = Some st ->
  reported ls st0 =
    somes (returns (trace st)) ++ pending (cpc st) ++
    DfsEngine.solutions (engine st).
Proof.
  intros (s & sz & o & g1 & g2 & g3 & g4 & _ & ->) Hrun.
  apply handed_run in Hrun. exact (eq_sym Hrun).
Qed.

Lemma somes_In (s : Space) l : In (Some s) l -> In s (somes l).
Proof.
  induction l as [| [x |] l IH]; simpl; intros Hin; [destruct Hin | |].
  - destruct Hin as [[= ->] | Hin]; [left; reflexivity | right; auto].
  - destruct Hin as [Hin | Hin]; [discriminate | auto].
Qed.

(** X4: every space that [next()] has returned, and every space in the
    solutions queue, is the clone made by [run()] of a space whose
    [status] was SS_SOLVED. *)
Theorem returned_solutions_are_solved (st : State) :
  reachable st ->
  (forall s, In (Some s) (returns (trace st)) -> solved_clone s) /\
  Forall solved_clone (DfsEngine.solutions (engine st)).
Proof.
  intros Hr. pose proof (handed_sound_reachable _ Hr) as Hs.
  unfold handed in Hs. rewrite !Forall_app in Hs. destruct Hs as (Hret & _ & Hq).
  split; [| exact Hq]. intros s Hin. rewrite Forall_forall in Hret.
  apply Hret. apply list_elem_of_In. apply somes_In. exact Hin.
Qed.

Lemma busy_count_some ws :
  0 < busy_count ws -> exists i x, ws !! i = Some x /\ counted x = 1.
Proof.
  induction ws as [| x r IH]; simpl; [lia |]. intros Hpos.
  pose proof (counted_range x).
  destruct (Z.eq_dec (counted x) 1) as [Hx | Hx].
  - exists 0%nat, x. auto.
  - destruct IH as (i & y & Hi & Hy); [lia |]. exists (S i), y. auto.
Qed.

(** X5: [next()] is blocked in [e_search.wait()] only while the search
    goes on: the solutions queue is empty, no stop has been reported,
    [n_busy] is positive and some worker is indeed accounted busy.  So
    no solution, no stop and no exhaustion is missed by the wait loop. *)
Theorem next_blocks_only_while_search_goes_on (st : State) :
  reachable st -> cpc st = C_wait -> step L_caller st = Disabled ->
  DfsEngine.solutions (engine st) = [] /\
  DfsEngine.has_stopped (engine st) = false /\
  0 < DfsEngine.n_busy (engine st) /\
  exists i pc w, worker st !! i = Some (pc, w) /\
    (DfsWorker.idle w = false \/ pc = W_idle \/ exists s, pc = W_take s).
Proof.
  intros Hr Hpc Hs. pose proof (wake_ok_reachable _ Hr) as Hw.
  destruct (Inv_reachable _ Hr) as [_ _ _ _ Hn _ _ _].
  unfold wake_ok in Hw. rewrite Hpc in Hw.
  simpl in Hs. unfold caller_step in Hs. rewrite Hpc in Hs.
  destruct (DfsEngine.e_search (engine st)); [discriminate |].
  destruct Hw as [? | Hsig]; [discriminate |].
  apply signal_spec in Hsig as (Hq & Hb & Hst).
  split; [exact Hq |]. split; [exact Hst |]. split; [exact Hb |].
  destruct Hn as [Hin | Hn]; [rewrite Hpc in Hin; destruct Hin |].
  rewrite Hn in Hb. destruct (busy_count_some _ Hb) as (i & x & Hi & Hx).
  destruct (view_lookup_inv _ _ _ Hi) as (w & Hraw & Hidle).
  exists i, (fst x), w. split; [exact Hraw |].
  unfold counted in Hx. rewrite Hidle.
  destruct (fst x), (snd x); try lia; eauto.
Qed.

(** X6: a worker's thread is created inside the constructor and leaves
    [run()] only inside the destructor: outside the constructor no
    worker is unstarted, and a worker is at or past [engine.terminated()]
    only after the destructor has written TERMINATE to [_cmd]. *)
Theorem workers_leave_run_only_in_destructor (st : State) (i : nat)
    (pc : WPc) (w : DfsWorker.t) :
  reachable st -> worker st !! i = Some (pc, w) ->
  (pc = W_unstarted -> in_ctor (cpc st)) /\
  (pc = W_terminate \/ pc = W_exit ->
   in_dtor (cpc st) /\ DfsEngine._cmd (engine st) = C_TERMINATE).
Proof.
  intros Hr Hi. apply view_lookup in Hi.
  destruct (phase_ok_reachable _ Hr _ _ Hi) as [Hp1 Hp2]. simpl in *.
  destruct (Inv_reachable _ Hr) as [Hg _ _ _ _ _ _ _]. unfold lock_ok in Hg.
  split.
  - intros ->.
    destruct (cpc st) as [| [|] | [|] | | | | | | | | |]; simpl; auto;
      try (exfalso; apply Hp1; reflexivity).
  - intros Ht. specialize (Hp2 Ht). split; [exact Hp2 |].
    destruct (cpc st) as [| [|] | [|] | | | | | [|] | | | |];
      try contradiction; apply Hg.
Qed.

Lemma live_count_some ws :
  live_count ws <> 0 -> exists i x, ws !! i = Some x /\ fst x <> W_exit.
Proof.
  induction ws as [| x r IH]; simpl; [congruence |]. intros Hpos.
  assert (Hcase : fst x = W_exit \/ fst x <> W_exit)
    by (destruct (fst x); auto; right; discriminate).
  destruct Hcase as [Hx | Hx].
  - destruct IH as (i & y & Hi & Hy).
    + unfold live in Hpos. rewrite Hx in Hpos. lia.
    + exists (S i), y. auto.
  - exists 0%nat, x. auto.
Qed.

Lemma all_exited st :
  live_count (view st) = 0 <-> Forall (fun pw => fst pw = W_exit) (worker st).
Proof.
  split.
  - intros Hz. apply live_count_none in Hz. unfold view in Hz.
    rewrite Forall_fmap in Hz. exact Hz.
  - intros Hall.
    assert (Hn : live_count (view st) <> 0 -> False).
    { intros Hne. destruct (live_count_some _ Hne) as (i & x & Hi & Hx).
      destruct (view_lookup_inv _ _ _ Hi) as (w & Hraw & _).
      rewrite Forall_lookup in Hall. apply Hx. exact (Hall _ _ Hraw). }
    destruct (Z.eq_dec (live_count (view st)) 0); tauto.
Qed.

(** X7: once the constructor has set it, [_n_not_terminated] is the
    number of workers minus the calls of [terminated()] and stays
    between 0 and the number of workers; [_e_terminate] is signalled
    only when it has come down to 0, and the destructor gets past
    [_e_terminate.wait()] only then, when every worker has called
    [terminated()].  (The worker that signals is at that moment still
    inside [terminated()]: it has yet to release [_m_terminate] and to
    return from [run()].) *)
Theorem destructor_waits_for_the_last_terminated (st : State) :
  reachable st -> ~ in_ctor (cpc st) ->
  DfsEngine._n_not_terminated (engine st) =
    Z.of_nat (DfsEngine.workers (engine st))
    - Z.of_nat (calls F_terminated (trace st)) /\
  0 <= DfsEngine._n_not_terminated (engine st)
    <= Z.of_nat (DfsEngine.workers (engine st)) /\
  (DfsEngine._e_terminate (engine st) = true ->
   DfsEngine._n_not_terminated (engine st) = 0) /\
  (cpc st = C_join -> step L_caller st <> Disabled ->
   DfsEngine._n_not_terminated (engine st) = 0 /\
   calls F_terminated (trace st) = DfsEngine.workers (engine st)) /\
  (cpc st = C_dead ->
   DfsEngine._n_not_terminated (engine st) = 0 /\
   calls F_terminated (trace st) = DfsEngine.workers (engine st)).
Proof.
  intros Hr Hout. pose proof (Inv_reachable _ Hr) as HI.
  destruct (calls_ok_reachable _ Hr) as [_ Hk].
  destruct (Hk Hout) as (_ & Hnt & _).
  destruct (term_ok_reachable _ Hr) as [_ Ht].
  destruct (Ht Hout) as [Hcount Hev].
  destruct (workers_length _ HI (not_ctor_not_new _ Hout)) as [Hlen _].
  pose proof (live_count_range (view st)) as Hrange.
  assert (Hview : length (view st) = length (worker st)) by apply length_fmap.
  rewrite Hview, Hlen, <- Hcount in Hrange.
  assert (Hsig : DfsEngine._e_terminate (engine st) = true ->
                 DfsEngine._n_not_terminated (engine st) = 0).
  { intros He. rewrite Hcount.
    destruct (cpc st); try exact Hev; apply Hev; exact He. }
  split; [lia |]. split; [exact Hrange |]. split; [exact Hsig |].
  split; intros Hpc.
  - intros Hs. simpl in Hs. unfold caller_step in Hs. rewrite Hpc in Hs.
    destruct (DfsEngine._e_terminate (engine st)); [| congruence].
    specialize (Hsig eq_refl). split; [exact Hsig | lia].
  - rewrite Hpc in Hev. rewrite Hcount. split; [exact Hev | lia].
Qed.

(** X8: once the constructor has cleared it, [stopped()] is true exactly
    when some worker has called [engine.stop()]. *)
Theorem stopped_iff_stop_reported (st : State) :
  reachable st -> ~ in_ctor (cpc st) ->
  (DfsEngine.stopped (engine st) = true <-> (0 < calls F_stop (trace st))%nat).
Proof.
  intros Hr Hout. destruct (calls_ok_reachable _ Hr) as [_ Hk].
  destruct (Hk Hout) as (_ & _ & Hst). exact Hst.
Qed.

(** X9: without a stop object no worker ever comes to report a stop,
    [engine.stop()] is never called, and [stopped()] is false once the
    constructor has cleared the flag; so whenever a test of [next()]
    decides for NULL, it does so because [n_busy] is 0. *)
Theorem never_stopped_without_stop_object (st : State) :
  reachable st -> stop (DfsEngine.opt (engine st)) = None ->
  (forall i pc w, worker st !! i = Some (pc, w) -> pc <> W_stop) /\
  calls F_stop (trace st) = 0%nat /\
  (~ in_ctor (cpc st) ->
   DfsEngine.stopped (engine st) = false /\
   (forall e', DfsEngine.next_entry (engine st) = (DfsEngine.D_return None, e') ->
      DfsEngine.n_busy (engine st) = 0) /\
   (forall e', DfsEngine.next_check (engine st) = (DfsEngine.D_return None, e') ->
      DfsEngine.n_busy (engine st) = 0)).
Proof.
  intros Hr Hnone. pose proof (unstopped_ok_reachable _ Hr) as Hf.
  pose proof (worker_ok_reachable _ Hr) as Hw.
  destruct (calls_ok_reachable _ Hr) as [Hk1 Hk2].
  assert (Hin : in_ctor (cpc st) \/ ~ in_ctor (cpc st))
    by (destruct (cpc st) as [| [|] | [|] | | | | | | | | |]; simpl; tauto).
  split; [| split].
  - intros i pc w Hi ->. destruct (Hw _ _ _ Hi) as [_ [_ Hstop]].
    exact (Hstop Hnone).
  - destruct Hin as [Hin | Hout]; [exact (Hk1 Hin _) |].
    destruct (Hk2 Hout) as (_ & _ & Hst). specialize (Hf Hnone Hout).
    destruct (calls F_stop (trace st)); [reflexivity |].
    assert (DfsEngine.has_stopped (engine st) = true) by (apply Hst; lia).
    congruence.
  - intros Hout. specialize (Hf Hnone Hout). split; [exact Hf |].
    assert (Hdec : forall e',
      DfsEngine.next_entry (engine st) = (DfsEngine.D_return None, e') ->
      DfsEngine.n_busy (engine st) = 0).
    { intros e' Hd. apply next_entry_decides in Hd.
      destruct Hd as (_ & _ & [Hz | Hst]); [exact Hz | congruence]. }
    split; [exact Hdec |]. intros e'. rewrite next_check_entry. apply Hdec.
Qed.

(** A worker that has been started and has not left [run()] can take a
    step, or waits for [_m_wait] held by a worker that can, unless the
    engine's thread holds [_m_wait]. *)
Lemma worker_can_step st i pc w :
  holder_ok st -> worker_ok st ->
  worker st !! i = Some (pc, w) -> pc <> W_unstarted -> pc <> W_exit ->
  DfsEngine._m_wait (engine st) <> Some Caller ->
  exists l, step l st <> Disabled.
Proof.
  intros Hh Hw Hi Hu He Hm.
  destruct (DfsEngine._m_wait (engine st)) as [[| j] |] eqn:Hlock.
  - congruence.
  - destruct (Hh _ Hlock) as [b Hj].
    destruct (view_lookup_inv _ _ _ Hj) as (wj & Hraw & _).
    exists (L_worker j). simpl. unfold worker_step. rewrite Hraw. simpl.
    discriminate.
  - exists (L_worker i). simpl. unfold worker_step. rewrite Hi.
    destruct (Hw _ _ _ Hi) as [_ Hat].
    assert (Hself : forall j, pc = W_steal j -> (j =? i)%nat = false).
    { intros j ->. destruct Hat as [_ Hne]. now apply Nat.eqb_neq. }
    destruct pc; try congruence; rewrite ?Hlock, ?(Hself _ eq_refl);
      unfold worker_goto;
      repeat match goal with
             | |- context [match ?x with _ => _ end] => destruct x
             end; discriminate.
Qed.

(** X11: a step fails in two ways only: the constructor is run with no
    worker ([threads == 0]) and writes [_worker[0]] outside the array,
    or [assert(n_busy > 0)] fails in [busy()] with [n_busy == 0].  In
    particular the loop that starts the threads, [find()] and [steal()]
    never index [_worker] outside the array. *)
Theorem only_two_steps_can_fail (st : State) (l : Label) :
  reachable st -> step l st = Abort ->
  (l = L_caller /\ (exists s sz, cpc st = C_new s sz) /\
   threads (DfsEngine.opt (engine st)) = 0) \/
  (exists i s w, l = L_worker i /\ worker st !! i = Some (W_busy s, w) /\
     DfsEngine.n_busy (engine st) = 0).
Proof.
  intros Hr Hs. pose proof (Inv_reachable _ Hr) as HI.
  pose proof (worker_ok_reachable _ Hr) as Hw.
  destruct (ctor_trace_reachable _ Hr) as (_ & _ & _ & Hthr).
  pose proof HI as [_ _ Hc [Hthreads Hz] Hn _ _ _].
  destruct l as [| | | i]; simpl in Hs.
  1-3: unfold caller_step, caller_goto in Hs; break_step Hs.
  - left. split; [reflexivity |]. split; [eauto |].
    apply Z.leb_gt in Heqb. unfold DfsEngine.opt in *. lia.
  - exfalso. specialize (Hthr _ eq_refl).
    assert (Hnew : forall s sz, cpc st <> C_new s sz) by congruence.
    destruct (workers_length _ HI Hnew) as [Hlen _].
    apply lookup_ge_None in Heqo. lia.
  - unfold worker_step, worker_goto in Hs. break_step Hs; subst.
    + exfalso. apply Nat.ltb_lt in Heqb.
      assert (Hnew : forall s sz, cpc st <> C_new s sz).
      { intros s sz Hpc. unfold ctor_workers_ok in Hc. rewrite Hpc in Hc.
        apply view_lookup in Heqo. rewrite Hc in Heqo. discriminate. }
      destruct (workers_length _ HI Hnew) as [Hlen _].
      apply lookup_ge_None in Heqo0. lia.
    + exfalso. destruct (Hw _ _ _ Heqo) as [_ [Hlt _]].
      apply lookup_ge_None in Heqo0. lia.
    + right. exists i, s, t. split; [reflexivity |]. split; [exact Heqo |].
      unfold DfsEngine.busy in Heqo0.
      destruct (0 <? DfsEngine.n_busy (engine st)) eqn:Hb; [discriminate |].
      apply Z.ltb_ge in Hb.
      destruct Hn as [Hin | Hn].
      * exfalso. apply view_lookup in Heqo. unfold ctor_workers_ok in Hc.
        destruct (cpc st) as [| [|] | [|] | | | | | | | | |];
          try contradiction;
          try (rewrite Hc in Heqo; discriminate);
          rewrite Forall_lookup in Hc; specialize (Hc _ _ Heqo);
          unfold fresh_worker, parked_worker in Hc; decomp; discriminate.
      * pose proof (busy_count_range (view st)). lia.
Qed.
Lemma ctor_parked st :
  Inv st -> in_ctor (cpc st) -> Forall parked_worker (view st).
Proof.
  intros [_ _ Hc _ _ _ _ _] Hin. unfold ctor_workers_ok in Hc.
  destruct (cpc st) as [| [|] | [|] | | | | | | | | |];
    try contradiction; try exact Hc.
  - rewrite Hc. apply Forall_nil_2.
  - eapply Forall_impl; [exact Hc |]. intros x ->. left. reflexivity.
  - eapply Forall_impl; [exact Hc |]. intros x ->. left. reflexivity.
Qed.

(** No solution is handed over while the constructor runs. *)
Lemma ctor_quiet st : reachable st -> in_ctor (cpc st) -> handed st = [].
Proof.
  induction 1 as [st Hinit | l st st' Hr IH Hs]; intros Hin.
  - destruct Hinit as (s & sz & o & g1 & g2 & g3 & g4 & _ & ->). reflexivity.
  - rewrite (handed_step _ _ _ Hs).
    assert (Hin0 : in_ctor (cpc st)).
    { destruct l as [| | | i]; simpl in Hs.
      1-3: destruct (caller_step_term _ _ _ Hs)
        as [(_ & Hq & _) | [(_ & Hq & _) | (_ & _ & Hc & _)]];
        [rewrite Hq in Hin; destruct Hin .. | auto].
      destruct (worker_step_view _ _ _ Hs) as (_ & _ & _ & _ & _ & <-).
      exact Hin. }
    rewrite (IH Hin0). destruct l as [| | | i]; try reflexivity. simpl.
    destruct (worker st !! i) as [[pc w] |] eqn:Hi; [| reflexivity].
    pose proof (ctor_parked _ (Inv_reachable _ Hr) Hin0) as Hp.
    rewrite Forall_lookup in Hp.
    specialize (Hp _ _ (view_lookup _ _ _ _ Hi)).
    destruct Hp as [[= -> _] | [[= -> _] | [= -> _]]]; reflexivity.
Qed.

(** X14: while the constructor runs, a worker is not yet started, or at
    the head of [run()], or blocked in [engine.wait()]: none has read or
    written the search state that the constructor initialises last, none
    has called a reporting function of the engine, and [next()] has not
    returned; and the constructor itself is never blocked. *)
Theorem workers_wait_for_the_constructor (st : State) :
  reachable st -> in_ctor (cpc st) ->
  Forall (fun pw => (fst pw = W_unstarted \/ fst pw = W_head \/
                     fst pw = W_wait_acquire) /\
                    DfsWorker.idle (snd pw) = false) (worker st) /\
  (forall f, calls f (trace st) = 0%nat) /\
  DfsEngine.solutions (engine st) = [] /\
  returns (trace st) = [] /\
  step L_caller st <> Disabled.
Proof.
  intros Hr Hin. pose proof (Inv_reachable _ Hr) as HI.
  pose proof (ctor_parked _ HI Hin) as Hparked.
  destruct HI as [Hg _ _ _ _ _ [Ho _] _].
  destruct (calls_ok_reachable _ Hr) as [Hk _].
  split; [| split; [exact (Hk Hin) | split; [| split; [exact (Ho Hin) |]]]].
  - unfold view in Hparked. rewrite Forall_fmap in Hparked.
    eapply Forall_impl; [exact Hparked |]. intros [pc w] Hpw.
    unfold parked_worker, view_of in Hpw. simpl in *.
    destruct Hpw as [[= -> ->] | [[= -> ->] | [= -> ->]]]; auto.
  - pose proof (ctor_quiet _ Hr Hin) as Hh.
    unfold handed in Hh. apply app_eq_nil in Hh as [_ Hh].
    apply app_eq_nil in Hh as [_ Hh]. exact Hh.
  - (* [_m_wait] is free when the constructor comes to [block()] *)
    assert (Hfree : cpc st = C_block_acquire B_ctor ->
                    DfsEngine._m_wait (engine st) = None).
    { intros Hpc. unfold lock_ok in Hg. rewrite Hpc in Hg.
      destruct Hg as [_ Hm].
      destruct (DfsEngine._m_wait (engine st)) as [[| i] |] eqn:Hlock;
        [congruence | | reflexivity].
      destruct (holder_ok_reachable _ Hr _ Hlock) as [b Hi].
      rewrite Forall_lookup in Hparked. specialize (Hparked _ _ Hi).
      destruct Hparked as [? | [? | ?]]; discriminate. }
    simpl. unfold caller_step.
    destruct (cpc st) as [| [|] | [|] | | | | | | | | |]; try contradiction;
      rewrite ?(Hfree eq_refl); unfold caller_goto;
      repeat match goal with
             | |- context [match ?x with _ => _ end] => destruct x
             end; discriminate.
Qed.
End run_properties.

(** ** Runs that come to an end *)

Section coming_to_rest.
Context `{SearchSupport}.










(** Unless all threads are done, some thread can take a step. *)
Lemma can_progress st :
  reachable st -> finished st \/ exists l, step l st <> Disabled.
Proof.
  intros Hr. pose proof (Inv_reachable _ Hr) as HI.
  pose proof (holder_ok_reachable _ Hr) as Hh.
  pose proof (worker_ok_reachable _ Hr) as Hw.
  pose proof (phase_ok_reachable _ Hr) as Hp.
  destruct (term_ok_reachable _ Hr) as [_ Ht].
  pose proof HI as [Hg _ _ _ _ _ _ _]. unfold lock_ok in Hg.
  assert (Hworker : ~ in_ctor (cpc st) -> ~ in_dtor (cpc st) ->
            DfsEngine._m_wait (engine st) <> Some Caller ->
            exists l, step l st <> Disabled).
  { intros Hout Hnd Hm.
    destruct (workers_length _ HI (not_ctor_not_new _ Hout)) as [_ Hone].
    destruct (lookup_lt_is_Some_2 (worker st) 0 Hone) as [[pc w] Hi].
    pose proof (view_lookup _ _ _ _ Hi) as Hv.
    destruct (Hp _ _ Hv) as [Hp1 Hp2]. simpl in *.
    apply (worker_can_step st 0%nat pc w Hh Hw Hi); [| | exact Hm].
    - destruct (cpc st) as [| [|] | [|] | | | | | | | | |]; simpl in *;
        try exact Hp1; exfalso; apply Hout; exact I.
    - intros ->. apply Hnd. apply Hp2. auto. }
  destruct (cpc st) as [s sz | k | k | i | | | c k | k | | | |] eqn:Hpc.
  - right. exists L_caller. simpl. unfold caller_step. rewrite Hpc.
    destruct (1 <=? _); discriminate.
  - right. exists L_caller. simpl. unfold caller_step. rewrite Hpc. discriminate.
  - right. destruct (DfsEngine._m_wait (engine st)) as [[| j] |] eqn:Hlock.
    + destruct Hg. congruence.
    + destruct (Hh _ Hlock) as [b Hj].
      destruct (view_lookup_inv _ _ _ Hj) as (wj & Hraw & _).
      exists (L_worker j). simpl. unfold worker_step. rewrite Hraw. simpl.
      discriminate.
    + exists L_caller. simpl. unfold caller_step. rewrite Hpc, Hlock.
      discriminate.
  - right. exists L_caller. simpl. unfold caller_step. rewrite Hpc.
    destruct (worker st !! i); discriminate.
  - right. exists L_caller. simpl. unfold caller_step. rewrite Hpc. discriminate.
  - right. exists L_next. simpl. unfold caller_step. rewrite Hpc.
    destruct (DfsEngine.next_entry _) as [[r |] e']; discriminate.
  - right. exists L_caller. simpl. unfold caller_step. rewrite Hpc. discriminate.
  - right. exists L_caller. simpl. unfold caller_step. rewrite Hpc. discriminate.
  - right. apply Hworker; simpl; auto. apply Hg.
  - right. exists L_caller. simpl. unfold caller_step. rewrite Hpc.
    destruct (DfsEngine.next_check _) as [[r |] e']; discriminate.
  - right. destruct (DfsEngine._e_terminate (engine st)) eqn:He.
    + exists L_caller. simpl. unfold caller_step. rewrite Hpc, He. discriminate.
    + destruct (Ht (fun x => x)) as [_ Hev].
      assert (Hne : live_count (view st) <> 0).
      { intros Hz. apply Hev in Hz. discriminate. }
      destruct (live_count_some _ Hne) as (i & x & Hi & Hx).
      destruct (view_lookup_inv _ _ _ Hi) as (w & Hraw & _).
      destruct (Hp _ _ Hi) as [Hp1 _]. rewrite Hpc in Hp1.
      apply (worker_can_step st i (fst x) w Hh Hw Hraw Hp1 Hx). apply Hg.
  - left. destruct (Ht (fun x => x)) as [_ Hev].
    split; [exact Hpc | apply all_exited; exact Hev].
Qed.

(** X10: the engine and its workers never deadlock: in every reachable
    state some thread can take a step, unless the destructor has
    returned and every worker has left [run()]; and a worker that holds
    [_m_wait] is between the two halves of [engine.wait()], so that its
    next step releases it. *)
Theorem some_thread_can_step (st : State) :
  reachable st ->
  (finished st \/ exists l, step l st <> Disabled) /\
  (forall i, DfsEngine._m_wait (engine st) = Some (Wk i) ->
     exists st', step (L_worker i) st = Ok st' /\
                 DfsEngine._m_wait (engine st') = None).
Proof.
  intros Hr. split; [exact (can_progress st Hr) |]. intros i Hlock.
  destruct (holder_ok_reachable _ Hr _ Hlock) as [b Hi].
  destruct (view_lookup_inv _ _ _ Hi) as (w & Hraw & _). simpl in Hraw.
  simpl. unfold worker_step. rewrite Hraw. unfold worker_goto.
  eexists. split; reflexivity.
Qed.


End coming_to_rest.

(** ** Leaving the wait loop, and the owner of [_m_wait] *)

Section leaving_the_loop.
Context `{SearchSupport}.

Lemma settled_no_signal st :
  settled st -> DfsEngine.signal (engine st) = false.
Proof.
  unfold settled, exhausted, DfsEngine.signal.
  intros [Hq | [Hz | Hst]].
  - destruct (DfsEngine.solutions (engine st)); [congruence | reflexivity].
  - rewrite Hz. simpl. now rewrite andb_false_r.
  - rewrite Hst. simpl. now rewrite andb_false_r.
Qed.

(** A queued solution and a reported stop stay. *)
Lemma worker_step_keeps st i st' :
  worker_step i st = Ok st' ->
  (DfsEngine.solutions (engine st) <> [] ->
   DfsEngine.solutions (engine st') <> []) /\
  (DfsEngine.has_stopped (engine st) = true ->
   DfsEngine.has_stopped (engine st') = true).
Proof.
  intros Hs.
  destruct (worker_step_view _ _ _ Hs) as (x & x' & _ & _ & Heff & _).
  pose proof (worker_effect_rest _ _ _ _ _ Heff) as Hrest.
  pose proof (worker_effect_search _ _ _ _ _ Heff) as Hsearch.
  split.
  - intros Hq. destruct (fst x); destruct Hrest as (_ & _ & _ & ->);
      try exact Hq.
    intros Hnil. apply app_eq_nil in Hnil as [_ Hnil]. discriminate.
  - intros Hst.
    destruct (fst x); try (destruct Hsearch as [_ ->]; exact Hst);
      try (destruct Hsearch as (_ & _ & ->); exact Hst).
    apply Hsearch.
Qed.

(** With [n_busy] at 0, only [busy()] can change it. *)
Lemma no_busy_worker_stays i st st' :
  Inv st -> ~ in_ctor (cpc st) -> DfsEngine.n_busy (engine st) = 0 ->
  worker_step i st = Ok st' ->
  (forall s w, worker st !! i <> Some (W_busy s, w)) ->
  DfsEngine.n_busy (engine st') = 0.
Proof.
  intros [_ _ _ _ Hn _ _ _] Hout Hz Hs Hnot.
  destruct (worker_step_view _ _ _ Hs) as (x & x' & Hl & Hv & Heff & Hpc).
  pose proof (worker_effect_search _ _ _ _ _ Heff) as Hsearch.
  destruct (view_lookup_inv _ _ _ Hl) as (w & Hraw & _).
  destruct Hn as [Hin | Hn]; [contradiction |].
  pose proof (counted_le _ _ _ Hl) as Hle. rewrite <- Hn, Hz in Hle.
  unfold counted in Hle.
  destruct (fst x) eqn:Hx; simpl in *;
    try (exfalso; exact (Hnot _ _ Hraw)); try lia;
    destruct Hsearch as [-> _]; exact Hz.
Qed.

Lemma settled_worker_step i st st' :
  Inv st -> ~ in_ctor (cpc st) -> settled st ->
  worker_step i st = Ok st' ->
  (forall s w, worker st !! i <> Some (W_busy s, w)) \/
  DfsEngine.solutions (engine st) <> [] \/
  DfsEngine.has_stopped (engine st) = true ->
  settled st'.
Proof.
  intros HI Hout Hset Hs Hcase.
  destruct (worker_step_keeps _ _ _ Hs) as [Hkq Hkst].
  unfold settled, exhausted in *.
  destruct Hset as [Hq | [Hz | Hst]]; [left; auto | | right; right; auto].
  destruct Hcase as [Hnot | [Hq | Hst]];
    [| left; auto | right; right; auto].
  right. left. exact (no_busy_worker_stays _ _ _ HI Hout Hz Hs Hnot).
Qed.

(** X15: [next()] leaves its wait loop as soon as there is something to
    leave with.  Once a solution is queued or a stop has been reported,
    no step of a worker undoes this; [n_busy == 0] is undone by no step
    of a worker other than a call of [busy()] (which, at
    [n_busy == 0], fails its assertion).  With a solution queued, a
    stop reported or [n_busy == 0], [e_search.wait()] does not block,
    and the test that follows takes the first queued solution, or NULL
    when the queue is empty, and goes on to [block()]. *)
Theorem next_leaves_the_wait_loop (st : State) :
  reachable st -> cpc st = C_wait \/ cpc st = C_check -> settled st ->
  (forall i st', step (L_worker i) st = Ok st' ->
     (forall s w, worker st !! i <> Some (W_busy s, w)) \/
     DfsEngine.solutions (engine st) <> [] \/
     DfsEngine.has_stopped (engine st) = true ->
     settled st') /\
  (cpc st = C_wait ->
   exists st', step L_caller st = Ok st' /\ cpc st' = C_check /\ settled st') /\
  (cpc st = C_check ->
   exists st', step L_caller st = Ok st' /\
     cpc st' =
       C_block_cmd (B_return (head (DfsEngine.solutions (engine st))))).
Proof.
  intros Hr Hpc Hset. pose proof (Inv_reachable _ Hr) as HI.
  assert (Hout : ~ in_ctor (cpc st))
    by (destruct Hpc as [-> | ->]; intros []).
  split; [| split].
  - intros i st' Hs Hcase.
    exact (settled_worker_step _ _ _ HI Hout Hset Hs Hcase).
  - intros Hw. pose proof (wake_ok_reachable _ Hr) as Hwake.
    unfold wake_ok in Hwake. rewrite Hw in Hwake.
    rewrite (settled_no_signal _ Hset) in Hwake.
    destruct Hwake as [He | ?]; [| discriminate].
    simpl. unfold caller_step. rewrite Hw, He. eexists.
    split; [reflexivity |]. split; [reflexivity | exact Hset].
  - intros Hc. simpl. unfold caller_step. rewrite Hc.
    rewrite next_check_entry. unfold DfsEngine.next_entry.
    destruct Hset as [Hq | Hex].
    + destruct (DfsEngine.solutions (engine st)) as [| s q]; [congruence |].
      eexists. split; reflexivity.
    + destruct (DfsEngine.solutions (engine st)) as [| s q] eqn:Hq.
      * pose proof (next_entry_none _ Hq Hex) as Hnone.
        unfold DfsEngine.next_entry in Hnone. rewrite Hq in Hnone.
        rewrite Hnone. eexists. split; reflexivity.
      * eexists. split; reflexivity.
Qed.

(** X16: [_m_wait] changes hands properly: a step changes its holder
    only by the stepping thread acquiring it while it is free, or by the
    stepping thread releasing it while holding it; no thread releases
    [_m_wait] held by another, or not held at all. *)
Theorem wait_lock_changes_hands_properly (st st' : State) (l : Label) :
  reachable st -> step l st = Ok st' ->
  DfsEngine._m_wait (engine st') <> DfsEngine._m_wait (engine st) ->
  (DfsEngine._m_wait (engine st) = None /\
   DfsEngine._m_wait (engine st') = Some (thread_of l)) \/
  (DfsEngine._m_wait (engine st) = Some (thread_of l) /\
   DfsEngine._m_wait (engine st') = None).
Proof.
  intros Hr Hs Hne. destruct (Inv_reachable _ Hr) as [Hg Hh _ _ _ _ _ _].
  destruct l as [| | | i]; simpl in Hs.
  1-3: unfold lock_ok in Hg;
    caller_cases Hs; split_kont; simpl in *; decomp; subst; simpl in *;
    try congruence; auto.
  destruct (worker_step_view _ _ _ Hs) as (x & x' & Hl & _ & Heff & _).
  destruct (worker_effect_lock _ _ _ _ _ Heff)
    as (_ & _ & [Hsame | [(_ & Hnone & Hnew & _) | (Hx & Hnone)]]).
  - congruence.
  - left. auto.
  - right. split; [| exact Hnone]. destruct x as [pc b]. simpl in Hx. subst pc.
    exact (Hh _ _ Hl).
Qed.
End leaving_the_loop.

(** ** Calls of [next()] after an answer NULL *)

Section after_null.
Context `{SearchSupport}.

End after_null.

(** * The further properties on concrete runs *)

Section further_runs.
Import Toy Scenario Runs.

(** After the run with the unsatisfiable root, the one worker has
    reported idle once and [n_busy] is 0. *)
Lemma n_busy_counts_the_reports_witness :
  DfsEngine.n_busy (engine after_failed_root) = 1 - 1 + 0.
Proof.
  destruct (n_busy_counts_the_reports after_failed_root) as [Hn _].
  - apply (run_reachable failed_root (start Failed one_worker)).
    + apply start_reachable. vm_compute. split; [discriminate | reflexivity].
    + vm_compute. reflexivity.
  - intros [].
  - exact Hn.
Defined.

(** In that state the worker holds no space. *)
Lemma no_busy_worker_witness :
  Forall (fun pw => DfsWorker.cur (snd pw) = None) (worker after_failed_root).
Proof.
  destruct (no_busy_worker_iff_all_idle after_failed_root) as [_ Hcur].
  - apply (run_reachable failed_root (start Failed one_worker)).
    + apply start_reachable. vm_compute. split; [discriminate | reflexivity].
    + vm_compute. reflexivity.
  - intros [].
  - apply Hcur. reflexivity.
Defined.

(** Along the run [solution_after_none] one solution is reported, the
    leaf found by worker 1, and it is the one [next()] returns. *)
Lemma solutions_order_witness :
  reported solution_after_none (start two_leaves two_workers) =
  somes (returns (trace after_solution)).
Proof.
  rewrite (solutions_are_returned_in_report_order solution_after_none
             (start two_leaves two_workers) after_solution).
  - reflexivity.
  - exists two_leaves, 0, two_workers, C_WORK, 7, 7, true.
    split; [vm_compute; split; [discriminate | reflexivity] | reflexivity].
  - vm_compute. reflexivity.
Defined.

(** The solution returned in that run is a clone of a solved space. *)
Lemma returned_solutions_witness : solved_clone Solved.
Proof.
  destruct (returned_solutions_are_solved after_solution) as [Hret _].
  - apply (run_reachable solution_after_none (start two_leaves two_workers)).
    + apply start_reachable. vm_compute. split; [discriminate | reflexivity].
    + vm_compute. reflexivity.
  - apply Hret. right. left. reflexivity.
Defined.

(** While [next()] waits for the one worker, that worker is busy. *)
Lemma next_blocks_witness :
  DfsEngine.solutions (engine waiting) = [] /\
  0 < DfsEngine.n_busy (engine waiting).
Proof.
  destruct (next_blocks_only_while_search_goes_on waiting)
    as (Hq & _ & Hb & _).
  - apply (run_reachable (construct 1 ++ search) (start Solved one_worker)).
    + apply start_reachable. vm_compute. split; [discriminate | reflexivity].
    + vm_compute. reflexivity.
  - reflexivity.
  - reflexivity.
  - split; [exact Hq | exact Hb].
Defined.

(** The worker that has left [run()] did so inside the destructor. *)
Lemma workers_leave_run_witness :
  in_dtor (cpc destroyed) /\ DfsEngine._cmd (engine destroyed) = C_TERMINATE.
Proof.
  destruct (@workers_leave_run_only_in_destructor space support destroyed 0
              W_exit (@DfsWorker.new space support (Some Failed) 0 one_worker))
    as [_ Hd].
  - apply (run_reachable (deleting ++ leaving) (start Failed one_worker)).
    + apply start_reachable. vm_compute. split; [discriminate | reflexivity].
    + vm_compute. reflexivity.
  - vm_compute. reflexivity.
  - apply Hd. right. reflexivity.
Defined.

(** When the destructor has returned, the one worker has called
    [terminated()]. *)
Lemma destructor_waits_witness :
  DfsEngine._n_not_terminated (engine destroyed) = 0 /\
  calls F_terminated (trace destroyed) = 1%nat.
Proof.
  destruct (destructor_waits_for_the_last_terminated destroyed)
    as (_ & _ & _ & _ & Hd).
  - apply (run_reachable (deleting ++ leaving) (start Failed one_worker)).
    + apply start_reachable. vm_compute. split; [discriminate | reflexivity].
    + vm_compute. reflexivity.
  - intros [].
  - exact (Hd eq_refl).
Defined.

(** After two reports of a stop, [stopped()] is true. *)
Lemma stopped_witness : DfsEngine.stopped (engine stopped_twice) = true.
Proof.
  apply (stopped_iff_stop_reported stopped_twice).
  - apply (run_reachable stopping_twice (start Solved always_stop)).
    + apply start_reachable. vm_compute. split; [discriminate | reflexivity].
    + vm_compute. reflexivity.
  - intros [].
  - vm_compute. lia.
Defined.

(** The run with the unsatisfiable root has no stop object: no stop has
    been reported when [next()] has answered NULL. *)
Lemma never_stopped_witness :
  calls F_stop (trace after_failed_root) = 0%nat /\
  DfsEngine.stopped (engine after_failed_root) = false.
Proof.
  destruct (never_stopped_without_stop_object after_failed_root)
    as (_ & Hcalls & Hout).
  - apply (run_reachable failed_root (start Failed one_worker)).
    + apply start_reachable. vm_compute. split; [discriminate | reflexivity].
    + vm_compute. reflexivity.
  - reflexivity.
  - split; [exact Hcalls |]. apply Hout. intros [].
Defined.

(** While [next()] waits, the worker can take a step. *)
Lemma some_thread_can_step_witness :
  exists l, step l waiting <> Disabled.
Proof.
  destruct (some_thread_can_step waiting) as [[[Hdead _] | Hstep] _].
  - apply (run_reachable (construct 1 ++ search) (start Solved one_worker)).
    + apply start_reachable. vm_compute. split; [discriminate | reflexivity].
    + vm_compute. reflexivity.
  - discriminate.
  - exact Hstep.
Defined.

(** The constructor run with no worker fails. *)
Lemma only_two_steps_can_fail_witness :
  threads (DfsEngine.opt (engine (start Failed no_threads))) = 0.
Proof.
  destruct (only_two_steps_can_fail (start Failed no_threads) L_caller)
    as [(_ & _ & Hz) | (i & s & w & Hl & _)].
  - apply start_reachable. vm_compute. split; [discriminate | reflexivity].
  - reflexivity.
  - exact Hz.
  - discriminate.
Defined.



(** Inside the constructor the started worker is blocked in
    [engine.wait()] and has called nothing. *)
Lemma workers_wait_for_the_constructor_witness :
  calls F_idle (trace in_constructor) = 0%nat /\
  returns (trace in_constructor) = [].
Proof.
  destruct (workers_wait_for_the_constructor in_constructor)
    as (_ & Hcalls & _ & Hret & _).
  - apply (run_reachable threads_before_init (start Failed one_worker)).
    + apply start_reachable. vm_compute. split; [discriminate | reflexivity].
    + vm_compute. reflexivity.
  - exact I.
  - split; [apply Hcalls | exact Hret].
Defined.
(** When the stopped worker has reported, [next()] gets past
    [e_search.wait()]. *)
Lemma next_leaves_the_wait_loop_witness :
  exists st', step L_caller stopped_twice = Ok st' /\ cpc st' = C_check.
Proof.
  destruct (next_leaves_the_wait_loop stopped_twice) as (_ & Hwait & _).
  - apply (run_reachable stopping_twice (start Solved always_stop)).
    + apply start_reachable. vm_compute. split; [discriminate | reflexivity].
    + vm_compute. reflexivity.
  - left. reflexivity.
  - right. right. reflexivity.
  - destruct (Hwait eq_refl) as (st' & Hs & Hpc & _). eauto.
Defined.

(** The destructor releases [_m_wait], which the engine's thread holds. *)
Lemma wait_lock_changes_hands_witness :
  DfsEngine._m_wait (engine in_destructor) = Some Caller.
Proof.
  destruct (wait_lock_changes_hands_properly in_destructor
              (default in_destructor (run [L_caller] in_destructor)) L_caller)
    as [[Hfree _] | [Hheld _]].
  - apply (run_reachable deleting (start Failed one_worker)).
    + apply start_reachable. vm_compute. split; [discriminate | reflexivity].
    + vm_compute. reflexivity.
  - reflexivity.
  - discriminate.
  - discriminate.
  - exact Hheld.
Defined.


End further_runs.
